(** * Veterans diary map: the event pipeline of [script.js] and [js/utils.js]

    A shallow embedding of the decision logic of the event map: text
    sanitisation, event categorisation, coordinate resolution, postcode
    search, calendar normalisation and the filter pass.

    Conventions.
    - A JavaScript string is the list of its UTF-16 code units ([jsstring]).
    - A JavaScript number that the code uses as a 32-bit integer is a [Z] with
      the wrap-around written out; a coordinate or a distance is an exact
      rational ([Q]): the rounding of IEEE doubles is not modelled.
    - [fetch] and [response.json()] are answered by an explicit outcome value
      passed to the function that awaits them; an [async] function is the
      function of its awaited results.
    - A thrown exception is the [Throw] case of [Result].
    - Logging and drawing (console, DOM, map markers) are left out. *)

From Stdlib Require Import ZArith QArith Qabs Bool List Ascii String Lia Lqa Sorted.
From Stdlib Require Import Floats.PrimFloat.
From Stdlib Require Import Permutation.
Import ListNotations.
Local Open Scope string_scope.
Local Open Scope list_scope.
Local Open Scope bool_scope.
Local Open Scope Z_scope.

(* ------------------------------------------------------------------------- *)
(** ** JavaScript strings *)
(* ------------------------------------------------------------------------- *)

Module JsString.

Definition jsstring := list Z.

(** The code units of an ASCII literal. *)
Definition lit (s : string) : jsstring :=
  map (fun a => Z.of_N (N_of_ascii a)) (list_ascii_of_string s).

Definition charCodeAt (s : jsstring) (i : nat) : Z := nth i s 0.

Fixpoint eqb (a b : jsstring) : bool :=
  match a, b with
  | [], [] => true
  | x :: a', y :: b' => (x =? y) && eqb a' b'
  | _, _ => false
  end.

(** [WhiteSpace] and [LineTerminator] of ECMAScript: what [\s] matches and
    what [trim] removes. *)
Definition isWhiteSpace (c : Z) : bool :=
  ((9 <=? c) && (c <=? 13)) || (c =? 32) || (c =? 160) || (c =? 5760)
  || ((8192 <=? c) && (c <=? 8202)) || (c =? 8232) || (c =? 8233)
  || (c =? 8239) || (c =? 8287) || (c =? 12288) || (c =? 65279).

Fixpoint trimStart (s : jsstring) : jsstring :=
  match s with
  | [] => []
  | c :: r => if isWhiteSpace c then trimStart r else s
  end.

Fixpoint trimEnd (s : jsstring) : jsstring :=
  match s with
  | [] => []
  | c :: r =>
      match trimEnd r with
      | [] => if isWhiteSpace c then [] else [c]
      | r' => c :: r'
      end
  end.

Definition trim (s : jsstring) : jsstring := trimEnd (trimStart s).

(** Case mapping of the Basic Latin letters; a code unit outside [A-Za-z] is
    left as it is (the Unicode case tables are not modelled). *)
Definition lowerChar (c : Z) : Z :=
  if (65 <=? c) && (c <=? 90) then c + 32 else c.

Definition upperChar (c : Z) : Z :=
  if (97 <=? c) && (c <=? 122) then c - 32 else c.

Definition toLowerCase (s : jsstring) : jsstring := map lowerChar s.
Definition toUpperCase (s : jsstring) : jsstring := map upperChar s.

Fixpoint startsWith (p s : jsstring) : bool :=
  match p, s with
  | [], _ => true
  | _ :: _, [] => false
  | x :: p', y :: s' => (x =? y) && startsWith p' s'
  end.

(** [hay.includes(needle)] *)
Fixpoint includes (hay needle : jsstring) : bool :=
  startsWith needle hay
  || match hay with
     | [] => false
     | _ :: r => includes r needle
     end.

(** [s.replace(/pat/g, rep)] for a literal, non-empty [pat]: matches are taken
    leftmost and do not overlap. [skip] counts the code units of the current
    match that are still to be passed over. *)
Fixpoint replaceAllFrom (pat rep : jsstring) (skip : nat) (s : jsstring)
  : jsstring :=
  match s with
  | [] => []
  | c :: r =>
      match skip with
      | S k => replaceAllFrom pat rep k r
      | O =>
          if startsWith pat s
          then rep ++ replaceAllFrom pat rep (Nat.pred (List.length pat)) r
          else c :: replaceAllFrom pat rep O r
      end
  end.

Definition replaceAll (pat rep s : jsstring) : jsstring :=
  replaceAllFrom pat rep O s.

(** [s.replace(/<[^>]*>/g, "")]: a [<] opens a match exactly when some [>]
    follows it, and the match runs to the first such [>]. [inTag] tells
    whether the scan is inside a match. *)
Definition LT : Z := 60.
Definition GT : Z := 62.
Definition AMP : Z := 38.

Fixpoint stripTagsFrom (inTag : bool) (s : jsstring) : jsstring :=
  match s with
  | [] => []
  | c :: r =>
      if inTag
      then if c =? GT then stripTagsFrom false r else stripTagsFrom true r
      else if (c =? LT) && existsb (Z.eqb GT) r
           then stripTagsFrom true r
           else c :: stripTagsFrom false r
  end.

Definition stripTags (s : jsstring) : jsstring := stripTagsFrom false s.

(** [/<[^>]*>/.test(s)]: [s] contains a markup tag. *)
Fixpoint hasTag (s : jsstring) : bool :=
  match s with
  | [] => false
  | c :: r => ((c =? LT) && existsb (Z.eqb GT) r) || hasTag r
  end.

(** [s.isWellFormed()]: every surrogate code unit is part of a pair. When
    this fails, [encodeURIComponent(s)] throws. *)
Definition isHighSurrogate (c : Z) : bool := (55296 <=? c) && (c <=? 56319).
Definition isLowSurrogate (c : Z) : bool := (56320 <=? c) && (c <=? 57343).

Fixpoint isWellFormed (s : jsstring) : bool :=
  match s with
  | [] => true
  | c :: r =>
      if isHighSurrogate c
      then match r with
           | d :: r' => isLowSurrogate d && isWellFormed r'
           | [] => false
           end
      else negb (isLowSurrogate c) && isWellFormed r
  end.

(** A string that does not start with white space. *)
Definition headOk (s : jsstring) : Prop :=
  match s with
  | [] => True
  | c :: _ => isWhiteSpace c = false
  end.

End JsString.
Import JsString.

(* ------------------------------------------------------------------------- *)
(** ** Sanitizer *)
(* ------------------------------------------------------------------------- *)

Module Sanitizer.

Definition QUOT : jsstring := [34].
Definition APOS : jsstring := [39].

(** The five [replace] calls shared by both sanitisers, in source order. *)
Definition decodeEntities (s : jsstring) : jsstring :=
  replaceAll (lit "&#39;") APOS
    (replaceAll (lit "&quot;") QUOT
       (replaceAll (lit "&amp;") (lit "&")
          (replaceAll (lit "&gt;") (lit ">")
             (replaceAll (lit "&lt;") (lit "<") s)))).

(** *** js/utils.js *)

(** [div.textContent = text; div.innerHTML]: the HTML serialisation of one
    text node escapes [&], [<], [>] and the no-break space. *)
Definition escapeChar (c : Z) : jsstring :=
  if c =? AMP then lit "&amp;"
  else if c =? LT then lit "&lt;"
  else if c =? GT then lit "&gt;"
  else if c =? 160 then lit "&nbsp;"
  else [c].

Definition innerHTMLOfText (text : jsstring) : jsstring :=
  flat_map escapeChar text.

(** [sanitizeText] of js/utils.js. [None] is a [null] or [undefined]
    argument. *)
Definition sanitizeText (text : option jsstring) : jsstring :=
  match text with
  | None | Some [] => []
  | Some t => trim (decodeEntities (innerHTMLOfText t))
  end.

(** *** script.js *)

(** What [window.EventMapUtils] exports under the name [sanitiseText]:
    js/utils.js exports [sanitizeText], [sanitizeHtml], ... and no member
    spelled [sanitiseText], so the property is [undefined]. *)
Definition EventMapUtils_sanitiseText : option (option jsstring -> jsstring) :=
  None.

(** [EventMap.sanitiseText]; [utils] is the value of [this.utils.sanitiseText]
    when [this.utils] is set. *)
Definition sanitiseTextWith (utils : option (option jsstring -> jsstring))
    (text : option jsstring) : jsstring :=
  match utils with
  | Some f => f text
  | None =>
      match text with
      | None | Some [] => []
      | Some t => trim (decodeEntities (stripTags t))
      end
  end.

Definition sanitiseText : option jsstring -> jsstring :=
  sanitiseTextWith EventMapUtils_sanitiseText.

(** *** Predicates and intermediate forms used in the proofs *)

(** One of the five entities occurs in [s]. *)
Definition hasEntity (s : jsstring) : bool :=
  includes s (lit "&lt;") || includes s (lit "&gt;") || includes s (lit "&amp;")
  || includes s (lit "&quot;") || includes s (lit "&#39;").

(** What is left of the escapes of [innerHTML] after [&lt;] has been
    replaced, after [&gt;] too, and after [&amp;] too. *)
Definition escapeAmpGtNbsp (c : Z) : jsstring :=
  if c =? AMP then lit "&amp;"
  else if c =? GT then lit "&gt;"
  else if c =? 160 then lit "&nbsp;"
  else [c].

Definition escapeAmpNbsp (c : Z) : jsstring :=
  if c =? AMP then lit "&amp;"
  else if c =? 160 then lit "&nbsp;"
  else [c].

Definition escapeNbsp (c : Z) : jsstring :=
  if c =? 160 then lit "&nbsp;" else [c].

End Sanitizer.

(* ------------------------------------------------------------------------- *)
(** ** Exceptions *)
(* ------------------------------------------------------------------------- *)

Module Js.

(** The values the code throws, or that a rejected promise carries. *)
Inductive JsError : Type :=
  | TypeError         (* a property of [undefined], a call of a non-function *)
  | FetchFailed       (* [fetch] rejects: no network, DNS, CORS *)
  | JsonSyntaxError   (* [response.json()] rejects *)
  | URIError          (* [encodeURIComponent] meets a lone surrogate *)
  | HttpError (status : Z)
  | ApiKeyIssue
  | OverQueryLimit
  | NoResultsFound
  | GoogleApiError (status : jsstring)
  | NotFound.

Inductive Result (A : Type) : Type :=
  | Ok (a : A)
  | Throw (e : JsError).
Arguments Ok {A} a.
Arguments Throw {A} e.

Definition bind {A B : Type} (m : Result A) (k : A -> Result B) : Result B :=
  match m with
  | Ok a => k a
  | Throw e => Throw e
  end.

(** [try { body } catch (error) { handler }] *)
Definition tryCatch {A : Type} (body : Result A) (handler : JsError -> Result A)
  : Result A :=
  match body with
  | Ok a => Ok a
  | Throw e => handler e
  end.

(** A call [this.m(arg)] where [m] may be [undefined]. *)
Definition callMethod {A B : Type} (m : option (A -> B)) (arg : A) : Result B :=
  match m with
  | Some f => Ok (f arg)
  | None => Throw TypeError
  end.

End Js.
Import Js.

Declare Scope js_scope.
Delimit Scope js_scope with js.
Notation "'let*' x ':=' m 'in' k" := (Js.bind m (fun x => k))
  (at level 10, x name, m at level 100, k at level 200) : js_scope.

(* ------------------------------------------------------------------------- *)
(** ** Location resolver *)
(* ------------------------------------------------------------------------- *)

Module Location.

Record Coord : Type := mkCoord { lat : Q; lng : Q }.

(** [ToInt32]: wrap to the signed 32-bit range. *)
Definition toInt32 (x : Z) : Z :=
  let m := x mod 2 ^ 32 in
  if m <? 2 ^ 31 then m else m - 2 ^ 32.

(** One round of the loop of [generateUniqueCoordinates]:
    [hash = (hash << 5) - hash + char; hash = hash & hash]. *)
Definition hashStep (hash char : Z) : Z :=
  toInt32 (toInt32 (Z.shiftl hash 5) - hash + char).

Definition hashLocation (location : jsstring) : Z :=
  fold_left hashStep location 0.

Definition offsetRange : Q := 0.008.

(** [%] of JavaScript truncates towards zero ([Z.rem]); [>>] propagates the
    sign ([Z.shiftr]). *)
Definition latOffset (hash : Z) : Q :=
  ((inject_Z (Z.rem hash 1000) / 1000 - 0.5) * offsetRange)%Q.

Definition lngOffset (hash : Z) : Q :=
  ((inject_Z (Z.rem (Z.shiftr hash 10) 1000) / 1000 - 0.5) * offsetRange)%Q.

Definition generateUniqueCoordinates (location : jsstring) (baseCoords : Coord)
  : Coord :=
  let hash := hashLocation location in
  {| lat := (lat baseCoords + latOffset hash)%Q;
     lng := (lng baseCoords + lngOffset hash)%Q |}.

(** [window.CALENDAR_CONFIG]; a missing or empty key is [None]. *)
Record Config : Type := mkConfig {
  ENABLE_GEOCODING : bool;
  GEOCODING_API_KEY : option jsstring;
  DEFAULT_REGION : option Coord
}.

(** The answer of the geocoding service, as far as the code reads it. *)
Record Geometry : Type := mkGeometry { location : option Coord }.
(* [location] above is [geometry.location] of a geocoding result. *)
Record GeocodeResult : Type := mkGeocodeResult { geometry : option Geometry }.
Record GeocodeData : Type := mkGeocodeData {
  status : jsstring;
  results : option (list GeocodeResult)
}.

(** What [await fetch(url)] and [await response.json()] give; [D] is the
    shape of the parsed body. *)
Inductive JsonOutcome (D : Type) : Type :=
  | JsonRejects
  | JsonValue (data : D).
Arguments JsonRejects {D}.
Arguments JsonValue {D} data.

Record Response (D : Type) : Type := mkResponse {
  ok : bool;
  http_status : Z;
  json : JsonOutcome D
}.
Arguments mkResponse {D} ok http_status json.
Arguments ok {D} r.
Arguments http_status {D} r.
Arguments json {D} r.

Inductive FetchOutcome (D : Type) : Type :=
  | FetchRejects
  | FetchResolves (response : Response D).
Arguments FetchRejects {D}.
Arguments FetchResolves {D} response.

Definition awaitFetch {D : Type} (net : FetchOutcome D) : Result (Response D) :=
  match net with
  | FetchRejects => Throw FetchFailed
  | FetchResolves r => Ok r
  end.

Definition awaitJson {D : Type} (r : Response D) : Result D :=
  match json r with
  | JsonRejects => Throw JsonSyntaxError
  | JsonValue d => Ok d
  end.

(** [data.results[0].geometry.location], then [{lat: location.lat, ...}] *)
Definition firstLocation (rs : list GeocodeResult) : Result Coord :=
  match rs with
  | [] => Throw TypeError
  | r :: _ =>
      match geometry r with
      | None => Throw TypeError
      | Some g =>
          match location g with
          | None => Throw TypeError
          | Some c => Ok {| lat := lat c; lng := lng c |}
          end
      end
  end.

Definition nonEmptyResults (d : GeocodeData) : option (list GeocodeResult) :=
  match results d with
  | Some (r :: rs) => Some (r :: rs)
  | _ => None
  end.

(** [encodeURIComponent(s)], of which only the success matters here: the
    request URL does not enter the model of the answer. *)
Definition encodeURIComponent (s : jsstring) : Result unit :=
  if isWellFormed s then Ok tt else Throw URIError.

Definition geocodeWithGoogle (address : jsstring) (venueName : option jsstring)
    (net : FetchOutcome GeocodeData) : Result Coord :=
  (let searchQuery := address in
   let* _ := encodeURIComponent searchQuery in
   let* response := awaitFetch net in
   if negb (ok response) then Throw (HttpError (http_status response))
   else
     let* data := awaitJson response in
     match (if JsString.eqb (status data) (lit "OK") then nonEmptyResults data
            else None) with
     | Some rs => firstLocation rs
     | None =>
         if JsString.eqb (status data) (lit "REQUEST_DENIED") then Throw ApiKeyIssue
         else if JsString.eqb (status data) (lit "OVER_QUERY_LIMIT")
              then Throw OverQueryLimit
         else if JsString.eqb (status data) (lit "ZERO_RESULTS")
              then Throw NoResultsFound
         else Throw (GoogleApiError (status data))
     end)%js.

Definition placeholderKey : jsstring := lit "your-google-geocoding-api-key-here".

(** The guard of [getCoordinatesForLocation]. *)
Definition geocodingEnabled (config : option Config) : bool :=
  match config with
  | None => false
  | Some c =>
      ENABLE_GEOCODING c
      && match GEOCODING_API_KEY c with
         | None | Some [] => false
         | Some key => negb (JsString.eqb key placeholderKey)
         end
  end.

Definition defaultCoords : Coord := {| lat := 54.9783; lng := -1.6178 |}.

(** [config?.DEFAULT_REGION || { lat: 54.9783, lng: -1.6178 }] *)
Definition fallbackCoords (config : option Config) : Coord :=
  match config with
  | Some c =>
      match DEFAULT_REGION c with
      | Some r => r
      | None => defaultCoords
      end
  | None => defaultCoords
  end.

(** The last resort of [getCoordinatesForLocation]. *)
Definition hashFallback (config : option Config) (location : jsstring) : Coord :=
  generateUniqueCoordinates location (fallbackCoords config).

Definition getCoordinatesForLocation (config : option Config)
    (location : jsstring) (venueName : option jsstring)
    (net : FetchOutcome GeocodeData) : Result Coord :=
  let fallback := Ok (hashFallback config location) in
  if geocodingEnabled config
  then
    tryCatch
      (let* googleCoords := geocodeWithGoogle location venueName net in
       Ok googleCoords)%js
      (fun _ => fallback)
  else fallback.

End Location.

(* ------------------------------------------------------------------------- *)
(** ** The hash offsets in double precision *)
(* ------------------------------------------------------------------------- *)

(** [generateUniqueCoordinates] once more, with the arithmetic of the source
    carried out on IEEE binary64 numbers. It is used to evaluate the function
    at given inputs; the general statements are about the rational
    version. *)
Module Binary64.

#[local] Set Warnings "-inexact-float".

(** The double nearest to an integer (exact below 2^53). *)
Fixpoint ofPositive (p : positive) : float :=
  match p with
  | xH => 1%float
  | xO q => (2 * ofPositive q)%float
  | xI q => (2 * ofPositive q + 1)%float
  end.

Definition ofZ (z : Z) : float :=
  match z with
  | Z0 => 0%float
  | Zpos p => ofPositive p
  | Zneg p => (- ofPositive p)%float
  end.

Record Coord : Type := mkCoord { lat : float; lng : float }.

Definition offsetRange : float := 0.008%float.

Definition generateUniqueCoordinates (location : jsstring) (baseCoords : Coord)
  : Coord :=
  let hash := Location.hashLocation location in
  let latOffset :=
    ((ofZ (Z.rem hash 1000) / 1000 - 0.5) * offsetRange)%float in
  let lngOffset :=
    ((ofZ (Z.rem (Z.shiftr hash 10) 1000) / 1000 - 0.5) * offsetRange)%float in
  {| lat := (lat baseCoords + latOffset)%float;
     lng := (lng baseCoords + lngOffset)%float |}.

Definition defaultCoords : Coord :=
  {| lat := 54.9783%float; lng := (-1.6178)%float |}.

(** [Math.abs(a - b) > bound] *)
Definition fartherThan (bound a b : float) : bool :=
  PrimFloat.ltb bound (PrimFloat.abs (a - b)%float).

End Binary64.

(* ------------------------------------------------------------------------- *)
(** ** Categorizer *)
(* ------------------------------------------------------------------------- *)

Module Categorizer.

Record Categorization : Type := mkCategorization {
  tags : list jsstring;
  primary : jsstring
}.

Definition orEmpty (s : option jsstring) : jsstring :=
  match s with
  | Some t => t
  | None => []
  end.

(** [tags.push(tag)] under [if (cond)] *)
Definition pushIf (cond : bool) (tag : string) (tags : list jsstring)
  : list jsstring :=
  if cond then tags ++ [lit tag] else tags.

Definition categorizeEvent (title description : option jsstring)
  : Categorization :=
  let titleLower := toLowerCase (orEmpty title) in
  let descLower := toLowerCase (orEmpty description) in
  let combined := titleLower ++ lit " " ++ descLower in
  let has (s : string) := includes combined (lit s) in
  let tags := [] in
  let tags :=
    pushIf (includes descLower (lit "drop in")
            || includes descLower (lit "drop-in")
            || has "drop in" || has "drop-in")
           "drop-in" tags in
  let tags :=
    pushIf (has "support" || has "counselling" || has "therapy" || has "help"
            || has "advice" || has "welfare")
           "support" tags in
  let tags :=
    pushIf (has "breakfast club"
            || (has "breakfast" && negb (has "clay pigeon"))
            || (has "naafi break" && negb (includes descLower (lit "drop in"))))
           "breakfast-club" tags in
  let tags :=
    pushIf (has "meeting" || has "branch meeting" || has "association"
            || has "rbl" || has "royal british legion" || has "dli")
           "meeting" tags in
  let tags :=
    pushIf (has "workshop" || has "training" || has "course" || has "seminar")
           "workshop" tags in
  let tags :=
    pushIf (has "social" || has "mixer" || has "party" || has "celebration")
           "social" tags in
  let tags :=
    pushIf (has "clay pigeon" || has "shooting"
            || includes titleLower (lit "sport")
            || has "football" || has "rugby" || has "sailing" || has "fishing"
            || has "golf" || has "cycling" || has "walking" || has "hiking"
            || has "swimming" || has "offshore sailing")
           "sport" tags in
  {| tags := tags;
     primary := match tags with
                | t :: _ => t
                | [] => lit "other"
                end |}.

End Categorizer.

(* ------------------------------------------------------------------------- *)
(** ** Search query classifier and postcode geocoder *)
(* ------------------------------------------------------------------------- *)

Module Postcode.
Import Location.

(** Regular expressions over code units, matched by derivatives. The
    patterns of the source are anchored at both ends, so [test] is a match of
    the whole string. *)
Inductive regex : Type :=
  | Void
  | Eps
  | Cls (p : Z -> bool)
  | Cat (a b : regex)
  | Alt (a b : regex).

Fixpoint nullable (r : regex) : bool :=
  match r with
  | Void => false
  | Eps => true
  | Cls _ => false
  | Cat a b => nullable a && nullable b
  | Alt a b => nullable a || nullable b
  end.

Fixpoint deriv (c : Z) (r : regex) : regex :=
  match r with
  | Void => Void
  | Eps => Void
  | Cls p => if p c then Eps else Void
  | Cat a b =>
      if nullable a then Alt (Cat (deriv c a) b) (deriv c b)
      else Cat (deriv c a) b
  | Alt a b => Alt (deriv c a) (deriv c b)
  end.

Definition test (r : regex) (s : jsstring) : bool :=
  nullable (fold_left (fun r c => deriv c r) s r).

Definition opt (r : regex) : regex := Alt Eps r.

Definition isUpper (c : Z) : bool := (65 <=? c) && (c <=? 90).
Definition isLower (c : Z) : bool := (97 <=? c) && (c <=? 122).
Definition isDigit (c : Z) : bool := (48 <=? c) && (c <=? 57).

(** [[A-Z]] and [[A-Z0-9]], with and without the [i] flag. *)
Definition AZ (ignoreCase : bool) : regex :=
  Cls (fun c => isUpper c || (ignoreCase && isLower c)).
Definition AZ09 (ignoreCase : bool) : regex :=
  Cls (fun c => isUpper c || (ignoreCase && isLower c) || isDigit c).
Definition D09 : regex := Cls isDigit.
Definition WS : regex := Cls isWhiteSpace.

(** [[A-Z]{1,2}[0-9][A-Z0-9]?] *)
Definition outward (i : bool) : regex :=
  Cat (AZ i) (Cat (opt (AZ i)) (Cat D09 (opt (AZ09 i)))).

(** [[0-9][A-Z]{2}] *)
Definition inward (i : bool) : regex := Cat D09 (Cat (AZ i) (AZ i)).

(** [/^[A-Z]{1,2}[0-9][A-Z0-9]?\s?[0-9][A-Z]{2}$/i] *)
Definition fullPostcodeRegex : regex :=
  Cat (outward true) (Cat (opt WS) (inward true)).

(** [/^[A-Z]{1,2}[0-9][A-Z0-9]?$/i] *)
Definition partialPostcodeRegex : regex := outward true.

(** [s.replace(/\s+/g, " ")]; [inRun] tells whether the previous code unit
    was white space. *)
Fixpoint collapseFrom (inRun : bool) (s : jsstring) : jsstring :=
  match s with
  | [] => []
  | c :: r =>
      if isWhiteSpace c
      then if inRun then collapseFrom true r else 32 :: collapseFrom true r
      else c :: collapseFrom false r
  end.

Definition collapseWhitespace (s : jsstring) : jsstring := collapseFrom false s.

(** [s.replace(/\s+/g, "")] and [s.replace(/\s/g, "")] *)
Definition removeWhitespace (s : jsstring) : jsstring :=
  filter (fun c => negb (isWhiteSpace c)) s.

Definition isPostcode (searchQuery : jsstring) : bool :=
  let cleanQuery := trim (removeWhitespace searchQuery) in
  test fullPostcodeRegex (trim (collapseWhitespace searchQuery))
  || test partialPostcodeRegex cleanQuery.

(** The origin of a postcode search. *)
Record SearchCoords : Type := mkSearchCoords {
  sc_lat : Q;
  sc_lng : Q;
  radius : Q;
  isPartial : bool
}.

(** The body of a Nominatim answer: [null], or an array of places whose
    [lat] and [lon] have gone through [parseFloat]. *)
Definition NominatimData : Type := option (list Coord).

Definition placeholderKey : jsstring := lit "your-geocoding-api-key-here".

(** The guard on the global [config] in [geocodePostcode]. *)
Definition googleConfigured (config : option Config) : bool :=
  match config with
  | None => false
  | Some c =>
      ENABLE_GEOCODING c
      && match GEOCODING_API_KEY c with
         | None | Some [] => false
         | Some key => negb (JsString.eqb key placeholderKey)
         end
  end.

(** The body of the [try] block of [geocodePostcode]. *)
Definition geocodePostcodeBody (config : option Config) (postcode : jsstring)
    (google : FetchOutcome GeocodeData) (nominatim : FetchOutcome NominatimData)
  : Result SearchCoords :=
  let cleanPostcode := toUpperCase (trim (collapseWhitespace postcode)) in
  let isPartial :=
    negb (test (Cat (outward false) (Cat WS (inward false))) cleanPostcode)
    && negb (test (Cat (outward false) (inward false))
               (removeWhitespace cleanPostcode)) in
  let searchQuery := cleanPostcode in
  let searchRadius : Q := 15%Q in
  let viaNominatim : Result SearchCoords :=
    (let* _ := encodeURIComponent searchQuery in
     let* response := awaitFetch nominatim in
     let notFound : Result SearchCoords := Throw NotFound in
     if ok response
     then
       let* data := awaitJson response in
       match data with
       | Some (place :: _) =>
           Ok {| sc_lat := lat place; sc_lng := lng place;
                 radius := searchRadius; isPartial := isPartial |}
       | _ => notFound
       end
     else notFound)%js in
  if googleConfigured config
  then
    (let* _ := encodeURIComponent searchQuery in
     let* response := awaitFetch google in
     if ok response
     then
       let* data := awaitJson response in
       match nonEmptyResults data with
       | Some rs =>
           let* location := firstLocation rs in
           Ok {| sc_lat := lat location; sc_lng := lng location;
                 radius := searchRadius; isPartial := isPartial |}
       | None => viaNominatim
       end
     else viaNominatim)%js
  else viaNominatim.

(** [geocodePostcode]: every exception ends in [return null]. *)
Definition geocodePostcode (config : option Config) (postcode : jsstring)
    (google : FetchOutcome GeocodeData) (nominatim : FetchOutcome NominatimData)
  : option SearchCoords :=
  match geocodePostcodeBody config postcode google nominatim with
  | Ok r => Some r
  | Throw _ => None
  end.

(** A Nominatim answer with one place. *)
Definition nominatimFound (c : Coord) : FetchOutcome NominatimData :=
  FetchResolves (mkResponse true 200 (JsonValue (Some [c]))).

End Postcode.

(* ------------------------------------------------------------------------- *)
(** ** Dates *)
(* ------------------------------------------------------------------------- *)

Module JsDate.

Definition msPerDay : Z := 86400000.

(** The clock of one run: the current instant in milliseconds since the
    epoch, and the offset of local time from UTC in milliseconds (one fixed
    offset; a change of offset between the instants compared is not
    modelled). *)
Record Clock : Type := mkClock { now : Z; tzOffset : Z }.

(** A [Date] object: its time value, or [None] for an invalid date (NaN). *)
Definition t : Type := option Z.

(** A calendar day is the number of days from 1970-01-01.
    [days_from_civil y m d] is the day of the date [y-m-d] (months from 1). *)
Definition days_from_civil (y m d : Z) : Z :=
  let y' := if m <=? 2 then y - 1 else y in
  let era := y' / 400 in
  let yoe := y' - era * 400 in
  let mp := if 2 <? m then m - 3 else m + 9 in
  let doy := (153 * mp + 2) / 5 + d - 1 in
  let doe := yoe * 365 + yoe / 4 - yoe / 100 + doy in
  era * 146097 + doe - 719468.

(** Year, month (from 1) and day of month of a calendar day. *)
Definition civil_from_days (z : Z) : Z * Z * Z :=
  let z' := z + 719468 in
  let era := z' / 146097 in
  let doe := z' - era * 146097 in
  let yoe := (doe - doe / 1460 + doe / 36524 - doe / 146096) / 365 in
  let doy := doe - (365 * yoe + yoe / 4 - yoe / 100) in
  let mp := (5 * doy + 2) / 153 in
  let d := doy - (153 * mp + 2) / 5 + 1 in
  let m := if mp <? 10 then mp + 3 else mp - 9 in
  (if m <=? 2 then yoe + era * 400 + 1 else yoe + era * 400, m, d).

(** The local calendar day of an instant. *)
Definition localDay (clk : Clock) (ms : Z) : Z := (ms + tzOffset clk) / msPerDay.

(** The UTC calendar day of an instant: [toISOString().split("T")[0]]. *)
Definition utcDay (ms : Z) : Z := ms / msPerDay.

(** [new Date(year, monthIndex, day)]: local midnight of that date; a month
    index past 11 carries into the year, a day past the end of the month
    carries into the next month. *)
Definition localDate (clk : Clock) (year monthIndex day : Z) : Z :=
  (days_from_civil (year + monthIndex / 12) (monthIndex mod 12 + 1) 1 + day - 1)
  * msPerDay - tzOffset clk.

(** [d.setHours(0, 0, 0, 0)] *)
Definition startOfLocalDay (clk : Clock) (ms : Z) : Z :=
  localDay clk ms * msPerDay - tzOffset clk.

Definition setHoursZero (clk : Clock) (d : t) : t :=
  option_map (startOfLocalDay clk) d.

(** [a < b], [a <= b] and [a.getTime() === b.getTime()]: false when either
    side is NaN. *)
Definition lt (a b : t) : bool :=
  match a, b with
  | Some x, Some y => x <? y
  | _, _ => false
  end.

Definition le (a b : t) : bool :=
  match a, b with
  | Some x, Some y => x <=? y
  | _, _ => false
  end.

Definition sameTime (a b : t) : bool :=
  match a, b with
  | Some x, Some y => x =? y
  | _, _ => false
  end.

(** An ISO date-time as the feed writes it: the calendar day before the [T],
    the time of day after it, and the UTC offset at its end ([Z] is 0), the
    last two in milliseconds. *)
Record DateTime : Type := mkDateTime {
  dt_day : Z;
  dt_timeOfDay : Z;
  dt_utcOffset : Z
}.

(** [new Date(s)] for a date-time with offset, for a date alone (read as
    UTC), and for a date with ["T23:59:59"] appended (no offset: read as
    local time). *)
Definition parseDateTime (dt : DateTime) : Z :=
  dt_day dt * msPerDay + dt_timeOfDay dt - dt_utcOffset dt.

Definition parseDateOnly (day : Z) : Z := day * msPerDay.

Definition parseLocalEndOfDay (clk : Clock) (day : Z) : Z :=
  day * msPerDay + 86399000 - tzOffset clk.

Definition pad2 (n : Z) : jsstring := [48 + n / 10; 48 + n mod 10].

(** [date.toLocaleTimeString("en-GB", {hour: "2-digit", minute: "2-digit",
    hour12: false})] *)
Definition formatTime (clk : Clock) (d : t) : jsstring :=
  match d with
  | None => lit "Invalid Date"
  | Some ms =>
      let tod := (ms + tzOffset clk) mod msPerDay in
      pad2 (tod / 3600000) ++ lit ":" ++ pad2 ((tod / 60000) mod 60)
  end.

End JsDate.

(* ------------------------------------------------------------------------- *)
(** ** Calendar items and events *)
(* ------------------------------------------------------------------------- *)

Module Item.

(** [start] and [end] of a calendar item: [date] for an all-day entry,
    [dateTime] for a timed one. A missing or empty member is [None]. *)
Record EventTime : Type := mkEventTime {
  date : option Z;
  dateTime : option JsDate.DateTime
}.

Record t : Type := mkItem {
  summary : option jsstring;
  description : option jsstring;
  location : option jsstring;
  start : option EventTime;
  end_ : option EventTime;
  recurringEventId : option jsstring
}.

(** [item.start?.dateTime] and [item.start?.date] *)
Definition startDateTime (item : t) : option JsDate.DateTime :=
  match start item with
  | Some s => dateTime s
  | None => None
  end.

Definition startDate (item : t) : option Z :=
  match start item with
  | Some s => date s
  | None => None
  end.

Definition endDateTime (item : t) : option JsDate.DateTime :=
  match end_ item with
  | Some s => dateTime s
  | None => None
  end.

End Item.

Module Event.

(** The event objects held in [this.events]. The last three members are
    [undefined] ([None]) until a filter pass assigns them. *)
Record t : Type := mkEvent {
  id : Z;
  title : jsstring;
  description : jsstring;
  category : jsstring;
  categories : list jsstring;
  date : Z;
  time : jsstring;
  startTime : option jsstring;
  endTime : option jsstring;
  location : jsstring;
  originalEvent : option Item.t;
  lat : Q;
  lng : Q;
  isElapsed : bool;
  _searchDistance : option Q;
  _searchRadius : option Q;
  _isPartialPostcode : option bool
}.

Definition set_isElapsed (b : bool) (e : t) : t :=
  mkEvent (id e) (title e) (description e) (category e) (categories e) (date e)
    (time e) (startTime e) (endTime e) (location e) (originalEvent e) (lat e)
    (lng e) b (_searchDistance e) (_searchRadius e) (_isPartialPostcode e).

(** The three assignments of the postcode branch of [filterEvents]. *)
Definition set_search (distance searchRadius : Q) (isPartial : bool) (e : t) : t :=
  mkEvent (id e) (title e) (description e) (category e) (categories e) (date e)
    (time e) (startTime e) (endTime e) (location e) (originalEvent e) (lat e)
    (lng e) (isElapsed e) (Some distance) (Some searchRadius) (Some isPartial).

End Event.

(** Stable sorting, as [Array.prototype.sort] with a comparator that
    orders by a key: [lt a b] says that [a] must come before [b]. *)
Module StableSort.

Section Sort.
Context {A : Type} (lt : A -> A -> bool).

Fixpoint insert (x : A) (l : list A) : list A :=
  match l with
  | [] => [x]
  | y :: l' => if lt y x then y :: insert x l' else x :: l
  end.

Definition sort (l : list A) : list A := fold_right insert [] l.
End Sort.

Definition Qlt_bool (a b : Q) : bool := negb (Qle_bool b a).

(** The comparator [(a, b) => key(a) - key(b)], and the order it sorts by. *)
Definition byKey {A : Type} (key : A -> Q) (a b : A) : bool :=
  Qlt_bool (key a) (key b).

Definition keyLe {A : Type} (key : A -> Q) (a b : A) : Prop :=
  (key a <= key b)%Q.

End StableSort.

(* ------------------------------------------------------------------------- *)
(** ** Event normalizer *)
(* ------------------------------------------------------------------------- *)

Module Normalizer.

Definition excludedRecurringEventIds : list jsstring :=
  [lit "2scpgqhjtjh5tc33cg3jm3ik5c"; lit "30ed1sa1ev6k8kgp0ucg1mq24j_R20260105"].

Definition isExcludedRecurringEvent (recurringEventId : option jsstring) : bool :=
  match recurringEventId with
  | Some i => existsb (JsString.eqb i) excludedRecurringEventIds
  | None => false
  end.

(** [x || fallback] on a string that may be missing or empty. *)
Definition orElse (x : option jsstring) (fallback : string) : jsstring :=
  match x with
  | None | Some [] => lit fallback
  | Some s => s
  end.

Definition extractDate (clk : JsDate.Clock) (item : Item.t) : Z :=
  match Item.startDate item with
  | Some d => d
  | None =>
      match Item.startDateTime item with
      | Some dt => JsDate.dt_day dt
      | None => JsDate.utcDay (JsDate.now clk)
      end
  end.

Definition extractStartTime (clk : JsDate.Clock) (item : Item.t) : option jsstring :=
  match Item.startDateTime item with
  | Some dt => Some (JsDate.formatTime clk (Some (JsDate.parseDateTime dt)))
  | None => None
  end.

Definition extractEndTime (clk : JsDate.Clock) (item : Item.t) : option jsstring :=
  match Item.endDateTime item with
  | Some dt => Some (JsDate.formatTime clk (Some (JsDate.parseDateTime dt)))
  | None => None
  end.

Definition truthy (s : option jsstring) : bool :=
  match s with
  | None | Some [] => false
  | Some _ => true
  end.

Definition extractTime (clk : JsDate.Clock) (item : Item.t) : jsstring :=
  let startTime := extractStartTime clk item in
  let endTime := extractEndTime clk item in
  if negb (truthy startTime) && negb (truthy endTime) then lit "All day"
  else
    match startTime, endTime with
    | Some s, Some e =>
        if truthy startTime && truthy endTime && negb (JsString.eqb s e)
        then s ++ lit " - " ++ e
        else orElse startTime "Time TBD"
    | _, _ => orElse startTime "Time TBD"
    end.

(** The method [sanitiseHtml] of the [EventMap] object: script.js calls
    [this.sanitiseHtml] in [transformCalendarItem] and defines no method of
    that name (js/utils.js has a function [sanitizeHtml], which is not a
    member of the class), so the member is [undefined]. *)
Definition EventMap_sanitiseHtml : option (jsstring -> jsstring) := None.

Section Transform.
(** The member [this.sanitiseHtml], the configuration and the clock. *)
Variable sanitiseHtml : option (jsstring -> jsstring).
Variable config : option Location.Config.
Variable clk : JsDate.Clock.

Definition transformCalendarItem (item : Item.t) (id : Z)
    (net : Location.FetchOutcome Location.GeocodeData) : Result Event.t :=
  (let title :=
     Sanitizer.sanitiseText (Some (orElse (Item.summary item) "Unnamed Event")) in
   let* description :=
     callMethod sanitiseHtml
       (orElse (Item.description item) "No description available") in
   let location :=
     Sanitizer.sanitiseText (Some (orElse (Item.location item) "Location TBD")) in
   let categorization :=
     Categorizer.categorizeEvent (Some title) (Some description) in
   let* coordinates :=
     Location.getCoordinatesForLocation config location (Some title) net in
   Ok {| Event.id := id;
         Event.title := title;
         Event.description := description;
         Event.category := Categorizer.primary categorization;
         Event.categories := Categorizer.tags categorization;
         Event.date := extractDate clk item;
         Event.time := extractTime clk item;
         Event.startTime := extractStartTime clk item;
         Event.endTime := extractEndTime clk item;
         Event.location := location;
         Event.originalEvent := Some item;
         Event.lat := Location.lat coordinates;
         Event.lng := Location.lng coordinates;
         Event.isElapsed := false;
         Event._searchDistance := None;
         Event._searchRadius := None;
         Event._isPartialPostcode := None |})%js.

(** [new Date(item.start?.dateTime || item.start?.date)] *)
Definition eventDate (item : Item.t) : JsDate.t :=
  match Item.startDateTime item with
  | Some dt => Some (JsDate.parseDateTime dt)
  | None => option_map JsDate.parseDateOnly (Item.startDate item)
  end.

(** [new Date(item.start?.dateTime || `${item.start?.date}T23:59:59`)] *)
Definition eventDateTime (item : Item.t) : JsDate.t :=
  match Item.startDateTime item with
  | Some dt => Some (JsDate.parseDateTime dt)
  | None => option_map (JsDate.parseLocalEndOfDay clk) (Item.startDate item)
  end.

Definition today : JsDate.t :=
  Some (JsDate.startOfLocalDay clk (JsDate.now clk)).

Definition eventDateOnly (item : Item.t) : JsDate.t :=
  JsDate.setHoursZero clk (eventDate item).

(** One round of the loop of [processCalendarItems], inside its [try]:
    [Ok None] is a [continue], [Ok (Some e)] reaches [push]. *)
Definition processItem (item : Item.t) (processedEvents : list Event.t)
    (net : Location.FetchOutcome Location.GeocodeData)
  : Result (option Event.t) :=
  (if isExcludedRecurringEvent (Item.recurringEventId item) then Ok None
   else if JsDate.lt (eventDateOnly item) today then Ok None
   else if includes (toLowerCase (orElse (Item.summary item) ""))
             (lit "useful information")
   then Ok None
   else
     let* event :=
       transformCalendarItem item
         (Z.of_nat (List.length processedEvents) + 1) net in
     let event :=
       Event.set_isElapsed
         (JsDate.lt (eventDateTime item) (Some (JsDate.now clk))
          && JsDate.sameTime (eventDateOnly item) today)
         event in
     if Qeq_bool (Event.lat event) 0 && Qeq_bool (Event.lng event) 0
     then Ok None
     else Ok (Some event))%js.

(** The loop; [nets i] answers the geocoding request of the item at
    index [i]. A thrown exception is caught and the item skipped. *)
Fixpoint processLoop (i : nat) (items : list Item.t)
    (nets : nat -> Location.FetchOutcome Location.GeocodeData)
    (processedEvents : list Event.t) : list Event.t :=
  match items with
  | [] => processedEvents
  | item :: rest =>
      processLoop (S i) rest nets
        (match processItem item processedEvents (nets i) with
         | Ok (Some event) => processedEvents ++ [event]
         | Ok None => processedEvents
         | Throw _ => processedEvents
         end)
  end.

(** [processedEvents.sort((a, b) => new Date(a.date) - new Date(b.date))] *)
Definition sortByDate (l : list Event.t) : list Event.t :=
  StableSort.sort (fun a b => Event.date a <? Event.date b) l.

Definition processCalendarItemsWith (items : list Item.t)
    (nets : nat -> Location.FetchOutcome Location.GeocodeData)
  : list Event.t :=
  sortByDate (processLoop O items nets []).
End Transform.

(** [processCalendarItems] of script.js. *)
Definition processCalendarItems :=
  processCalendarItemsWith EventMap_sanitiseHtml.

(** What the tests of the loop establish of an event that reaches [push]:
    it comes from an item that is not excluded and whose day is not before
    today, it carries the date of that item, and its coordinates are not
    (0, 0). *)
Definition pushed (clk : JsDate.Clock) (e : Event.t) : Prop :=
  exists item,
    Event.originalEvent e = Some item
    /\ Event.date e = extractDate clk item
    /\ isExcludedRecurringEvent (Item.recurringEventId item) = false
    /\ JsDate.lt (eventDateOnly clk item) (today clk) = false
    /\ ~ (Event.lat e == 0 /\ Event.lng e == 0)%Q.

End Normalizer.

(* ------------------------------------------------------------------------- *)
(** ** Filter and sort engine *)
(* ------------------------------------------------------------------------- *)

Module Filter.

Inductive DateFilter : Type := Today | Week | Month | All.

(** The fields of the [EventMap] object that a filter pass reads or writes.
    [events] is the store of the event objects; [filteredEvents] and
    [displayedEvents] hold references to these same objects, written as
    their positions in [events]. *)
Record EventMap : Type := mkEventMap {
  events : list Event.t;
  filteredEvents : list nat;
  displayedEvents : list nat;
  currentPage : Z;
  currentDateFilter : DateFilter
}.

(** The form controls read by [filterEvents]. An empty date input is [None]. *)
Record Dom : Type := mkDom {
  searchInput : jsstring;
  categoryFilter : jsstring;
  dateFilter : option Z
}.

(** What a pass gets from outside: the global [config], the clock, and the
    answers of the two geocoding services. *)
Record World : Type := mkWorld {
  config : option Location.Config;
  clock : JsDate.Clock;
  google : Location.FetchOutcome Location.GeocodeData;
  nominatim : Location.FetchOutcome Postcode.NominatimData
}.

Definition deref (store : list Event.t) (ref : nat) : option Event.t :=
  nth_error store ref.

(** [filterEventsByDate]: the test applied to one event. *)
Definition inDateRange (clk : JsDate.Clock) (f : DateFilter) (event : Event.t)
  : bool :=
  let today := JsDate.startOfLocalDay clk (JsDate.now clk) in
  let eventDate := JsDate.parseDateOnly (Event.date event) in
  match f with
  | Today => JsDate.localDay clk eventDate =? JsDate.localDay clk today
  | Week =>
      let weekFromNow := today + 7 * 24 * 60 * 60 * 1000 in
      (today <=? eventDate) && (eventDate <=? weekFromNow)
  | Month =>
      let '(year, month, day) := JsDate.civil_from_days (JsDate.localDay clk today) in
      let monthFromNow := JsDate.localDate clk year (month - 1 + 1) day in
      (today <=? eventDate) && (eventDate <=? monthFromNow)
  | All => true
  end.

Definition filterEventsByDate (clk : JsDate.Clock) (f : DateFilter)
    (store : list Event.t) (refs : list nat) : list nat :=
  match f with
  | All => refs
  | _ =>
      filter (fun r => match deref store r with
                       | Some event => inDateRange clk f event
                       | None => false
                       end) refs
  end.

(** [a._searchDistance || 0] *)
Definition distanceOrZero (e : option Event.t) : Q :=
  match e with
  | Some ev =>
      match Event._searchDistance ev with
      | Some d => d
      | None => 0%Q
      end
  | None => 0%Q
  end.

(** [filteredEvents.sort((a, b) => distanceA - distanceB)] *)
Definition sortByDistance (store : list Event.t) (refs : list nat) : list nat :=
  StableSort.sort
    (StableSort.byKey (fun ref => distanceOrZero (deref store ref))) refs.

(** The plain text search over title, description and location. *)
Definition matchesText (searchQuery : jsstring) (event : Event.t) : bool :=
  includes (toLowerCase (Event.title event)) searchQuery
  || includes (toLowerCase (Event.description event)) searchQuery
  || includes (toLowerCase (Event.location event)) searchQuery.

Definition matchesCategory (categoryFilterValue : jsstring) (event : Event.t)
  : bool :=
  match categoryFilterValue with
  | [] => true
  | _ =>
      JsString.eqb (Event.category event) categoryFilterValue
      || existsb (JsString.eqb categoryFilterValue) (Event.categories event)
  end.

Definition matchesDate (dateFilterValue : option Z) (event : Event.t) : bool :=
  match dateFilterValue with
  | None => true
  | Some d => Event.date event =? d
  end.

(** [searchCoords.radius || 50] *)
Definition radiusOr50 (sc : Postcode.SearchCoords) : Q :=
  if Qeq_bool (Postcode.radius sc) 0 then 50%Q else Postcode.radius sc.

(** [searchCoords] of [filterEvents]: [null] unless the query is not empty
    and looks like a postcode, and then what [geocodePostcode] returns. *)
Definition searchOrigin (w : World) (searchQuery : jsstring)
  : option Postcode.SearchCoords :=
  match searchQuery with
  | [] => None
  | _ =>
      if Postcode.isPostcode searchQuery
      then Postcode.geocodePostcode (config w) searchQuery (google w) (nominatim w)
      else None
  end.

Section Pass.
(** [calculateDistance] is the haversine formula of the source; its
    trigonometry is left abstract. *)
Variable calculateDistance : Q -> Q -> Q -> Q -> Q.

(** The callback of [this.events.filter]: the event object as the callback
    leaves it, and the value the callback returns. *)
Definition visit (searchQuery : jsstring) (isPostcodeSearch : bool)
    (searchCoords : option Postcode.SearchCoords)
    (categoryFilterValue : jsstring) (dateFilterValue : option Z)
    (event : Event.t) : Event.t * bool :=
  let '(event', matchesSearch) :=
    match searchQuery with
    | [] => (event, true)
    | _ =>
        let matchesSearch := matchesText searchQuery event in
        match searchCoords with
        | Some sc =>
            if isPostcodeSearch && negb matchesSearch
            then
              let distance :=
                calculateDistance (Postcode.sc_lat sc) (Postcode.sc_lng sc)
                  (Event.lat event) (Event.lng event) in
              let searchRadius := radiusOr50 sc in
              (Event.set_search distance searchRadius (Postcode.isPartial sc) event,
               Qle_bool distance searchRadius)
            else (event, matchesSearch)
        | None => (event, matchesSearch)
        end
    end in
  (event',
   matchesSearch && matchesCategory categoryFilterValue event'
   && matchesDate dateFilterValue event').

(** The references kept by [filter], in the order of the store. *)
Fixpoint keptFrom (i : nat) (visited : list (Event.t * bool)) : list nat :=
  match visited with
  | [] => []
  | (_, keep) :: rest =>
      if keep then i :: keptFrom (S i) rest else keptFrom (S i) rest
  end.

(** [filterEvents], up to the reset of the pagination. The calls of
    [displayEvents] and [addMarkers] that end it draw the result; they read
    the search annotations and do not write them, and are left out. *)
Definition filterEvents (this : EventMap) (dom : Dom) (w : World) : EventMap :=
  let searchQuery := trim (toLowerCase (searchInput dom)) in
  let isPostcodeSearch := Postcode.isPostcode searchQuery in
  let searchCoords := searchOrigin w searchQuery in
  let visited :=
    map (visit searchQuery isPostcodeSearch searchCoords
           (categoryFilter dom) (dateFilter dom))
        (events this) in
  let store := map fst visited in
  let filtered := keptFrom O visited in
  let filtered :=
    filterEventsByDate (clock w) (currentDateFilter this) store filtered in
  let filtered :=
    match searchCoords with
    | Some _ => if isPostcodeSearch then sortByDistance store filtered else filtered
    | None => filtered
    end in
  {| events := store;
     filteredEvents := filtered;
     displayedEvents := [];
     currentPage := 0;
     currentDateFilter := currentDateFilter this |}.
End Pass.


(** The event carries one of the three search annotations. *)
Definition annotated (e : Event.t) : bool :=
  match Event._searchDistance e, Event._searchRadius e, Event._isPartialPostcode e with
  | None, None, None => false
  | _, _, _ => true
  end.

End Filter.

(* ------------------------------------------------------------------------- *)
(** ** Example data *)
(* ------------------------------------------------------------------------- *)

Module Scenario.

(** An all-day item of the feed. *)
Definition allDayItem (summary : string) (day : Z) : Item.t :=
  {| Item.summary := Some (lit summary);
     Item.description := None;
     Item.location := Some (lit "Seaham");
     Item.start := Some {| Item.date := Some day; Item.dateTime := None |};
     Item.end_ := Some {| Item.date := Some (day + 1); Item.dateTime := None |};
     Item.recurringEventId := None |}.

(** 2025-11-05 12:00 UTC, in a zone at UTC+0. *)
Definition noonClock : JsDate.Clock :=
  {| JsDate.now := JsDate.days_from_civil 2025 11 5 * JsDate.msPerDay + 43200000;
     JsDate.tzOffset := 0 |}.

Definition mkPlainEvent (id : Z) (title location : string) (lat lng : Q)
  : Event.t :=
  {| Event.id := id;
     Event.title := lit title;
     Event.description := lit "No description available";
     Event.category := lit "other";
     Event.categories := [];
     Event.date := JsDate.days_from_civil 2025 11 8;
     Event.time := lit "All day";
     Event.startTime := None;
     Event.endTime := None;
     Event.location := lit location;
     Event.originalEvent := None;
     Event.lat := lat;
     Event.lng := lng;
     Event.isElapsed := false;
     Event._searchDistance := None;
     Event._searchRadius := None;
     Event._isPartialPostcode := None |}.

(** Two events: the first has the postcode area TS28 in its address, the
    second lies about five kilometres from the centre of that area. *)
Definition hall : Event.t :=
  mkPlainEvent 1 "Veterans Breakfast Club" "Wingate Community Hall, TS28 5AB"
    54.73 (-1.38).
Definition club : Event.t :=
  mkPlainEvent 2 "Coffee Morning" "Seaham Youth Centre" 54.75 (-1.40).

Definition loaded : Filter.EventMap :=
  {| Filter.events := [hall; club];
     Filter.filteredEvents := [0%nat; 1%nat];
     Filter.displayedEvents := [];
     Filter.currentPage := 0;
     Filter.currentDateFilter := Filter.All |}.

Definition searchFor (query : string) : Filter.Dom :=
  {| Filter.searchInput := lit query;
     Filter.categoryFilter := [];
     Filter.dateFilter := None |}.

(** A world in which Nominatim places the query at [origin]. *)
Definition worldAt (origin : Location.Coord) : Filter.World :=
  {| Filter.config := None;
     Filter.clock := noonClock;
     Filter.google := Location.FetchRejects;
     Filter.nominatim := Postcode.nominatimFound origin |}.

Definition newcastle : Location.Coord := Location.mkCoord 54.97 (-1.61).
Definition wingate : Location.Coord := Location.mkCoord 54.72 (-1.38).

(** Three passes in a row over these events: a search for NE1, then for
    TS28, then with the search box cleared; and the search for TS28 as the
    first pass. *)
Section Passes.
Variable calculateDistance : Q -> Q -> Q -> Q -> Q.

Definition afterNE1 : Filter.EventMap :=
  Filter.filterEvents calculateDistance loaded (searchFor "NE1") (worldAt newcastle).
Definition afterTS28 : Filter.EventMap :=
  Filter.filterEvents calculateDistance afterNE1 (searchFor "TS28") (worldAt wingate).
Definition afterClear : Filter.EventMap :=
  Filter.filterEvents calculateDistance afterTS28 (searchFor "") (worldAt wingate).
Definition firstTS28 : Filter.EventMap :=
  Filter.filterEvents calculateDistance loaded (searchFor "TS28") (worldAt wingate).

(** The distances that the passes compute: from the centre of NE1 to the
    hall and to the club, and from the centre of TS28 to the club. *)
Definition newcastleToHall : Q :=
  calculateDistance 54.97 (-1.61) (Event.lat hall) (Event.lng hall).
Definition newcastleToClub : Q :=
  calculateDistance 54.97 (-1.61) (Event.lat club) (Event.lng club).
Definition wingateToClub : Q :=
  calculateDistance 54.72 (-1.38) (Event.lat club) (Event.lng club).
End Passes.

(** A distance to run the passes with, in place of the haversine formula:
    111 km for each degree of latitude and of longitude. *)
Definition gridDistance (lat1 lng1 lat2 lng2 : Q) : Q :=
  (111 * (Qabs (lat2 - lat1) + Qabs (lng2 - lng1)))%Q.

(** The recorded distances of the events of a store, in lowest terms. *)
Definition distances (store : list Event.t) : list (option Q) :=
  map (fun e => option_map Qred (Event._searchDistance e)) store.

End Scenario.

(* ------------------------------------------------------------------------- *)
(** ** Search input validation (js/utils.js) *)
(* ------------------------------------------------------------------------- *)

Module SearchInput.

(** The class of the four code units that are removed: [<], [>] and the
    double and the single quotation mark. *)
Definition isDangerous (c : Z) : bool :=
  (c =? 60) || (c =? 62) || (c =? 34) || (c =? 39).

(** [validateSearchInput]; [None] is an argument that is not a string, or is
    [null] or [undefined]. *)
Definition validateSearchInput (input : option jsstring) : jsstring :=
  match input with
  | None | Some [] => []
  | Some i =>
      let maxLength := 100%nat in
      let sanitized := firstn maxLength (trim i) in
      filter (fun c => negb (isDangerous c)) sanitized
  end.

(** [this.utils?.validateSearchInput(rawQuery) || rawQuery.trim()], the value
    that [performSearch] writes back into the search box. [validate] is the
    member [validateSearchInput] of [this.utils], [None] when [this.utils] is
    not set. *)
Definition sanitisedQuery (validate : option (option jsstring -> jsstring))
    (rawQuery : jsstring) : jsstring :=
  match validate with
  | Some f =>
      match f (Some rawQuery) with
      | [] => trim rawQuery
      | v => v
      end
  | None => trim rawQuery
  end.

End SearchInput.

(* ------------------------------------------------------------------------- *)
(** ** Regular expressions with runs, matched by backtracking *)
(* ------------------------------------------------------------------------- *)

(** The patterns of [sanitizeHtml] are sequences of single code units and of
    runs of code units of one class, greedy ([x*]) or lazy ([x*?]). A match
    is searched the way the matcher of JavaScript does: a greedy run takes
    as many code units as it can and gives them back one at a time, a lazy
    run takes one more only when the rest of the pattern fails. *)
Module Pattern.

Inductive item : Type :=
  | One (p : Z -> bool)
  | Many (p : Z -> bool)
  | Few (p : Z -> bool).

Definition pattern : Type := list item.

(** The code units left after the match of [pat] that starts at the head of
    the string, [None] when there is no such match. *)
Fixpoint matchAt (pat : pattern) : jsstring -> option jsstring :=
  match pat with
  | [] => fun s => Some s
  | One p :: rest =>
      fun s =>
        match s with
        | c :: r => if p c then matchAt rest r else None
        | [] => None
        end
  | Many p :: rest =>
      fix many (s : jsstring) : option jsstring :=
        match s with
        | c :: r =>
            if p c
            then match many r with
                 | Some out => Some out
                 | None => matchAt rest s
                 end
            else matchAt rest s
        | [] => matchAt rest []
        end
  | Few p :: rest =>
      fix few (s : jsstring) : option jsstring :=
        match matchAt rest s with
        | Some out => Some out
        | None =>
            match s with
            | c :: r => if p c then few r else None
            | [] => None
            end
        end
  end.

(** [s.replace(/pat/g, rep)]: the matches are taken from left to right and
    do not overlap. [skip] counts the code units of the current match that
    are still to be passed over. After an empty match the next code unit is
    copied. *)
Fixpoint replaceFrom (pat : pattern) (rep : jsstring) (skip : nat)
    (s : jsstring) : jsstring :=
  match s with
  | [] =>
      match skip, matchAt pat [] with
      | O, Some _ => rep
      | _, _ => []
      end
  | c :: r =>
      match skip with
      | S k => replaceFrom pat rep k r
      | O =>
          match matchAt pat s with
          | Some rest =>
              match (List.length s - List.length rest)%nat with
              | O => rep ++ c :: replaceFrom pat rep O r
              | S k => rep ++ replaceFrom pat rep k r
              end
          | None => c :: replaceFrom pat rep O r
          end
      end
  end.

Definition replace (pat : pattern) (rep s : jsstring) : jsstring :=
  replaceFrom pat rep O s.

(** The character classes of the patterns. With the flag [i] a Basic Latin
    letter of the pattern matches both of its cases and no other code
    unit. *)
Definition chr (c : Z) : Z -> bool := fun x => x =? c.
Definition chrI (c : Z) : Z -> bool := fun x => lowerChar x =? lowerChar c.
Definition notGT : Z -> bool := fun x => negb (x =? GT).
Definition isLineTerminator (c : Z) : bool :=
  (c =? 10) || (c =? 13) || (c =? 8232) || (c =? 8233).
Definition dot : Z -> bool := fun x => negb (isLineTerminator x).
Definition word : Z -> bool :=
  fun x => ((65 <=? x) && (x <=? 90)) || ((97 <=? x) && (x <=? 122))
           || ((48 <=? x) && (x <=? 57)) || (x =? 95).
Definition quote : Z -> bool := fun x => (x =? 34) || (x =? 39).
Definition notQuote : Z -> bool := fun x => negb (quote x).

(** A literal, with and without the flag [i]. *)
Definition text (s : string) : pattern := map (fun c => One (chr c)) (lit s).
Definition textI (s : string) : pattern := map (fun c => One (chrI c)) (lit s).

(** The result of a replacement is woven from the string and the
    replacement text: code units of the string are kept or dropped, in their
    order, and copies of the replacement are put in between. *)
Inductive Woven (rep : jsstring) : jsstring -> jsstring -> Prop :=
  | Woven_nil : Woven rep [] []
  | Woven_keep (c : Z) (s out : jsstring) :
      Woven rep s out -> Woven rep (c :: s) (c :: out)
  | Woven_drop (c : Z) (s out : jsstring) :
      Woven rep s out -> Woven rep (c :: s) out
  | Woven_put (s out : jsstring) :
      Woven rep s out -> Woven rep s (rep ++ out).

End Pattern.

(* ------------------------------------------------------------------------- *)
(** ** The HTML sanitiser of js/utils.js *)
(* ------------------------------------------------------------------------- *)

Module HtmlSanitizer.
Import Pattern.

(** [/<name[^>]*>.*?<\/name>/gi] *)
Definition element (name : string) : pattern :=
  textI "<" ++ textI name ++ [Many notGT; One (chr GT); Few dot]
  ++ textI "</" ++ textI name ++ textI ">".

(** [/<embed[^>]*>/gi] *)
Definition embedTag : pattern := textI "<embed" ++ [Many notGT; One (chr GT)].

(** The pattern of an inline event handler, with the flag [i]: [on], one or
    more word characters, white space, [=], white space, a quotation mark
    (double or single), a run of code units that are no quotation marks, and
    a quotation mark. *)
Definition eventHandler : pattern :=
  textI "on"
  ++ [One word; Many word; Many isWhiteSpace; One (chr 61); Many isWhiteSpace;
      One quote; Many notQuote; One quote].

(** [/<p[^>]*>/g] and [/<br[^>]*>/g] *)
Definition openTag (name : string) : pattern :=
  text "<" ++ text name ++ [Many notGT; One (chr GT)].

(** [/\n+/g] *)
Definition lineFeeds : pattern := [One (chr 10); Many (chr 10)].

Definition LF : jsstring := [10].

(** [sanitizeHtml]; [None] is a [null] or [undefined] argument. The calls of
    [replace] are in the order of the source. *)
Definition sanitizeHtml (html : option jsstring) : jsstring :=
  match html with
  | None | Some [] => []
  | Some h =>
      let s := replace (element "script") [] h in
      let s := replace (element "iframe") [] s in
      let s := replace (element "object") [] s in
      let s := replace embedTag [] s in
      let s := replace eventHandler [] s in
      let s := replace (openTag "p") [] s in
      let s := replaceAll (lit "</p>") LF s in
      let s := replace (openTag "br") LF s in
      let s := stripTags s in
      let s := replaceAll (lit "&lt;") (lit "<") s in
      let s := replaceAll (lit "&gt;") (lit ">") s in
      let s := replaceAll (lit "&amp;") (lit "&") s in
      let s := replaceAll (lit "&quot;") Sanitizer.QUOT s in
      let s := replaceAll (lit "&#39;") Sanitizer.APOS s in
      let s := replaceAll [60] (lit "<") s in
      let s := replaceAll [62] (lit ">") s in
      let s := replaceAll [128; 139] [] s in
      let s := replace lineFeeds (lit " ") s in
      trim s
  end.

(** None of the code units that the patterns of [sanitizeHtml] need: [<],
    [&], [=], the line feed and U+0080. *)
Definition isPlain (c : Z) : bool :=
  negb ((c =? LT) || (c =? AMP) || (c =? 61) || (c =? 10) || (c =? 128)).

End HtmlSanitizer.

(* ------------------------------------------------------------------------- *)
(** ** Category colours and names *)
(* ------------------------------------------------------------------------- *)

Module CategoryDisplay.

(** The tags in the order in which [categorizeEvent] tests for them. *)
Definition tagOrder : list jsstring :=
  map lit ["drop-in"; "support"; "breakfast-club"; "meeting"; "workshop";
           "social"; "sport"].

(** [a] is [b] with some of its elements left out. *)
Fixpoint isSubsequence (a b : list jsstring) : bool :=
  match a, b with
  | [], _ => true
  | _ :: _, [] => false
  | x :: a', y :: b' =>
      if JsString.eqb x y then isSubsequence a' b' else isSubsequence a b'
  end.

(** Every code unit is below 128: on such a string the case mapping of this
    development is that of JavaScript. *)
Definition isBasicLatin (s : jsstring) : bool :=
  forallb (fun c => (0 <=? c) && (c <? 128)) s.

(** The value of [obj[key]] for an object literal [obj]: a property of the
    literal, or a member that every object inherits from [Object.prototype]
    (a function, or for [__proto__] the prototype itself), or [undefined]. *)
Inductive Member : Type :=
  | Own (value : jsstring)
  | Inherited
  | Undefined.

Definition objectPrototypeNames : list jsstring :=
  map lit ["constructor"; "hasOwnProperty"; "isPrototypeOf";
           "propertyIsEnumerable"; "toLocaleString"; "toString"; "valueOf";
           "__proto__"; "__defineGetter__"; "__defineSetter__";
           "__lookupGetter__"; "__lookupSetter__"].

Definition getMember (obj : list (jsstring * jsstring)) (key : jsstring)
  : Member :=
  match find (fun kv => JsString.eqb (fst kv) key) obj with
  | Some kv => Own (snd kv)
  | None =>
      if existsb (JsString.eqb key) objectPrototypeNames then Inherited
      else Undefined
  end.

Definition colorMap : list (jsstring * jsstring) :=
  [(lit "breakfast-club", lit "bg-orange-500");
   (lit "drop-in", lit "bg-blue-500");
   (lit "meeting", lit "bg-gray-700");
   (lit "workshop", lit "bg-yellow-500");
   (lit "social", lit "bg-purple-500");
   (lit "support", lit "bg-green-500");
   (lit "sport", lit "bg-red-500");
   (lit "other", lit "bg-gray-400")].

Definition nameMap : list (jsstring * jsstring) :=
  [(lit "breakfast-club", lit "Breakfast Club");
   (lit "drop-in", lit "Drop-In Centre");
   (lit "meeting", lit "Association Meeting");
   (lit "workshop", lit "Workshop");
   (lit "social", lit "Social Event");
   (lit "support", lit "Support Group");
   (lit "sport", lit "Sport & Recreation");
   (lit "other", lit "Other")].

(** What the two lookups return: a string, or an inherited member, which is
    truthy and so is returned as it is. *)
Inductive Shown : Type :=
  | Text (s : jsstring)
  | NotText.

(** [colorMap[category] || "bg-gray-400"] *)
Definition getCategoryColorClass (category : jsstring) : Shown :=
  match getMember colorMap category with
  | Own [] | Undefined => Text (lit "bg-gray-400")
  | Own v => Text v
  | Inherited => NotText
  end.

(** [nameMap[category] || category] *)
Definition formatCategoryName (category : jsstring) : Shown :=
  match getMember nameMap category with
  | Own [] | Undefined => Text category
  | Own v => Text v
  | Inherited => NotText
  end.

End CategoryDisplay.

(* ------------------------------------------------------------------------- *)
(** ** Loading the calendar *)
(* ------------------------------------------------------------------------- *)

Module Loader.
Import Location.

(** [window.CALENDAR_CONFIG] as the loader reads it: the two members of the
    calendar, and the members that [getCoordinatesForLocation] reads. A
    missing or empty string is [None]. *)
Record CalendarConfig : Type := mkCalendarConfig {
  API_KEY : option jsstring;
  CALENDAR_ID : option jsstring;
  geocoder : Location.Config
}.

Definition placeholderKey : jsstring := lit "your-google-calendar-api-key-here".

(** What [loadGoogleCalendarEvents] throws: its three errors of its own, and
    what the calls inside its [try] block throw, which it throws again. *)
Inductive LoadError : Type :=
  | ConfigurationNotFound
  | ApiKeyNotConfigured
  | CalendarApiError (status : Z)
  | Rethrown (e : JsError).

Inductive Outcome (A : Type) : Type :=
  | Loaded (a : A)
  | Failed (e : LoadError).
Arguments Loaded {A} a.
Arguments Failed {A} e.

(** The body of the answer of the calendar service; [None] is [null]. *)
Record CalendarData : Type := mkCalendarData {
  items : option (list Item.t)
}.

Section Load.
(** [decodeHTMLEntities] sets the text as the [innerHTML] of a [textarea]
    and reads its [value]: the work of the HTML parser of the browser, left
    abstract. *)
Variable decodeHTMLEntities : jsstring -> jsstring.
Variable config : option CalendarConfig.
Variable clk : JsDate.Clock.

(** [transformGoogleCalendarEvent]. The primary category is never empty, so
    [categorization.primary || categorization] is the primary category, and
    [categorization.tags], an array, is truthy. *)
Definition transformGoogleCalendarEvent (calendarEvent : Item.t) (index : Z)
    (net : FetchOutcome GeocodeData) : Result Event.t :=
  (let categorization :=
     Categorizer.categorizeEvent (Item.summary calendarEvent)
       (Item.description calendarEvent) in
   let decodedDescription :=
     decodeHTMLEntities
       (Normalizer.orElse (Item.description calendarEvent)
          "No description available") in
   let location := Normalizer.orElse (Item.location calendarEvent) "Location TBD" in
   let* coordinates :=
     getCoordinatesForLocation (option_map geocoder config) location None net in
   Ok {| Event.id := index;
         Event.title := Normalizer.orElse (Item.summary calendarEvent) "Unnamed Event";
         Event.description := decodedDescription;
         Event.category := Categorizer.primary categorization;
         Event.categories := Categorizer.tags categorization;
         Event.date := Normalizer.extractDate clk calendarEvent;
         Event.time := Normalizer.extractTime clk calendarEvent;
         Event.startTime := Normalizer.extractStartTime clk calendarEvent;
         Event.endTime := Normalizer.extractEndTime clk calendarEvent;
         Event.location := location;
         Event.originalEvent := Some calendarEvent;
         Event.lat := lat coordinates;
         Event.lng := lng coordinates;
         Event.isElapsed := false;
         Event._searchDistance := None;
         Event._searchRadius := None;
         Event._isPartialPostcode := None |})%js.

(** The loop over [data.items]; [nets i] answers the geocoding request of
    the item at index [i]. *)
Fixpoint transformLoop (i : nat) (calendarEvents : list Item.t)
    (nets : nat -> FetchOutcome GeocodeData) (transformedEvents : list Event.t)
  : Result (list Event.t) :=
  match calendarEvents with
  | [] => Ok transformedEvents
  | calendarEvent :: rest =>
      if Normalizer.isExcludedRecurringEvent (Item.recurringEventId calendarEvent)
      then transformLoop (S i) rest nets transformedEvents
      else
        (let* transformedEvent :=
           transformGoogleCalendarEvent calendarEvent (Z.of_nat i + 1) (nets i) in
         transformLoop (S i) rest nets (transformedEvents ++ [transformedEvent]))%js
  end.

(** The [try] block of [loadGoogleCalendarEvents]: the new value of
    [this.events]. *)
Definition fetchAndTransform (calendarId : jsstring)
    (calendar : FetchOutcome (option CalendarData))
    (nets : nat -> FetchOutcome GeocodeData) : Outcome (list Event.t) :=
  match encodeURIComponent calendarId with
  | Throw e => Failed (Rethrown e)
  | Ok _ =>
      match awaitFetch calendar with
      | Throw e => Failed (Rethrown e)
      | Ok response =>
          if negb (ok response)
          then Failed (CalendarApiError (http_status response))
          else
            match awaitJson response with
            | Throw e => Failed (Rethrown e)
            | Ok None => Failed (Rethrown TypeError)
            | Ok (Some data) =>
                match items data with
                | None | Some [] => Loaded []
                | Some calendarEvents =>
                    match transformLoop O calendarEvents nets [] with
                    | Ok transformedEvents => Loaded transformedEvents
                    | Throw e => Failed (Rethrown e)
                    end
                end
            end
      end
  end.

(** [loadGoogleCalendarEvents]: the value it assigns to [this.events], or
    the error it throws, and then [this.events] is left as it was. *)
Definition loadGoogleCalendarEvents
    (calendar : FetchOutcome (option CalendarData))
    (nets : nat -> FetchOutcome GeocodeData) : Outcome (list Event.t) :=
  match config with
  | None => Failed ConfigurationNotFound
  | Some c =>
      match API_KEY c, CALENDAR_ID c with
      | Some (k :: key), Some (i :: id) =>
          if JsString.eqb (k :: key) placeholderKey
          then Failed ApiKeyNotConfigured
          else fetchAndTransform (i :: id) calendar nets
      | _, _ => Failed ConfigurationNotFound
      end
  end.

(** [init], up to [this.filteredEvents = [...this.events]]: the state that
    the constructor has set up, with the loaded events when the loading
    succeeds. An error of the loading is caught and logged. The drawing that
    follows is left out. *)
Definition init (calendar : FetchOutcome (option CalendarData))
    (nets : nat -> FetchOutcome GeocodeData) : Filter.EventMap :=
  let events :=
    match loadGoogleCalendarEvents calendar nets with
    | Loaded transformedEvents => transformedEvents
    | Failed _ => []
    end in
  {| Filter.events := events;
     Filter.filteredEvents := seq 0 (List.length events);
     Filter.displayedEvents := [];
     Filter.currentPage := 0;
     Filter.currentDateFilter := Filter.All |}.

End Load.

(** A configuration with which the loading is attempted. *)
Definition usable (config : option CalendarConfig) : bool :=
  match config with
  | Some c =>
      match API_KEY c, CALENDAR_ID c with
      | Some (k :: key), Some (i :: id) =>
          negb (JsString.eqb (k :: key) placeholderKey) && isWellFormed (i :: id)
      | _, _ => false
      end
  | None => false
  end.

(** An answer of the calendar service that can be read. *)
Definition readable (calendar : FetchOutcome (option CalendarData))
  : option CalendarData :=
  match calendar with
  | FetchResolves r =>
      if ok r
      then match json r with
           | JsonValue (Some data) => Some data
           | _ => None
           end
      else None
  | FetchRejects => None
  end.

Definition itemsOf (data : CalendarData) : list Item.t :=
  match items data with
  | Some l => l
  | None => []
  end.

(** The items that the loop transforms, each with its index in the feed. *)
Fixpoint indexed (i : nat) (l : list Item.t) : list (nat * Item.t) :=
  match l with
  | [] => []
  | x :: r =>
      if Normalizer.isExcludedRecurringEvent (Item.recurringEventId x)
      then indexed (S i) r
      else (i, x) :: indexed (S i) r
  end.

(** What the loop makes of the item [x] at the index [i] of the feed: the
    members of the event that do not depend on the geocoder. *)
Definition madeFrom (clk : JsDate.Clock) (e : Event.t) (ix : nat * Item.t) : Prop :=
  let (i, x) := ix in
  Event.id e = Z.of_nat i + 1
  /\ Event.originalEvent e = Some x
  /\ Event.title e = Normalizer.orElse (Item.summary x) "Unnamed Event"
  /\ Event.location e = Normalizer.orElse (Item.location x) "Location TBD"
  /\ Event.date e = Normalizer.extractDate clk x
  /\ Filter.annotated e = false.

End Loader.

(* ------------------------------------------------------------------------- *)
(** ** The event list *)
(* ------------------------------------------------------------------------- *)

Module Display.
Import Filter.

(** [Math.max] of two numbers. *)
Definition Qmax (a b : Q) : Q := if Qle_bool a b then b else a.

(** [e._searchRadius || 50] *)
Definition radiusOrDefault (e : option Event.t) : Q :=
  match e with
  | Some ev =>
      match Event._searchRadius ev with
      | Some r => if Qeq_bool r 0 then 50%Q else r
      | None => 50%Q
      end
  | None => 50%Q
  end.

(** [Math.max(...list)] of a list that is not empty. *)
Definition maxOf (first : Q) (rest : list Q) : Q := fold_left Qmax rest first.

(** The header that [displayEvents] puts above a list that is not empty:
    the kind of search and the radius it names, [None] when there is no
    header. *)
Record Header : Type := mkHeader {
  searchType : jsstring;
  maxRadius : Q
}.

Definition hasDistance (store : list Event.t) (ref : nat) : bool :=
  match deref store ref with
  | Some e => match Event._searchDistance e with Some _ => true | None => false end
  | None => false
  end.

Definition isPartialPostcode (store : list Event.t) (ref : nat) : bool :=
  match deref store ref with
  | Some e => match Event._isPartialPostcode e with Some b => b | None => false end
  | None => false
  end.

Definition searchInfoHeader (this : EventMap) : option Header :=
  let store := events this in
  match filteredEvents this with
  | [] => None
  | first :: rest =>
      let hasDistanceInfo := existsb (hasDistance store) (first :: rest) in
      let isPartialPostcodeSearch :=
        existsb (isPartialPostcode store) (first :: rest) in
      if hasDistanceInfo
      then
        Some {| searchType :=
                  if isPartialPostcodeSearch then lit "partial postcode area"
                  else lit "postcode";
                maxRadius :=
                  maxOf (radiusOrDefault (deref store first))
                    (map (fun r => radiusOrDefault (deref store r)) rest) |}
      else None
  end.

(** The grouping of [generateGroupedEventsList] and of
    [generateMobileEventsList]: a [Map] from date to the array of the events
    of that date, filled in the order of the list. The keys of a [Map] keep
    the order of their first insertion. *)
Fixpoint pushToGroup (dateKey : Z) (ref : nat) (eventsByDate : list (Z * list nat))
  : list (Z * list nat) :=
  match eventsByDate with
  | [] => [(dateKey, [ref])]
  | (k, refs) :: rest =>
      if k =? dateKey then (k, refs ++ [ref]) :: rest
      else (k, refs) :: pushToGroup dateKey ref rest
  end.

Definition groupByDate (store : list Event.t) (refs : list nat)
  : list (Z * list nat) :=
  fold_left
    (fun eventsByDate ref =>
       match deref store ref with
       | Some event => pushToGroup (Event.date event) ref eventsByDate
       | None => eventsByDate
       end)
    refs [].

(** [eventsByDate.get(date)] *)
Definition getGroup (eventsByDate : list (Z * list nat)) (date : Z) : list nat :=
  match find (fun g => fst g =? date) eventsByDate with
  | Some g => snd g
  | None => []
  end.

Section Grouped.
(** [timeA.localeCompare(timeB)], the collation of the browser, left
    abstract. *)
Variable localeCompare : jsstring -> jsstring -> Z.

(** [a.startTime || a.time || "00:00"] *)
Definition timeKey (e : option Event.t) : jsstring :=
  match e with
  | Some ev =>
      match Event.startTime ev with
      | Some (c :: s) => c :: s
      | _ =>
          match Event.time ev with
          | c :: s => c :: s
          | [] => lit "00:00"
          end
      end
  | None => lit "00:00"
  end.

(** The date groups in the order in which they are shown: the dates in
    ascending order, the events of a date in the order of their times. *)
Definition groupedEvents (this : EventMap) : list (Z * list nat) :=
  let store := events this in
  let eventsByDate := groupByDate store (filteredEvents this) in
  let sortedDates := StableSort.sort Z.ltb (map fst eventsByDate) in
  map (fun date =>
         (date,
          StableSort.sort
            (fun a b =>
               localeCompare (timeKey (deref store a)) (timeKey (deref store b)) <? 0)
            (getGroup eventsByDate date)))
      sortedDates.

End Grouped.

End Display.

(* ------------------------------------------------------------------------- *)
(** ** Debouncing (js/utils.js) *)
(* ------------------------------------------------------------------------- *)

(** [debounce(func, wait)] and the timers of the browser. A timer is an
    identifier, the instant at which it is due, and the arguments that its
    callback passes to [func]. Time is in milliseconds. *)
Module Debounce.

Section Debounced.
Context {A : Type}.

Record Timer : Type := mkTimer {
  timerId : nat;
  due : Z;
  args : A
}.

(** The variable [timeout] of the closure, the pending timers of the
    browser, the identifier that the next [setTimeout] returns, and the
    calls of [func] made so far, each with its instant, the latest first. *)
Record State : Type := mkState {
  timeout : option nat;
  timers : list Timer;
  nextId : nat;
  calls : list (Z * A)
}.

Definition initial : State :=
  {| timeout := None; timers := []; nextId := 1%nat; calls := [] |}.

(** [clearTimeout(id)]: an identifier that is [undefined] or that names no
    pending timer is ignored. *)
Definition clearTimeout (id : option nat) (st : State) : State :=
  match id with
  | Some i =>
      {| timeout := timeout st;
         timers := filter (fun t => negb (Nat.eqb (timerId t) i)) (timers st);
         nextId := nextId st;
         calls := calls st |}
  | None => st
  end.

(** [timeout = setTimeout(later, wait)] at the instant [now], where [later]
    will call [func] with [a]. *)
Definition setTimeout (now wait : Z) (a : A) (st : State) : State :=
  {| timeout := Some (nextId st);
     timers := timers st ++ [mkTimer (nextId st) (now + wait) a];
     nextId := S (nextId st);
     calls := calls st |}.

(** A call of the debounced function at the instant [now]. *)
Definition executedFunction (wait now : Z) (a : A) (st : State) : State :=
  setTimeout now wait a (clearTimeout (timeout st) st).

(** The callback [later] of the timer [t], run at the instant [now]: the
    timer has left the table of the browser; [clearTimeout(timeout)], then
    [func(...args)]. *)
Definition later (now : Z) (t : Timer) (st : State) : State :=
  let st := clearTimeout (timeout st) st in
  {| timeout := timeout st;
     timers := timers st;
     nextId := nextId st;
     calls := (now, args t) :: calls st |}.

(** The browser runs the timers that are due at the instant [now], the
    earliest first; [fuel] bounds their number. *)
Definition earlier (a b : Timer) : bool :=
  (due a <? due b) || ((due a =? due b) && Nat.ltb (timerId a) (timerId b)).

Fixpoint earliest (t : Timer) (l : list Timer) : Timer :=
  match l with
  | [] => t
  | u :: r => if earlier u t then earliest u r else earliest t r
  end.

Fixpoint runTimers (fuel : nat) (now : Z) (st : State) : State :=
  match fuel with
  | O => st
  | S fuel' =>
      match timers st with
      | [] => st
      | t :: r =>
          let t := earliest t r in
          if due t <=? now
          then
            let removed :=
              {| timeout := timeout st;
                 timers :=
                   filter (fun u => negb (Nat.eqb (timerId u) (timerId t)))
                     (timers st);
                 nextId := nextId st;
                 calls := calls st |} in
            runTimers fuel' now (later (due t) t removed)
          else st
      end
  end.

(** The calls of the debounced function, each at its instant, in the order
    of time: before each call the timers that are due run. *)
Fixpoint run (wait : Z) (events : list (Z * A)) (st : State) : State :=
  match events with
  | [] => st
  | (now, a) :: rest =>
      let st := runTimers (List.length (timers st)) now st in
      run wait rest (executedFunction wait now a st)
  end.

(** The state long after the last call: every pending timer has run. *)
Definition settle (st : State) : State :=
  match timers st with
  | [] => st
  | t :: r =>
      runTimers (List.length (timers st))
        (fold_left (fun m u => Z.max m (due u)) r (due t)) st
  end.

(** The calls of [func] that a sequence of calls of the debounced function
    leads to, the earliest first. *)
Definition debounce (wait : Z) (events : list (Z * A)) : list (Z * A) :=
  rev (calls (settle (run wait events initial))).

(** The calls that no other call follows before [wait] milliseconds have
    passed, each moved [wait] milliseconds later: the reference that
    [debounce] is compared with. *)
Fixpoint quiet (wait : Z) (events : list (Z * A)) : list (Z * A) :=
  match events with
  | [] => []
  | (now, a) :: rest =>
      match rest with
      | [] => [(now + wait, a)]
      | (next, _) :: _ =>
          if now + wait <=? next then (now + wait, a) :: quiet wait rest
          else quiet wait rest
      end
  end.

(** A burst: each call comes less than [wait] after the one before it. *)
Fixpoint burst (wait : Z) (events : list (Z * A)) : bool :=
  match events with
  | [] => true
  | (now, _) :: rest =>
      match rest with
      | [] => true
      | (next, _) :: _ => (next <? now + wait) && burst wait rest
      end
  end.

End Debounced.

End Debounce.

(* ========================================================================= *)
(** * Theorems *)
(* ========================================================================= *)

Import Sanitizer.

(** ** Facts about strings *)
Lemma startsWith_app (p s : jsstring) : startsWith p (p ++ s) = true.
Proof.
  induction p as [|c p IH]; simpl; [reflexivity|]. now rewrite Z.eqb_refl.
Qed.

Lemma startsWith_split (p s : jsstring) :
  startsWith p s = true -> exists r, s = p ++ r.
Proof.
  revert s; induction p as [|c p IH]; intros s H.
  - now exists s.
  - destruct s as [|d s]; [discriminate|]. simpl in H.
    apply andb_true_iff in H as [Hc Hp]. apply Z.eqb_eq in Hc; subst d.
    destruct (IH _ Hp) as [r ->]. now exists r.
Qed.

Lemma includes_of_startsWith (s q : jsstring) :
  startsWith q s = true -> includes s q = true.
Proof. intros H. destruct s; simpl; rewrite H; reflexivity. Qed.

Lemma includes_split (s q : jsstring) :
  includes s q = true <-> exists a b, s = a ++ q ++ b.
Proof.
  split.
  - induction s as [|c s IH]; simpl; intros H.
    + rewrite orb_false_r in H. destruct (startsWith_split _ _ H) as [r Hr].
      exists [], r. exact Hr.
    + apply orb_true_iff in H as [H|H].
      * destruct (startsWith_split _ _ H) as [r Hr]. exists [], r. exact Hr.
      * destruct (IH H) as (a & b & ->). now exists (c :: a), b.
  - intros (a & b & ->). induction a as [|c a IH].
    + apply includes_of_startsWith. cbn [app]. apply startsWith_app.
    + simpl. simpl in IH. rewrite IH. apply orb_true_r.
Qed.

Lemma includes_cons_false (c : Z) (s q : jsstring) :
  includes (c :: s) q = false -> includes s q = false.
Proof. simpl. intros H. now apply orb_false_iff in H. Qed.

Lemma includes_startsWith_false (s q : jsstring) :
  includes s q = false -> startsWith q s = false.
Proof. destruct s; simpl; intros H; now apply orb_false_iff in H. Qed.

(** *** [replaceAll] *)

Lemma replaceAllFrom_skip (p r : jsstring) (k : nat) (s : jsstring) :
  replaceAllFrom p r k s = replaceAll p r (skipn k s).
Proof.
  revert k; induction s as [|c s IH]; intros [|k]; try reflexivity.
  simpl. apply IH.
Qed.

Lemma replaceAll_nil (p r : jsstring) : replaceAll p r [] = [].
Proof. reflexivity. Qed.

Lemma replaceAll_hit (p r s : jsstring) :
  p <> [] -> startsWith p s = true ->
  replaceAll p r s = r ++ replaceAll p r (skipn (List.length p) s).
Proof.
  intros Hp H. destruct s as [|c s].
  - destruct p; [congruence|discriminate].
  - unfold replaceAll at 1. cbn [replaceAllFrom].
    rewrite H, replaceAllFrom_skip.
    destruct p as [|x p]; [congruence|]. reflexivity.
Qed.

Lemma replaceAll_miss (p r : jsstring) (c : Z) (s : jsstring) :
  startsWith p (c :: s) = false ->
  replaceAll p r (c :: s) = c :: replaceAll p r s.
Proof.
  intros H. unfold replaceAll at 1. cbn [replaceAllFrom]. now rewrite H.
Qed.

Lemma startsWith_length (p s : jsstring) :
  startsWith p s = true -> (List.length p <= List.length s)%nat.
Proof.
  intros H. destruct (startsWith_split _ _ H) as [r ->].
  rewrite length_app. lia.
Qed.

Lemma startsWith_replaceAll (p : jsstring) (r : Z) (q s : jsstring) :
  ~ In r q ->
  startsWith q (replaceAll p [r] s) = true -> startsWith q s = true.
Proof.
  revert s; induction q as [|x q IH]; intros s Hr H; [reflexivity|].
  destruct s as [|c s]; [exact H|].
  destruct (startsWith p (c :: s)) eqn:E.
  - destruct p as [|y p]; [|].
    + (* an empty pattern never occurs in the source; the scan emits [r] *)
      unfold replaceAll in H. simpl in H.
      apply andb_true_iff in H as [Hx _]. apply Z.eqb_eq in Hx.
      exfalso. apply Hr. left. congruence.
    + rewrite replaceAll_hit in H by (congruence || assumption).
      simpl in H. apply andb_true_iff in H as [Hx _]. apply Z.eqb_eq in Hx.
      exfalso. apply Hr. left. congruence.
  - rewrite replaceAll_miss in H by assumption. simpl in H |- *.
    apply andb_true_iff in H as [Hx Hq]. rewrite Hx. simpl.
    apply IH; [|exact Hq]. intros Hin. apply Hr. now right.
Qed.

Lemma includes_skipn_false (q s : jsstring) (k : nat) :
  includes s q = false -> includes (skipn k s) q = false.
Proof.
  revert s; induction k as [|k IH]; intros s H; [exact H|].
  destruct s as [|c s]; [exact H|]. simpl skipn. apply IH.
  now apply includes_cons_false in H.
Qed.

Lemma includes_nil_l (q : jsstring) : q <> [] -> includes [] q = false.
Proof. destruct q; [congruence|reflexivity]. Qed.

(** A replacement by a code unit foreign to [q] creates no occurrence of
    [q]. *)
Lemma includes_replaceAll_false (p : jsstring) (r : Z) (q s : jsstring) :
  p <> [] -> q <> [] -> ~ In r q ->
  includes s q = false -> includes (replaceAll p [r] s) q = false.
Proof.
  intros Hp Hq Hr.
  remember (List.length s) as n eqn:Hn.
  revert s Hn; induction n as [n IH] using lt_wf_ind; intros s Hn H.
  destruct s as [|c s]; [now apply includes_nil_l|].
  destruct (startsWith p (c :: s)) eqn:E.
  - rewrite replaceAll_hit by assumption. cbn [app]. cbn [includes].
    apply orb_false_iff; split.
    + destruct q as [|x q]; [congruence|]. simpl.
      destruct (Z.eqb_spec x r); [|reflexivity].
      exfalso. apply Hr. now left.
    + apply (IH (List.length (skipn (List.length p) (c :: s)))); [|reflexivity|].
      * subst n. rewrite length_skipn. destruct p; [congruence|]. simpl. lia.
      * now apply includes_skipn_false.
  - rewrite replaceAll_miss by assumption. cbn [includes].
    apply orb_false_iff; split.
    + destruct (startsWith q (c :: replaceAll p [r] s)) eqn:F; [|reflexivity].
      rewrite <- (replaceAll_miss p [r] c s E) in F.
      apply startsWith_replaceAll in F; [|assumption].
      apply includes_startsWith_false in H. congruence.
    + apply (IH (List.length s)); [subst n; simpl; lia|reflexivity|].
      now apply includes_cons_false in H.
Qed.

(** After the replacement, no occurrence of the pattern is left. *)
Lemma includes_replaceAll_self (p : jsstring) (r : Z) (s : jsstring) :
  p <> [] -> ~ In r p -> includes (replaceAll p [r] s) p = false.
Proof.
  intros Hp Hr.
  remember (List.length s) as n eqn:Hn.
  revert s Hn; induction n as [n IH] using lt_wf_ind; intros s Hn.
  destruct s as [|c s]; [now apply includes_nil_l|].
  destruct (startsWith p (c :: s)) eqn:E.
  - rewrite replaceAll_hit by assumption. cbn [app]. cbn [includes].
    apply orb_false_iff; split.
    + destruct p as [|x p]; [congruence|]. simpl.
      destruct (Z.eqb_spec x r); [|reflexivity].
      exfalso. apply Hr. now left.
    + apply (IH (List.length (skipn (List.length p) (c :: s)))); [|reflexivity].
      subst n. rewrite length_skipn. destruct p; [congruence|]. simpl. lia.
  - rewrite replaceAll_miss by assumption. cbn [includes].
    apply orb_false_iff; split.
    + destruct (startsWith p (c :: replaceAll p [r] s)) eqn:F; [|reflexivity].
      rewrite <- (replaceAll_miss p [r] c s E) in F.
      apply startsWith_replaceAll in F; [|assumption]. congruence.
    + apply (IH (List.length s)); [subst n; simpl; lia|reflexivity].
Qed.

Lemma replaceAll_id (p r s : jsstring) :
  includes s p = false -> replaceAll p r s = s.
Proof.
  induction s as [|c s IH]; intros H; [reflexivity|].
  rewrite replaceAll_miss by now apply includes_startsWith_false.
  f_equal. apply IH. now apply includes_cons_false in H.
Qed.

Lemma replaceAll_length_le (p r s : jsstring) :
  p <> [] -> (List.length r <= List.length p)%nat ->
  (List.length (replaceAll p r s) <= List.length s)%nat.
Proof.
  intros Hp Hr.
  remember (List.length s) as n eqn:Hn.
  revert s Hn; induction n as [n IH] using lt_wf_ind; intros s Hn.
  destruct s as [|c s]; [simpl; lia|].
  destruct (startsWith p (c :: s)) eqn:E.
  - rewrite replaceAll_hit by assumption. rewrite length_app.
    pose proof (startsWith_length _ _ E) as Hl.
    assert (Hk : (List.length (skipn (List.length p) (c :: s)) < n)%nat).
    { subst n. rewrite length_skipn. destruct p; [congruence|]. simpl. lia. }
    specialize (IH _ Hk _ eq_refl). rewrite length_skipn in IH. lia.
  - rewrite replaceAll_miss by assumption. simpl.
    assert (Hk : (List.length s < n)%nat) by (subst n; simpl; lia).
    specialize (IH _ Hk _ eq_refl). subst n. simpl. lia.
Qed.

Lemma replaceAll_length_lt (p r s : jsstring) :
  p <> [] -> (List.length r < List.length p)%nat ->
  includes s p = true ->
  (List.length (replaceAll p r s) < List.length s)%nat.
Proof.
  intros Hp Hr. induction s as [|c s IH]; intros H.
  - rewrite includes_nil_l in H by assumption. discriminate.
  - destruct (startsWith p (c :: s)) eqn:E.
    + rewrite replaceAll_hit by assumption. rewrite length_app.
      pose proof (startsWith_length _ _ E) as Hl.
      pose proof (replaceAll_length_le p r (skipn (List.length p) (c :: s)) Hp) as Hle.
      rewrite length_skipn in Hle. lia.
    + rewrite replaceAll_miss by assumption. simpl.
      cbn [includes] in H. rewrite E in H. simpl in H. specialize (IH H). lia.
Qed.

Lemma In_replaceAllFrom (p r : jsstring) (k : nat) (s : jsstring) (z : Z) :
  In z (replaceAllFrom p r k s) -> In z r \/ In z s.
Proof.
  revert k; induction s as [|c s IH]; intros k H; [now right|].
  destruct k as [|k]; simpl in H.
  - match type of H with In _ (if ?b then _ else _) => destruct b end.
    + apply in_app_or in H as [H|H]; [now left|].
      destruct (IH _ H); [now left|right; now right].
    + destruct H as [H|H]; [right; now left|].
      destruct (IH _ H); [now left|right; now right].
  - destruct (IH _ H); [now left|right; now right].
Qed.

(** *** [trim] *)

Lemma trimStart_suffix (s : jsstring) : exists a, s = a ++ trimStart s.
Proof.
  induction s as [|c s [a IH]]; [now exists []|]. simpl.
  destruct (isWhiteSpace c); [|now exists []].
  exists (c :: a). simpl. now f_equal.
Qed.

Lemma trimEnd_prefix (s : jsstring) : exists b, s = trimEnd s ++ b.
Proof.
  induction s as [|c s [b IH]]; [now exists []|]. simpl.
  destruct (trimEnd s) as [|d t] eqn:E.
  - destruct (isWhiteSpace c); [now exists (c :: s)|].
    exists s. reflexivity.
  - exists b. simpl. f_equal. exact IH.
Qed.

Lemma trim_infix (s : jsstring) : exists a b, s = a ++ trim s ++ b.
Proof.
  destruct (trimStart_suffix s) as [a Ha].
  destruct (trimEnd_prefix (trimStart s)) as [b Hb].
  exists a, b. unfold trim. now rewrite <- Hb.
Qed.

Lemma trim_length (s : jsstring) : (List.length (trim s) <= List.length s)%nat.
Proof.
  destruct (trim_infix s) as (a & b & H).
  rewrite H at 2. rewrite !length_app. lia.
Qed.

Lemma In_trim (s : jsstring) (z : Z) : In z (trim s) -> In z s.
Proof.
  destruct (trim_infix s) as (a & b & H). intros Hz. rewrite H.
  apply in_or_app. right. apply in_or_app. now left.
Qed.

Lemma includes_trim_false (s q : jsstring) :
  includes s q = false -> includes (trim s) q = false.
Proof.
  intros H. destruct (includes (trim s) q) eqn:E; [|reflexivity].
  apply includes_split in E as (a & b & E).
  destruct (trim_infix s) as (a' & b' & Hs).
  assert (includes s q = true); [|congruence].
  apply includes_split. exists (a' ++ a), (b ++ b').
  rewrite Hs, E. now rewrite <- !app_assoc.
Qed.

Lemma trimStart_headOk (s : jsstring) : headOk (trimStart s).
Proof.
  induction s as [|c s IH]; simpl; [exact I|].
  destruct (isWhiteSpace c) eqn:E; [exact IH|exact E].
Qed.

Lemma trimStart_id (s : jsstring) : headOk s -> trimStart s = s.
Proof. destruct s as [|c s]; simpl; [reflexivity|]. now intros ->. Qed.

Lemma trimEnd_headOk (s : jsstring) : headOk s -> headOk (trimEnd s).
Proof.
  destruct s as [|c s]; simpl; [trivial|]. intros H.
  destruct (trimEnd s); [rewrite H|]; exact H.
Qed.

Lemma trimEnd_idem (s : jsstring) : trimEnd (trimEnd s) = trimEnd s.
Proof.
  induction s as [|c s IH]; [reflexivity|]. simpl.
  destruct (trimEnd s) as [|d t] eqn:E.
  - destruct (isWhiteSpace c) eqn:W; [reflexivity|]. simpl. now rewrite W.
  - change (trimEnd (c :: d :: t)) with
      (match trimEnd (d :: t) with
       | [] => if isWhiteSpace c then [] else [c]
       | r' => c :: r'
       end).
    now rewrite IH.
Qed.

Lemma trim_idem (s : jsstring) : trim (trim s) = trim s.
Proof.
  unfold trim.
  rewrite (trimStart_id (trimEnd (trimStart s))).
  - apply trimEnd_idem.
  - apply trimEnd_headOk, trimStart_headOk.
Qed.

(** *** [stripTags] *)

Lemma In_stripTagsFrom (b : bool) (s : jsstring) (z : Z) :
  In z (stripTagsFrom b s) -> In z s.
Proof.
  revert b; induction s as [|c s IH]; intros b H; [exact H|].
  simpl in H. destruct b.
  - destruct (c =? GT); right; eapply IH; exact H.
  - destruct ((c =? LT) && existsb (Z.eqb GT) s).
    + right; eapply IH; exact H.
    + destruct H as [H|H]; [now left|right; eapply IH; exact H].
Qed.

Lemma existsb_stripTagsFrom (b : bool) (s : jsstring) :
  existsb (Z.eqb GT) s = false ->
  existsb (Z.eqb GT) (stripTagsFrom b s) = false.
Proof.
  intros H. destruct (existsb (Z.eqb GT) (stripTagsFrom b s)) eqn:E; [|reflexivity].
  apply existsb_exists in E as (z & Hz & Hg).
  apply In_stripTagsFrom in Hz.
  assert (existsb (Z.eqb GT) s = true); [|congruence].
  apply existsb_exists. now exists z.
Qed.

Lemma hasTag_stripTagsFrom (b : bool) (s : jsstring) :
  hasTag (stripTagsFrom b s) = false.
Proof.
  revert b; induction s as [|c s IH]; intros b; [reflexivity|].
  simpl. destruct b.
  - destruct (c =? GT); apply IH.
  - destruct (c =? LT) eqn:L; simpl.
    + destruct (existsb (Z.eqb GT) s) eqn:G; [apply IH|].
      simpl. rewrite L, IH, existsb_stripTagsFrom by assumption. reflexivity.
    + simpl. rewrite L, IH. reflexivity.
Qed.

Lemma stripTags_id (s : jsstring) : hasTag s = false -> stripTags s = s.
Proof.
  unfold stripTags. induction s as [|c s IH]; intros H; [reflexivity|].
  simpl in H |- *. apply orb_false_iff in H as [H1 H2].
  rewrite H1. f_equal. now apply IH.
Qed.

Lemma stripTagsFrom_length (b : bool) (s : jsstring) :
  (List.length (stripTagsFrom b s) <= List.length s)%nat.
Proof.
  revert b; induction s as [|c s IH]; intros b; [simpl; lia|].
  simpl. destruct b.
  - destruct (c =? GT); [specialize (IH false)|specialize (IH true)]; lia.
  - destruct ((c =? LT) && existsb (Z.eqb GT) s);
      [specialize (IH true)|specialize (IH false)]; simpl; lia.
Qed.

Lemma stripTags_length_lt (s : jsstring) :
  hasTag s = true -> (List.length (stripTags s) < List.length s)%nat.
Proof.
  unfold stripTags. induction s as [|c s IH]; intros H; [discriminate|].
  simpl in H |- *.
  destruct ((c =? LT) && existsb (Z.eqb GT) s).
  - pose proof (stripTagsFrom_length true s). lia.
  - simpl in H. specialize (IH H). simpl. lia.
Qed.

(** ** Sanitizer *)

Lemma startsWith_amp_other (p : jsstring) (c : Z) (s : jsstring) :
  c <> AMP -> startsWith (AMP :: p) (c :: s) = false.
Proof.
  intros H. cbn [startsWith]. destruct (Z.eqb_spec AMP c); [congruence|reflexivity].
Qed.

Ltac scan_misses :=
  cbn [lit list_ascii_of_string map app];
  repeat (rewrite replaceAll_miss by reflexivity).

Ltac scan_hit P n :=
  cbn [lit list_ascii_of_string map app];
  rewrite replaceAll_hit by (unfold P; (discriminate || reflexivity));
  change (List.length P) with n; cbn [skipn].

Lemma decode_lt_innerHTML (x : jsstring) :
  replaceAll (lit "&lt;") (lit "<") (innerHTMLOfText x) = flat_map escapeAmpGtNbsp x.
Proof.
  unfold innerHTMLOfText.
  set (P := lit "&lt;"). set (R := lit "<").
  induction x as [|c x IH]; [reflexivity|].
  cbn [flat_map]. unfold escapeChar at 1, escapeAmpGtNbsp at 1.
  destruct (Z.eqb_spec c AMP) as [->|Ha].
  { scan_misses. now rewrite IH. }
  destruct (Z.eqb_spec c LT) as [->|Hl].
  { scan_hit P 4%nat. now rewrite IH. }
  destruct (Z.eqb_spec c GT) as [->|Hg].
  { scan_misses. now rewrite IH. }
  destruct (Z.eqb_spec c 160) as [->|Hn].
  { scan_misses. now rewrite IH. }
  cbn [app]. rewrite replaceAll_miss by (now apply startsWith_amp_other).
  now rewrite IH.
Qed.

Lemma decode_gt_stage (x : jsstring) :
  replaceAll (lit "&gt;") (lit ">") (flat_map escapeAmpGtNbsp x)
  = flat_map escapeAmpNbsp x.
Proof.
  set (P := lit "&gt;"). set (R := lit ">").
  induction x as [|c x IH]; [reflexivity|].
  cbn [flat_map]. unfold escapeAmpGtNbsp at 1, escapeAmpNbsp at 1.
  destruct (Z.eqb_spec c AMP) as [->|Ha].
  { scan_misses. now rewrite IH. }
  destruct (Z.eqb_spec c GT) as [->|Hg].
  { scan_hit P 4%nat. now rewrite IH. }
  destruct (Z.eqb_spec c 160) as [->|Hn].
  { scan_misses. now rewrite IH. }
  cbn [app]. rewrite replaceAll_miss by (now apply startsWith_amp_other).
  now rewrite IH.
Qed.

Lemma decode_amp_stage (x : jsstring) :
  replaceAll (lit "&amp;") (lit "&") (flat_map escapeAmpNbsp x)
  = flat_map escapeNbsp x.
Proof.
  set (P := lit "&amp;"). set (R := lit "&").
  induction x as [|c x IH]; [reflexivity|].
  cbn [flat_map]. unfold escapeAmpNbsp at 1, escapeNbsp at 1.
  destruct (Z.eqb_spec c AMP) as [->|Ha].
  { scan_hit P 5%nat. now rewrite IH. }
  destruct (Z.eqb_spec c 160) as [->|Hn].
  { scan_misses. now rewrite IH. }
  cbn [app]. rewrite replaceAll_miss by (now apply startsWith_amp_other).
  now rewrite IH.
Qed.

Lemma escapeNbsp_id (y : jsstring) :
  ~ In 160 y -> flat_map escapeNbsp y = y.
Proof.
  induction y as [|c y IH]; intros H; [reflexivity|].
  cbn [flat_map]. unfold escapeNbsp at 1.
  destruct (Z.eqb_spec c 160) as [->|Hn].
  - exfalso. apply H. now left.
  - cbn [app]. f_equal. apply IH. intros Hin. apply H. now right.
Qed.

Lemma escapeNbsp_no_nbsp (x : jsstring) : ~ In 160 (flat_map escapeNbsp x).
Proof.
  induction x as [|c x IH]; [intros []|].
  cbn [flat_map]. intros H. apply in_app_or in H as [H|H]; [|now apply IH].
  unfold escapeNbsp in H. destruct (Z.eqb_spec c 160) as [->|Hn].
  - vm_compute in H. intuition discriminate.
  - destruct H as [H|[]]. congruence.
Qed.

(** [sanitizeText] of js/utils.js, on a non-empty string: the escapes of
    [innerHTML] are undone by the first three replacements, except that of
    the no-break space. *)
Lemma sanitizeText_unfold (c : Z) (x : jsstring) :
  sanitizeText (Some (c :: x))
  = trim (replaceAll (lit "&#39;") APOS
            (replaceAll (lit "&quot;") QUOT (flat_map escapeNbsp (c :: x)))).
Proof.
  unfold sanitizeText, decodeEntities.
  now rewrite decode_lt_innerHTML, decode_gt_stage, decode_amp_stage.
Qed.

Lemma sanitizeText_fixed (y : jsstring) :
  ~ In 160 y -> includes y (lit "&quot;") = false ->
  includes y (lit "&#39;") = false -> trim y = y ->
  sanitizeText (Some y) = y.
Proof.
  intros Hn Hq Ha Ht. destruct y as [|c y]; [reflexivity|].
  rewrite sanitizeText_unfold, escapeNbsp_id by assumption.
  now rewrite (replaceAll_id _ _ _ Hq), (replaceAll_id _ _ _ Ha).
Qed.

Theorem sanitizeText_idempotent_utils (x : jsstring) :
  sanitizeText (Some (sanitizeText (Some x))) = sanitizeText (Some x).
Proof.
  destruct x as [|c x]; [reflexivity|].
  rewrite sanitizeText_unfold.
  set (e := flat_map escapeNbsp (c :: x)).
  apply sanitizeText_fixed.
  - intros H. apply In_trim in H.
    apply In_replaceAllFrom in H as [H|H]; [vm_compute in H; intuition discriminate|].
    apply In_replaceAllFrom in H as [H|H]; [vm_compute in H; intuition discriminate|].
    now apply escapeNbsp_no_nbsp in H.
  - apply includes_trim_false.
    apply includes_replaceAll_false; try discriminate.
    + vm_compute. intuition discriminate.
    + apply includes_replaceAll_self; [discriminate|].
      vm_compute. intuition discriminate.
  - apply includes_trim_false.
    apply includes_replaceAll_self; [discriminate|].
    vm_compute. intuition discriminate.
  - apply trim_idem.
Qed.

Lemma decodeEntities_id (s : jsstring) :
  hasEntity s = false -> decodeEntities s = s.
Proof.
  unfold hasEntity, decodeEntities. intros H.
  repeat (apply orb_false_iff in H as [H ?]).
  rewrite (replaceAll_id (lit "&lt;") _ s) by assumption.
  rewrite (replaceAll_id (lit "&gt;") _ s) by assumption.
  rewrite (replaceAll_id (lit "&amp;") _ s) by assumption.
  rewrite (replaceAll_id (lit "&quot;") _ s) by assumption.
  now rewrite (replaceAll_id (lit "&#39;") _ s) by assumption.
Qed.

Lemma decodeEntities_length_le (s : jsstring) :
  (List.length (decodeEntities s) <= List.length s)%nat.
Proof.
  unfold decodeEntities.
  repeat (etransitivity;
          [apply replaceAll_length_le; [discriminate|simpl; lia]|]).
  reflexivity.
Qed.

Ltac shrink_step :=
  eapply Nat.le_lt_trans;
  [apply replaceAll_length_le; [discriminate|simpl; lia]|].

Lemma decodeEntities_length_lt (s : jsstring) :
  hasEntity s = true -> (List.length (decodeEntities s) < List.length s)%nat.
Proof.
  unfold hasEntity, decodeEntities. intros H.
  destruct (includes s (lit "&lt;")) eqn:E1.
  { do 4 shrink_step. apply replaceAll_length_lt; [discriminate|simpl; lia|exact E1]. }
  rewrite (replaceAll_id _ _ _ E1).
  destruct (includes s (lit "&gt;")) eqn:E2.
  { do 3 shrink_step. apply replaceAll_length_lt; [discriminate|simpl; lia|exact E2]. }
  rewrite (replaceAll_id _ _ _ E2).
  destruct (includes s (lit "&amp;")) eqn:E3.
  { do 2 shrink_step. apply replaceAll_length_lt; [discriminate|simpl; lia|exact E3]. }
  rewrite (replaceAll_id _ _ _ E3).
  destruct (includes s (lit "&quot;")) eqn:E4.
  { do 1 shrink_step. apply replaceAll_length_lt; [discriminate|simpl; lia|exact E4]. }
  rewrite (replaceAll_id _ _ _ E4).
  simpl in H.
  apply replaceAll_length_lt; [discriminate|simpl; lia|exact H].
Qed.

Lemma sanitiseText_trimmed (x : jsstring) :
  trim (sanitiseText (Some x)) = sanitiseText (Some x).
Proof.
  destruct x as [|c x]; [reflexivity|]. apply trim_idem.
Qed.

Lemma sanitiseText_length (y : jsstring) :
  (List.length (sanitiseText (Some y)) <= List.length y)%nat.
Proof.
  destruct y as [|c y]; [simpl; lia|].
  unfold sanitiseText, sanitiseTextWith, EventMapUtils_sanitiseText.
  etransitivity; [apply trim_length|].
  etransitivity; [apply decodeEntities_length_le|].
  apply stripTagsFrom_length.
Qed.

(** Sanitising a second time with the fallback of script.js changes nothing
    exactly when the first result holds no tag and none of the five
    entities. *)
Lemma sanitiseText_again_iff (x : jsstring) :
  sanitiseText (Some (sanitiseText (Some x))) = sanitiseText (Some x)
  <-> hasTag (sanitiseText (Some x)) || hasEntity (sanitiseText (Some x)) = false.
Proof.
  pose proof (sanitiseText_trimmed x) as Htrim.
  set (y := sanitiseText (Some x)) in *. split.
  - intros Hfix. destruct (hasTag y || hasEntity y) eqn:E; [exfalso|reflexivity].
    assert (Hlt : (List.length (sanitiseText (Some y)) < List.length y)%nat);
      [|rewrite Hfix in Hlt; lia].
    destruct y as [|c y'] eqn:Ey; [discriminate|]. rewrite <- Ey in *.
    assert (Hs : sanitiseText (Some y) = trim (decodeEntities (stripTags y)))
      by (rewrite Ey; reflexivity).
    rewrite Hs. eapply Nat.le_lt_trans; [apply trim_length|].
    destruct (hasTag y) eqn:T.
    + eapply Nat.le_lt_trans; [apply decodeEntities_length_le|].
      now apply stripTags_length_lt.
    + rewrite stripTags_id by assumption. simpl in E.
      now apply decodeEntities_length_lt.
  - intros E. apply orb_false_iff in E as [T N].
    destruct y as [|c y'] eqn:Ey; [reflexivity|]. rewrite <- Ey in *.
    assert (Hs : sanitiseText (Some y) = trim (decodeEntities (stripTags y)))
      by (rewrite Ey; reflexivity).
    rewrite Hs, stripTags_id, decodeEntities_id by assumption.
    exact Htrim.
Qed.

(** C4, as stated, fails for the fallback of script.js: ["&amp;lt;"] is
    sanitised to ["&lt;"], and that to ["<"]. *)
Lemma sanitiseText_not_idempotent :
  sanitiseText (Some (lit "&amp;lt;")) = lit "&lt;"
  /\ sanitiseText (Some (lit "&lt;")) = lit "<"
  /\ sanitiseText (Some (sanitiseText (Some (lit "&amp;lt;"))))
     <> sanitiseText (Some (lit "&amp;lt;")).
Proof.
  split; [vm_compute; reflexivity|]. split; [vm_compute; reflexivity|].
  vm_compute. discriminate.
Qed.

(** *** The claims about the sanitiser *)

Example sanitiseText_plain :
  sanitiseText (Some (lit "  <b>Tea &amp; cake</b> ")) = lit "Tea & cake".
Proof. vm_compute. reflexivity. Qed.

Example sanitizeText_plain :
  sanitizeText (Some (lit "  <b>Tea &amp; cake</b> "))
  = lit "<b>Tea &amp; cake</b>".
Proof. vm_compute. reflexivity. Qed.

(** What does hold of both sanitisers: a missing or empty argument gives the
    empty string, and the result has no white space at either end. *)
Lemma sanitise_null_empty :
  sanitiseText None = [] /\ sanitiseText (Some []) = []
  /\ sanitizeText None = [] /\ sanitizeText (Some []) = [].
Proof. repeat split. Qed.

Lemma sanitise_trimmed (x : jsstring) :
  trim (sanitiseText (Some x)) = sanitiseText (Some x)
  /\ trim (sanitizeText (Some x)) = sanitizeText (Some x).
Proof.
  split; [apply sanitiseText_trimmed|].
  destruct x as [|c x]; [reflexivity|]. apply trim_idem.
Qed.

(** C3. The result of either sanitiser can contain markup. The fallback of
    script.js removes the tags written with [<] and [>] and afterwards
    decodes the entities, so a tag written with [&lt;] and [&gt;] comes out
    as a tag; [sanitizeText] of js/utils.js undoes the escaping of
    [innerHTML] and returns a tag of its input unchanged. *)
Theorem sanitizeText_output_has_markup :
  sanitiseText (Some (lit "&lt;script&gt;alert(1)&lt;/script&gt;"))
  = lit "<script>alert(1)</script>"
  /\ hasTag (sanitiseText (Some (lit "&lt;script&gt;alert(1)&lt;/script&gt;"))) = true
  /\ sanitizeText (Some (lit "<b>bold</b>")) = lit "<b>bold</b>"
  /\ hasTag (sanitizeText (Some (lit "<b>bold</b>"))) = true.
Proof. vm_compute. repeat split. Qed.

(** *** Inputs without an ampersand *)

Lemma hasTag_split (s : jsstring) :
  hasTag s = true <-> exists a b c, s = a ++ LT :: b ++ GT :: c.
Proof.
  split.
  - induction s as [|x s IH]; [discriminate|]. simpl. intros H.
    apply orb_true_iff in H as [H|H].
    + apply andb_true_iff in H as [Hx Hg]. apply Z.eqb_eq in Hx; subst x.
      apply existsb_exists in Hg as (z & Hz & Hg). apply Z.eqb_eq in Hg; subst z.
      apply in_split in Hz as (b & c & ->). now exists [], b, c.
    + destruct (IH H) as (a & b & c & ->). now exists (x :: a), b, c.
  - intros (a & b & c & ->). induction a as [|x a IH]; cbn [app hasTag].
    + apply orb_true_iff. left. apply andb_true_iff. split; [reflexivity|].
      apply existsb_exists. exists GT. split; [|apply Z.eqb_refl].
      apply in_or_app. right. now left.
    + rewrite IH. apply orb_true_r.
Qed.

Lemma hasTag_trim_false (s : jsstring) :
  hasTag s = false -> hasTag (trim s) = false.
Proof.
  intros H. destruct (hasTag (trim s)) eqn:E; [|reflexivity].
  apply hasTag_split in E as (a & b & c & E).
  destruct (trim_infix s) as (a' & b' & Hs).
  assert (hasTag s = true); [|congruence].
  apply hasTag_split. exists (a' ++ a), b, (c ++ b').
  rewrite Hs, E. rewrite <- !app_assoc. cbn [app]. rewrite <- !app_assoc.
  reflexivity.
Qed.

Lemma includes_amp (s p : jsstring) :
  ~ In AMP s -> includes s (AMP :: p) = false.
Proof.
  intros H. destruct (includes s (AMP :: p)) eqn:E; [|reflexivity].
  apply includes_split in E as (a & b & ->). exfalso. apply H.
  apply in_or_app. right. now left.
Qed.

Lemma hasEntity_no_amp (s : jsstring) : ~ In AMP s -> hasEntity s = false.
Proof.
  intros H. unfold hasEntity.
  change (lit "&lt;") with (AMP :: lit "lt;").
  change (lit "&gt;") with (AMP :: lit "gt;").
  change (lit "&amp;") with (AMP :: lit "amp;").
  change (lit "&quot;") with (AMP :: lit "quot;").
  change (lit "&#39;") with (AMP :: lit "#39;").
  now rewrite !includes_amp.
Qed.

(** On a string without [&] the fallback of script.js is idempotent. *)
Lemma sanitiseText_idempotent_without_amp (x : jsstring) :
  ~ In AMP x ->
  sanitiseText (Some (sanitiseText (Some x))) = sanitiseText (Some x).
Proof.
  intros H. apply sanitiseText_again_iff.
  destruct x as [|c x]; [reflexivity|].
  assert (Hs : ~ In AMP (stripTags (c :: x)))
    by (intros Hin; apply H; now apply In_stripTagsFrom in Hin).
  assert (Hy : sanitiseText (@Some jsstring (c :: x)) = trim (stripTags (c :: x))).
  { unfold sanitiseText, sanitiseTextWith, EventMapUtils_sanitiseText.
    now rewrite decodeEntities_id by now apply hasEntity_no_amp. }
  rewrite Hy. apply orb_false_iff. split.
  - apply hasTag_trim_false, hasTag_stripTagsFrom.
  - apply hasEntity_no_amp. intros Hin. apply Hs. now apply In_trim in Hin.
Qed.

(** C4, amended. [sanitizeText] of js/utils.js is idempotent on every
    string. The fallback [sanitiseText] of script.js is idempotent at [x]
    exactly when its first result holds no tag and none of the five
    entities. *)
Theorem sanitize_idempotence_amended (x : jsstring) :
  sanitizeText (Some (sanitizeText (Some x))) = sanitizeText (Some x)
  /\ (sanitiseText (Some (sanitiseText (Some x))) = sanitiseText (Some x)
      <-> hasTag (sanitiseText (Some x)) || hasEntity (sanitiseText (Some x))
          = false).
Proof.
  split; [apply sanitizeText_idempotent_utils|apply sanitiseText_again_iff].
Qed.

#[local] Set Warnings "-inexact-float".

(** ** Location resolver *)

Section LocationFacts.
Import Location.

Lemma toInt32_range (x : Z) : - 2 ^ 31 <= toInt32 x < 2 ^ 31.
Proof.
  unfold toInt32. pose proof (Z.mod_pos_bound x (2 ^ 32) ltac:(lia)).
  destruct (Z.ltb_spec (x mod 2 ^ 32) (2 ^ 31)); lia.
Qed.

(** The hash is a signed 32-bit integer. *)
Lemma hashLocation_range (s : jsstring) :
  - 2 ^ 31 <= hashLocation s < 2 ^ 31.
Proof.
  unfold hashLocation.
  assert (H : forall h, - 2 ^ 31 <= h < 2 ^ 31 ->
                        - 2 ^ 31 <= fold_left hashStep s h < 2 ^ 31).
  { induction s as [|c s IH]; intros h Hh; [exact Hh|].
    simpl. apply IH. apply toInt32_range. }
  apply H. lia.
Qed.

Lemma rem_offset_range (n : Z) :
  (- (12 # 1000) < (inject_Z (Z.rem n 1000) / 1000 - 0.5) * offsetRange
   /\ (inject_Z (Z.rem n 1000) / 1000 - 0.5) * offsetRange < 4 # 1000)%Q.
Proof.
  pose proof (Z.rem_bound_abs n 1000 ltac:(lia)) as Hb.
  assert (H1 : (inject_Z (-1000) < inject_Z (Z.rem n 1000))%Q)
    by (rewrite <- Zlt_Qlt; lia).
  assert (H2 : (inject_Z (Z.rem n 1000) < inject_Z 1000)%Q)
    by (rewrite <- Zlt_Qlt; lia).
  unfold offsetRange, Qdiv. change (/ 1000)%Q with (1 # 1000)%Q.
  set (r := inject_Z (Z.rem n 1000)) in *.
  change (inject_Z (-1000)) with (-1000 # 1)%Q in H1.
  change (inject_Z 1000) with (1000 # 1)%Q in H2.
  split; lra.
Qed.

Lemma rem_offset_nonneg (n : Z) :
  0 <= n ->
  (- (4 # 1000) <= (inject_Z (Z.rem n 1000) / 1000 - 0.5) * offsetRange)%Q.
Proof.
  intros Hn.
  pose proof (Z.rem_bound_pos n 1000 Hn ltac:(lia)) as Hb.
  assert (H1 : (inject_Z 0 <= inject_Z (Z.rem n 1000))%Q)
    by (rewrite <- Zle_Qle; lia).
  unfold offsetRange, Qdiv. change (/ 1000)%Q with (1 # 1000)%Q.
  set (r := inject_Z (Z.rem n 1000)) in *.
  change (inject_Z 0) with (0 # 1)%Q in H1.
  lra.
Qed.

(** What the offsets do satisfy: each lies strictly between -0.012 and
    0.004 degrees, and within 0.004 of zero when the hashed quantity is not
    negative. *)
Lemma generateUniqueCoordinates_offsets (location : jsstring) (b : Coord) :
  let r := generateUniqueCoordinates location b in
  (- (12 # 1000) < lat r - lat b /\ lat r - lat b < 4 # 1000
   /\ - (12 # 1000) < lng r - lng b /\ lng r - lng b < 4 # 1000)%Q.
Proof.
  cbn [generateUniqueCoordinates lat lng]. unfold latOffset, lngOffset.
  destruct (rem_offset_range (hashLocation location)) as [A B].
  destruct (rem_offset_range (Z.shiftr (hashLocation location) 10)) as [C D].
  set (u := ((inject_Z (Z.rem (hashLocation location) 1000) / 1000 - 0.5)
             * offsetRange)%Q) in *.
  set (v := ((inject_Z (Z.rem (Z.shiftr (hashLocation location) 10) 1000) / 1000
              - 0.5) * offsetRange)%Q) in *.
  repeat split; lra.
Qed.

Lemma generateUniqueCoordinates_nonneg_hash (location : jsstring) (b : Coord) :
  0 <= hashLocation location ->
  let r := generateUniqueCoordinates location b in
  (Qabs (lat r - lat b) <= 4 # 1000 /\ Qabs (lng r - lng b) <= 4 # 1000)%Q.
Proof.
  intros Hh. cbn [generateUniqueCoordinates lat lng]. unfold latOffset, lngOffset.
  destruct (rem_offset_range (hashLocation location)) as [A B].
  destruct (rem_offset_range (Z.shiftr (hashLocation location) 10)) as [C D].
  pose proof (rem_offset_nonneg _ Hh) as E.
  assert (Hs : 0 <= Z.shiftr (hashLocation location) 10)
    by (apply Z.shiftr_nonneg; exact Hh).
  pose proof (rem_offset_nonneg _ Hs) as F.
  set (u := ((inject_Z (Z.rem (hashLocation location) 1000) / 1000 - 0.5)
             * offsetRange)%Q) in *.
  set (v := ((inject_Z (Z.rem (Z.shiftr (hashLocation location) 10) 1000) / 1000
              - 0.5) * offsetRange)%Q) in *.
  split; apply Qabs_Qle_condition; split; lra.
Qed.

(** C5. At the location string ["Sunderland"] the hash is negative
    (-157723184), the remainder [hash % 1000] is -184, and the latitude moves
    by -0.005472 degrees and the longitude by -0.004216 degrees: both offsets
    are larger in magnitude than 0.004 degrees. *)
Theorem generateUniqueCoordinates_offset_exceeds_bound :
  let r := generateUniqueCoordinates (lit "Sunderland") defaultCoords in
  hashLocation (lit "Sunderland") = -157723184
  /\ (lat r - lat defaultCoords == - (5472 # 1000000))%Q
  /\ (lng r - lng defaultCoords == - (4216 # 1000000))%Q
  /\ (4 # 1000 < Qabs (lat r - lat defaultCoords))%Q
  /\ (4 # 1000 < Qabs (lng r - lng defaultCoords))%Q.
Proof.
  cbv zeta. repeat split; vm_compute; reflexivity.
Qed.

(** The same evaluation in double precision: the latitude moves by
    -0.0054719999999999994 and both coordinates end farther than 0.004 from
    the base. *)
Example generateUniqueCoordinates_binary64_exceeds_bound :
  let b := Binary64.defaultCoords in
  let r := Binary64.generateUniqueCoordinates (lit "Sunderland") b in
  Binary64.fartherThan 0.004%float (Binary64.lat r) (Binary64.lat b) = true
  /\ Binary64.fartherThan 0.004%float (Binary64.lng r) (Binary64.lng b) = true.
Proof. vm_compute. split; reflexivity. Qed.

(** The resolution order of [getCoordinatesForLocation] *)



(** C6. [getCoordinatesForLocation] returns coordinates for every
    configuration, location and network outcome; when the geocoding call
    throws, whatever the error, the result is the hash fallback. *)
Theorem getCoordinatesForLocation_always_succeeds
    (config : option Config) (location : jsstring) (venueName : option jsstring)
    (net : FetchOutcome GeocodeData) :
  exists c,
    getCoordinatesForLocation config location venueName net = Ok c
    /\ forall e, geocodeWithGoogle location venueName net = Throw e ->
                 c = hashFallback config location.
Proof.
  unfold getCoordinatesForLocation, hashFallback.
  destruct (geocodingEnabled config).
  - destruct (geocodeWithGoogle location venueName net) as [c|e] eqn:E.
    + exists c. split; [reflexivity|]. intros e' He. discriminate.
    + eexists. split; [reflexivity|]. reflexivity.
  - eexists. split; [reflexivity|]. reflexivity.
Qed.

(** The failures named by the claim, each thrown by [geocodeWithGoogle]. *)
Lemma geocodeWithGoogle_failures (address : jsstring) (venue : option jsstring) :
  isWellFormed address = true ->
  geocodeWithGoogle address venue FetchRejects = Throw FetchFailed
  /\ geocodeWithGoogle address venue
       (FetchResolves (mkResponse true 200
          (JsonValue {| status := lit "ZERO_RESULTS"; results := Some [] |})))
     = Throw NoResultsFound
  /\ geocodeWithGoogle address venue
       (FetchResolves (mkResponse true 200
          (JsonValue {| status := lit "OVER_QUERY_LIMIT"; results := None |})))
     = Throw OverQueryLimit
  /\ geocodeWithGoogle address venue
       (FetchResolves (mkResponse true 200
          (JsonValue {| status := lit "REQUEST_DENIED"; results := None |})))
     = Throw ApiKeyIssue
  /\ geocodeWithGoogle address venue
       (FetchResolves (mkResponse false 500 JsonRejects))
     = Throw (HttpError 500).
Proof.
  intros H. unfold geocodeWithGoogle, encodeURIComponent. rewrite H.
  repeat split.
Qed.

(** An address with a lone surrogate never reaches the network. *)
Lemma geocodeWithGoogle_malformed (address : jsstring) (venue : option jsstring)
    (net : FetchOutcome GeocodeData) :
  isWellFormed address = false ->
  geocodeWithGoogle address venue net = Throw URIError.
Proof.
  intros H. unfold geocodeWithGoogle, encodeURIComponent. now rewrite H.
Qed.

Lemma getCoordinatesForLocation_always_succeeds_witness :
  exists c,
    getCoordinatesForLocation
      (Some (mkConfig true (Some (lit "key")) None)) (lit "Durham") None FetchRejects
    = Ok c
    /\ c = hashFallback (Some (mkConfig true (Some (lit "key")) None)) (lit "Durham").
Proof.
  destruct (getCoordinatesForLocation_always_succeeds
              (Some (mkConfig true (Some (lit "key")) None)) (lit "Durham") None
              FetchRejects) as (c & Hc & Hf).
  exists c. split; [exact Hc|]. apply (Hf FetchFailed). reflexivity.
Defined.

End LocationFacts.

(** ** Categorizer *)

(** C7. The clay pigeon morning is tagged [sport] only. *)
Theorem categorizeEvent_clay_pigeon :
  Categorizer.categorizeEvent (Some (lit "Clay Pigeon Shooting Morning"))
    (Some (lit "breakfast provided before shoot"))
  = {| Categorizer.tags := [lit "sport"]; Categorizer.primary := lit "sport" |}.
Proof. vm_compute. reflexivity. Qed.

(** The reasons: "breakfast" and "clay pigeon" both occur in the combined
    text, so the second disjunct of the breakfast rule is false. *)
Lemma categorizeEvent_clay_pigeon_reasons :
  let combined :=
    toLowerCase (lit "Clay Pigeon Shooting Morning") ++ lit " "
    ++ toLowerCase (lit "breakfast provided before shoot") in
  includes combined (lit "breakfast") = true
  /\ includes combined (lit "clay pigeon") = true
  /\ includes combined (lit "breakfast club") = false
  /\ includes combined (lit "naafi break") = false
  /\ includes combined (lit "shooting") = true.
Proof. vm_compute. repeat split. Qed.

(** ** Postcode search *)

Section PostcodeFacts.
Import Location Postcode.

(** Whatever the services answer, a resolved postcode has radius 15. *)
Lemma geocodePostcode_radius (config : option Config) (postcode : jsstring)
    (google : FetchOutcome GeocodeData) (nominatim : FetchOutcome NominatimData)
    (r : SearchCoords) :
  geocodePostcode config postcode google nominatim = Some r ->
  radius r = 15%Q.
Proof.
  unfold geocodePostcode, geocodePostcodeBody, encodeURIComponent.
  destruct (isWellFormed _);
  destruct (googleConfigured config);
    destruct google as [|[gok gst [|gd]]]; cbn -[test];
    try destruct gok; cbn -[test];
    try (destruct (nonEmptyResults gd) as [rs|]; cbn -[test];
         [destruct (firstLocation rs); cbn -[test]|]);
    destruct nominatim as [|[nok nst [|[[|p ps]|]]]]; cbn -[test];
    try destruct nok; cbn -[test];
    intros H; inversion H; reflexivity.
Qed.

Lemma geocodePostcode_isPartial (config : option Config) (postcode : jsstring)
    (google : FetchOutcome GeocodeData) (nominatim : FetchOutcome NominatimData)
    (r : SearchCoords) :
  geocodePostcode config postcode google nominatim = Some r ->
  isPartial r =
    let cleanPostcode := toUpperCase (trim (collapseWhitespace postcode)) in
    negb (test (Cat (outward false) (Cat WS (inward false))) cleanPostcode)
    && negb (test (Cat (outward false) (inward false))
               (removeWhitespace cleanPostcode)).
Proof.
  unfold geocodePostcode, geocodePostcodeBody, encodeURIComponent.
  destruct (isWellFormed _);
  destruct (googleConfigured config);
    destruct google as [|[gok gst [|gd]]]; cbn -[test];
    try destruct gok; cbn -[test];
    try (destruct (nonEmptyResults gd) as [rs|]; cbn -[test];
         [destruct (firstLocation rs); cbn -[test]|]);
    destruct nominatim as [|[nok nst [|[[|p ps]|]]]]; cbn -[test];
    try destruct nok; cbn -[test];
    intros H; inversion H; reflexivity.
Qed.

(** C2. The query ["TS28"] is a postcode by the partial pattern only, and
    whenever it is resolved, by either service, the origin is marked partial
    and carries the radius 15, not 25. *)
Theorem geocodePostcode_partial_radius
    (config : option Config)
    (google : FetchOutcome GeocodeData) (nominatim : FetchOutcome NominatimData)
    (r : SearchCoords) :
  geocodePostcode config (lit "TS28") google nominatim = Some r ->
  test fullPostcodeRegex (lit "TS28") = false
  /\ test partialPostcodeRegex (lit "TS28") = true
  /\ isPartial r = true
  /\ radius r = 15%Q.
Proof.
  intros H. split; [vm_compute; reflexivity|]. split; [vm_compute; reflexivity|].
  split.
  - rewrite (geocodePostcode_isPartial _ _ _ _ _ H). vm_compute. reflexivity.
  - exact (geocodePostcode_radius _ _ _ _ _ H).
Qed.

Lemma geocodePostcode_partial_radius_witness :
  geocodePostcode None (lit "TS28") FetchRejects
    (nominatimFound (mkCoord 54.72 (-1.38)))
  = Some {| sc_lat := 54.72; sc_lng := -1.38; radius := 15; isPartial := true |}
  /\ isPartial {| sc_lat := 54.72; sc_lng := -1.38; radius := 15; isPartial := true |} = true
  /\ radius {| sc_lat := 54.72; sc_lng := -1.38; radius := 15; isPartial := true |} = 15%Q.
Proof.
  split; [vm_compute; reflexivity|].
  exact (proj2 (proj2 (geocodePostcode_partial_radius None FetchRejects
                         (nominatimFound (mkCoord 54.72 (-1.38))) _ eq_refl))).
Defined.

End PostcodeFacts.

(** ** Stable sort *)

Section SortMembers.
Context {A : Type} (lt : A -> A -> bool).

Lemma In_insert (x y : A) (l : list A) :
  In y (StableSort.insert lt x l) <-> y = x \/ In y l.
Proof.
  induction l as [|z l IH]; simpl.
  - intuition.
  - destruct (lt z x); simpl; rewrite ?IH; intuition.
Qed.

Lemma In_sort (y : A) (l : list A) :
  In y (StableSort.sort lt l) <-> In y l.
Proof.
  induction l as [|x l IH]; simpl; [reflexivity|].
  unfold StableSort.sort in IH. rewrite In_insert, IH. intuition.
Qed.
End SortMembers.

(** ** Stable sort by a rational key *)

Section SortFacts.
Context {A : Type} (key : A -> Q).

Abbreviation ltk := (StableSort.byKey key).
Abbreviation lek := (StableSort.keyLe key).

Lemma Qlt_bool_true (x y : Q) : StableSort.Qlt_bool x y = true -> (x < y)%Q.
Proof.
  unfold StableSort.Qlt_bool. intros H. apply negb_true_iff in H.
  apply Qnot_le_lt. intros Hle. apply Qle_bool_iff in Hle. congruence.
Qed.

Lemma Qlt_bool_false (x y : Q) : StableSort.Qlt_bool x y = false -> (y <= x)%Q.
Proof.
  unfold StableSort.Qlt_bool. intros H. apply negb_false_iff in H.
  now apply Qle_bool_iff.
Qed.

Lemma insert_sorted (x : A) (l : list A) :
  StronglySorted lek l -> StronglySorted lek (StableSort.insert ltk x l).
Proof.
  induction l as [|z l IH]; intros Hs; simpl.
  - constructor; constructor.
  - inversion Hs as [|? ? Hl Hz]; subst.
    destruct (ltk z x) eqn:E.
    + constructor; [now apply IH|].
      apply Forall_forall. intros y Hy. apply In_insert in Hy as [->|Hy].
      * apply Qlt_le_weak. now apply Qlt_bool_true.
      * rewrite Forall_forall in Hz. now apply Hz.
    + constructor; [exact Hs|].
      apply Qlt_bool_false in E.
      constructor; [exact E|].
      apply Forall_forall. intros y Hy. rewrite Forall_forall in Hz.
      unfold lek. eapply Qle_trans; [exact E|now apply Hz].
Qed.

Lemma sort_sorted (l : list A) : StronglySorted lek (StableSort.sort ltk l).
Proof.
  induction l as [|x l IH]; simpl; [constructor|].
  now apply insert_sorted.
Qed.



End SortFacts.

Import Scenario.

(** ** Event normalizer *)

Section NormalizerFacts.
Import Normalizer.

Variable config : option Location.Config.
Variable clk : JsDate.Clock.

(** In script.js the call [this.sanitiseHtml(...)] throws, so
    [transformCalendarItem] rejects for every item. *)
Lemma transformCalendarItem_throws (item : Item.t) (id : Z)
    (net : Location.FetchOutcome Location.GeocodeData) :
  transformCalendarItem EventMap_sanitiseHtml config clk item id net
  = Throw TypeError.
Proof. reflexivity. Qed.

Lemma processItem_never_pushes (item : Item.t) (processed : list Event.t)
    (net : Location.FetchOutcome Location.GeocodeData) (e : Event.t) :
  processItem EventMap_sanitiseHtml config clk item processed net <> Ok (Some e).
Proof.
  unfold processItem.
  destruct (isExcludedRecurringEvent _); [discriminate|].
  destruct (JsDate.lt _ _); [discriminate|].
  destruct (includes _ _); [discriminate|].
  rewrite transformCalendarItem_throws. discriminate.
Qed.

Lemma processLoop_keeps (i : nat) (items : list Item.t)
    (nets : nat -> Location.FetchOutcome Location.GeocodeData)
    (processed : list Event.t) :
  processLoop EventMap_sanitiseHtml config clk i items nets processed = processed.
Proof.
  revert i processed; induction items as [|item rest IH]; intros i processed;
    [reflexivity|].
  cbn [processLoop].
  destruct (processItem EventMap_sanitiseHtml config clk item processed (nets i))
    as [[e|]|err] eqn:E; [|apply IH|apply IH].
  exfalso. exact (processItem_never_pushes _ _ _ _ E).
Qed.

(** No batch yields an event. *)
Lemma processCalendarItems_empty (items : list Item.t)
    (nets : nat -> Location.FetchOutcome Location.GeocodeData) :
  processCalendarItems config clk items nets = [].
Proof.
  unfold processCalendarItems, processCalendarItemsWith.
  now rewrite processLoop_keeps.
Qed.

End NormalizerFacts.

Lemma localDay_of_day (clk : JsDate.Clock) (day : Z) :
  0 <= JsDate.tzOffset clk < JsDate.msPerDay ->
  JsDate.localDay clk (JsDate.parseDateOnly day) = day.
Proof.
  intros H. unfold JsDate.localDay, JsDate.parseDateOnly, JsDate.msPerDay in *.
  symmetry. apply (Z.div_unique _ _ day (JsDate.tzOffset clk)); lia.
Qed.

(** C8. An all-day item dated today passes the three tests that precede
    the transformation (it is not excluded, its day is not before today, its
    title is not "useful information"), and still the output is empty: the
    item is dropped when [transformCalendarItem] throws. *)
Theorem processCalendarItems_drops_todays_item
    (config : option Location.Config) (clk : JsDate.Clock)
    (nets : nat -> Location.FetchOutcome Location.GeocodeData) :
  0 <= JsDate.tzOffset clk < JsDate.msPerDay ->
  let item := allDayItem "Coffee Morning" (JsDate.localDay clk (JsDate.now clk)) in
  Normalizer.isExcludedRecurringEvent (Item.recurringEventId item) = false
  /\ JsDate.lt (Normalizer.eventDateOnly clk item) (Normalizer.today clk) = false
  /\ includes (toLowerCase (Normalizer.orElse (Item.summary item) ""))
       (lit "useful information") = false
  /\ Normalizer.processCalendarItems config clk [item] nets = [].
Proof.
  intros Htz item. split; [reflexivity|]. split; [|split].
  - unfold Normalizer.eventDateOnly, Normalizer.eventDate, Normalizer.today.
    cbn [item allDayItem Item.startDateTime Item.startDate Item.start Item.date
         Item.dateTime option_map JsDate.setHoursZero JsDate.lt].
    unfold JsDate.startOfLocalDay at 1. rewrite localDay_of_day by exact Htz.
    unfold JsDate.startOfLocalDay. apply Z.ltb_irrefl.
  - vm_compute. reflexivity.
  - apply processCalendarItems_empty.
Qed.

Lemma processCalendarItems_drops_todays_item_witness :
  JsDate.localDay noonClock (JsDate.now noonClock) = JsDate.days_from_civil 2025 11 5
  /\ Normalizer.processCalendarItems None noonClock
       [allDayItem "Coffee Morning" (JsDate.days_from_civil 2025 11 5)]
       (fun _ => Location.FetchRejects)
     = [].
Proof.
  split; [vm_compute; reflexivity|].
  exact (proj2 (proj2 (proj2
    (processCalendarItems_drops_todays_item None noonClock
       (fun _ => Location.FetchRejects) ltac:(unfold noonClock, JsDate.msPerDay; simpl; lia))))).
Defined.

Example civil_days :
  JsDate.days_from_civil 1970 1 1 = 0
  /\ JsDate.days_from_civil 2020 1 1 = 18262
  /\ JsDate.civil_from_days 18262 = (2020, 1, 1)
  /\ JsDate.civil_from_days (JsDate.days_from_civil 2024 2 29) = (2024, 2, 29)
  /\ JsDate.days_from_civil 2025 11 5 = 20397.
Proof. vm_compute. repeat split. Qed.

(** *** The date test of the loop, for any definition of [sanitiseHtml]

    The lemmas of this part hold whatever the member [this.sanitiseHtml] is;
    they say what the tests of [processCalendarItems] establish for the
    events that a working [transformCalendarItem] would deliver. *)

Section DateGuard.
Import Normalizer.

Variable sanitiseHtml : option (jsstring -> jsstring).
Variable config : option Location.Config.
Variable clk : JsDate.Clock.

Lemma processItem_pushed (item : Item.t) (processed : list Event.t)
    (net : Location.FetchOutcome Location.GeocodeData) (e : Event.t) :
  processItem sanitiseHtml config clk item processed net = Ok (Some e) ->
  pushed clk e.
Proof.
  unfold processItem.
  destruct (isExcludedRecurringEvent _) eqn:Hx; [discriminate|].
  destruct (JsDate.lt _ _) eqn:Hd; [discriminate|].
  destruct (includes _ _); [discriminate|].
  unfold transformCalendarItem.
  destruct (callMethod sanitiseHtml _) as [description|err]; [|discriminate].
  cbn [bind].
  destruct (Location.getCoordinatesForLocation _ _ _ _) as [coords|err];
    [|discriminate].
  cbn [bind Event.set_isElapsed Event.lat Event.lng].
  destruct (Qeq_bool (Location.lat coords) 0 && Qeq_bool (Location.lng coords) 0)
    eqn:Hz; [discriminate|].
  intros H. injection H as <-. exists item. cbn.
  repeat split; try assumption.
  intros [Ha Hb]. apply Qeq_bool_iff in Ha, Hb. rewrite Ha, Hb in Hz. discriminate.
Qed.

Lemma processLoop_pushed (i : nat) (items : list Item.t)
    (nets : nat -> Location.FetchOutcome Location.GeocodeData)
    (processed : list Event.t) :
  Forall (pushed clk) processed ->
  Forall (pushed clk) (processLoop sanitiseHtml config clk i items nets processed).
Proof.
  revert i processed; induction items as [|item rest IH]; intros i processed H;
    [exact H|].
  cbn [processLoop]. apply IH.
  destruct (processItem sanitiseHtml config clk item processed (nets i))
    as [[e|]|err] eqn:E; try exact H.
  apply Forall_app. split; [exact H|]. constructor; [|constructor].
  exact (processItem_pushed _ _ _ _ E).
Qed.

(** Every event of the output comes from an item that passed the exclusion
    test and the date test, and carries the date of that item. *)
Lemma processCalendarItemsWith_pushed (items : list Item.t)
    (nets : nat -> Location.FetchOutcome Location.GeocodeData) (e : Event.t) :
  In e (processCalendarItemsWith sanitiseHtml config clk items nets) ->
  pushed clk e.
Proof.
  unfold processCalendarItemsWith, sortByDate. intros H. apply In_sort in H.
  pose proof (processLoop_pushed O items nets [] (Forall_nil _)) as F.
  rewrite Forall_forall in F. now apply F.
Qed.

Hypothesis zone : - JsDate.msPerDay < JsDate.tzOffset clk < JsDate.msPerDay.

Lemma localDay_of_day_le (day : Z) :
  JsDate.localDay clk (JsDate.parseDateOnly day) <= day.
Proof.
  unfold JsDate.localDay, JsDate.parseDateOnly, JsDate.msPerDay in *.
  apply Z.lt_succ_r. apply Z.div_lt_upper_bound; lia.
Qed.

(** An all-day item dated before today fails the date test: with
    [start.date = "2020-01-01"] on any later day the item is dropped. *)
Lemma past_all_day_item_dropped (item : Item.t) (day : Z) :
  Item.startDateTime item = None ->
  Item.startDate item = Some day ->
  day < JsDate.localDay clk (JsDate.now clk) ->
  JsDate.lt (eventDateOnly clk item) (today clk) = true.
Proof.
  intros Hdt Hd Hlt. unfold eventDateOnly, eventDate, today. rewrite Hdt, Hd.
  cbn [option_map JsDate.setHoursZero JsDate.lt]. unfold JsDate.startOfLocalDay.
  pose proof (localDay_of_day_le day). unfold JsDate.msPerDay in *.
  apply Z.ltb_lt. nia.
Qed.

(** An all-day item that passes the date test is dated today or later. *)
Lemma all_day_item_kept_date (item : Item.t) (day : Z) :
  Item.startDateTime item = None ->
  Item.startDate item = Some day ->
  JsDate.lt (eventDateOnly clk item) (today clk) = false ->
  JsDate.localDay clk (JsDate.now clk) <= extractDate clk item.
Proof.
  intros Hdt Hd Hlt. unfold extractDate. rewrite Hd.
  unfold eventDateOnly, eventDate, today in Hlt. rewrite Hdt, Hd in Hlt.
  cbn [option_map JsDate.setHoursZero JsDate.lt] in Hlt.
  unfold JsDate.startOfLocalDay in Hlt.
  pose proof (localDay_of_day_le day). unfold JsDate.msPerDay in *.
  apply Z.ltb_ge in Hlt. nia.
Qed.

(** So does a timed item whose [dateTime] is written with the local
    offset. *)
Lemma timed_item_kept_date (item : Item.t) (dt : JsDate.DateTime) :
  Item.startDate item = None ->
  Item.startDateTime item = Some dt ->
  JsDate.dt_utcOffset dt = JsDate.tzOffset clk ->
  0 <= JsDate.dt_timeOfDay dt < JsDate.msPerDay ->
  JsDate.lt (eventDateOnly clk item) (today clk) = false ->
  JsDate.localDay clk (JsDate.now clk) <= extractDate clk item.
Proof.
  intros Hd Hdt Hoff Htod Hlt. unfold extractDate. rewrite Hd, Hdt.
  unfold eventDateOnly, eventDate, today in Hlt. rewrite Hdt in Hlt.
  cbn [option_map JsDate.setHoursZero JsDate.lt] in Hlt.
  unfold JsDate.startOfLocalDay, JsDate.localDay at 1, JsDate.parseDateTime in Hlt.
  rewrite Hoff in Hlt.
  replace (JsDate.dt_day dt * JsDate.msPerDay + JsDate.dt_timeOfDay dt
           - JsDate.tzOffset clk + JsDate.tzOffset clk)
    with (JsDate.dt_timeOfDay dt + JsDate.dt_day dt * JsDate.msPerDay) in Hlt
    by lia.
  unfold JsDate.msPerDay in *.
  rewrite Z.div_add in Hlt by lia. rewrite Z.div_small in Hlt by lia.
  apply Z.ltb_ge in Hlt. nia.
Qed.

End DateGuard.

Example item_2020_dropped :
  JsDate.lt
    (Normalizer.eventDateOnly noonClock
       (allDayItem "New Year Walk" (JsDate.days_from_civil 2020 1 1)))
    (Normalizer.today noonClock)
  = true.
Proof. vm_compute. reflexivity. Qed.

(** ** Filter pass *)

Section FilterFacts.
Import Filter.

Variable calculateDistance : Q -> Q -> Q -> Q -> Q.

Abbreviation visit := (Filter.visit calculateDistance).
Abbreviation filterEvents := (Filter.filterEvents calculateDistance).

Lemma searchOrigin_isPostcode (w : World) (q : jsstring) (sc : Postcode.SearchCoords) :
  searchOrigin w q = Some sc -> Postcode.isPostcode q = true /\ q <> [].
Proof.
  unfold searchOrigin. destruct q as [|c q]; [discriminate|].
  destruct (Postcode.isPostcode (c :: q)); [split; [reflexivity|discriminate]|discriminate].
Qed.

(** Without a search origin the callback leaves the event object alone. *)
Lemma visit_no_origin (q : jsstring) (ips : bool) (cat : jsstring)
    (df : option Z) (e : Event.t) :
  fst (visit q ips None cat df e) = e.
Proof. unfold Filter.visit. destruct q; reflexivity. Qed.

(** An event that matches the text search is left alone too. *)
Lemma visit_text_match (q : jsstring) (ips : bool)
    (sc : option Postcode.SearchCoords) (cat : jsstring) (df : option Z)
    (e : Event.t) :
  matchesText q e = true ->
  visit q ips sc cat df e
  = (e, matchesCategory cat e && matchesDate df e).
Proof.
  intros H. unfold Filter.visit. destruct q as [|c q]; [reflexivity|].
  rewrite H. destruct sc; [rewrite andb_false_r|]; reflexivity.
Qed.

(** The store after a pass. *)
Lemma filterEvents_events (this : EventMap) (dom : Dom) (w : World) :
  events (filterEvents this dom w)
  = map (fun e =>
           fst (visit (trim (toLowerCase (searchInput dom)))
                  (Postcode.isPostcode (trim (toLowerCase (searchInput dom))))
                  (searchOrigin w (trim (toLowerCase (searchInput dom))))
                  (categoryFilter dom) (dateFilter dom) e))
        (events this).
Proof. unfold Filter.filterEvents. cbn [events]. now rewrite map_map. Qed.

(** C9. A pass without a search origin (the query is empty, or is not a
    postcode, or could not be geocoded) leaves every event object as it
    was: an annotation written by an earlier postcode search is neither
    cleared nor overwritten. *)
Theorem filterEvents_keeps_stale_annotations
    (this : EventMap) (dom : Dom) (w : World) :
  searchOrigin w (trim (toLowerCase (searchInput dom))) = None ->
  events (filterEvents this dom w) = events this.
Proof.
  intros H. rewrite filterEvents_events, H.
  rewrite <- (map_id (events this)) at 2.
  apply map_ext. intros e. apply visit_no_origin.
Qed.

(** The annotations are written by a pass with a search origin only, and
    then on the events that fail the text search. *)
Lemma filterEvents_annotates (this : EventMap) (dom : Dom) (w : World)
    (i : nat) (e e' : Event.t) :
  nth_error (events this) i = Some e ->
  nth_error (events (filterEvents this dom w)) i = Some e' ->
  e' <> e ->
  exists sc,
    searchOrigin w (trim (toLowerCase (searchInput dom))) = Some sc
    /\ matchesText (trim (toLowerCase (searchInput dom))) e = false
    /\ e' = Event.set_search
              (calculateDistance (Postcode.sc_lat sc) (Postcode.sc_lng sc)
                 (Event.lat e) (Event.lng e))
              (radiusOr50 sc) (Postcode.isPartial sc) e.
Proof.
  intros He He' Hne. rewrite filterEvents_events in He'.
  rewrite nth_error_map, He in He'. cbn [option_map] in He'.
  injection He' as <-.
  set (q := trim (toLowerCase (searchInput dom))) in *.
  destruct (searchOrigin w q) as [sc|] eqn:Hsc.
  - exists sc. destruct (searchOrigin_isPostcode _ _ _ Hsc) as [Hp Hq].
    destruct (matchesText q e) eqn:Hm.
    + rewrite visit_text_match in Hne by assumption. now elim Hne.
    + split; [reflexivity|]. split; [reflexivity|].
      unfold Filter.visit. destruct q as [|c q']; [congruence|].
      rewrite Hm, Hp. reflexivity.
  - rewrite visit_no_origin in Hne. now elim Hne.
Qed.

(** *** Which references a pass keeps *)




Lemma filterEvents_filtered (this : EventMap) (dom : Dom) (w : World) :
  let q := trim (toLowerCase (searchInput dom)) in
  let visited :=
    map (visit q (Postcode.isPostcode q) (searchOrigin w q)
           (categoryFilter dom) (dateFilter dom)) (events this) in
  let kept :=
    filterEventsByDate (clock w) (currentDateFilter this) (map fst visited)
      (keptFrom O visited) in
  filteredEvents (filterEvents this dom w)
  = match searchOrigin w q with
    | Some _ =>
        if Postcode.isPostcode q
        then sortByDistance (map fst visited) kept else kept
    | None => kept
    end.
Proof. reflexivity. Qed.


End FilterFacts.

(** ** Three passes over two events *)

Section ScenarioFacts.
Import Scenario Filter.

(** The facts of this part that do not name [gridDistance] hold for every
    distance function, the haversine formula included. *)
Variable calc : Q -> Q -> Q -> Q -> Q.

(** The search for NE1 annotates both events, neither of which matches the
    text "ne1". *)
Lemma afterNE1_annotated :
  map Event._searchDistance (events (afterNE1 calc))
  = [Some (newcastleToHall calc); Some (newcastleToClub calc)].
Proof. reflexivity. Qed.

(** The search for TS28 leaves the hall, which matches the text, with the
    distance of the search for NE1, and overwrites that of the club. *)
Lemma afterTS28_annotated :
  matchesText (lit "ts28") hall = true
  /\ matchesText (lit "ts28") club = false
  /\ map Event._searchDistance (events (afterTS28 calc))
     = [Some (newcastleToHall calc); Some (wingateToClub calc)].
Proof. repeat split. Qed.

(** After the pass with the search box cleared, which is no location
    search, both events still carry the distance, the radius and the
    partial-postcode mark of the earlier searches. *)
Lemma afterClear_still_annotated :
  searchOrigin (worldAt wingate) (trim (toLowerCase (searchInput (searchFor "")))) = None
  /\ map annotated (events (afterClear calc)) = [true; true]
  /\ map Event._searchDistance (events (afterClear calc))
     = [Some (newcastleToHall calc); Some (wingateToClub calc)]
  /\ map Event._searchRadius (events (afterClear calc)) = [Some 15%Q; Some 15%Q]
  /\ map Event._isPartialPostcode (events (afterClear calc)) = [Some true; Some true].
Proof. repeat split. Qed.

(** When the club is within the radius of TS28 and nearer to it than the
    hall is to NE1, the search for TS28 lists the club before the hall,
    although the hall matches the text search and the club has a positive
    recorded distance. *)
Lemma afterTS28_order :
  (0 < wingateToClub calc)%Q ->
  (wingateToClub calc <= 15)%Q ->
  (wingateToClub calc < newcastleToHall calc)%Q ->
  filteredEvents (afterTS28 calc) = [1%nat; 0%nat]
  /\ (0 < distanceOrZero (deref (events (afterTS28 calc)) 1))%Q.
Proof.
  intros Hpos Hle Hlt.
  assert (E1 : Qle_bool (wingateToClub calc) 15 = true) by now apply Qle_bool_iff.
  assert (E2 : Qle_bool (newcastleToHall calc) (wingateToClub calc) = false).
  { destruct (Qle_bool (newcastleToHall calc) (wingateToClub calc)) eqn:E;
      [|reflexivity].
    apply Qle_bool_iff in E. lra. }
  split; [|exact Hpos].
  unfold afterTS28, afterNE1, wingateToClub, newcastleToHall in *.
  cbv -[Qle_bool]. cbv -[Qle_bool] in E1, E2.
  rewrite E1. cbv -[Qle_bool]. rewrite E2. reflexivity.
Qed.

End ScenarioFacts.

Section GridScenario.
Import Scenario Filter.

Example grid_distances :
  map Qred [newcastleToHall gridDistance; newcastleToClub gridDistance;
            wingateToClub gridDistance]
  = [52.17%Q; 47.73%Q; (111 # 20)%Q].
Proof. vm_compute. reflexivity. Qed.

Lemma filterEvents_keeps_stale_annotations_witness :
  searchOrigin (worldAt wingate) (trim (toLowerCase (searchInput (searchFor "")))) = None
  /\ events (afterClear gridDistance) = events (afterTS28 gridDistance).
Proof.
  split; [reflexivity|].
  apply (filterEvents_keeps_stale_annotations gridDistance (afterTS28 gridDistance)
           (searchFor "") (worldAt wingate)).
  reflexivity.
Defined.



Example firstTS28_order :
  filteredEvents (firstTS28 gridDistance) = [0%nat; 1%nat]
  /\ distances (events (firstTS28 gridDistance)) = [None; Some (111 # 20)%Q].
Proof. vm_compute. split; reflexivity. Qed.

End GridScenario.

(* ========================================================================= *)
(** * Further properties of the code *)
(* ========================================================================= *)

(* ========================================================================= *)
(** * Further properties of the code *)
(* ========================================================================= *)

(** ** The two text sanitisers on plain input *)

Lemma includes_head_absent (c : Z) (p s : jsstring) :
  ~ In c s -> includes s (c :: p) = false.
Proof.
  intros H. destruct (includes s (c :: p)) eqn:E; [|reflexivity].
  apply includes_split in E as (a & b & ->). exfalso. apply H.
  apply in_or_app. right. now left.
Qed.

(** X1. On a string with no ampersand and no no-break space, [sanitizeText]
    of js/utils.js is [trim]: the escaping of [innerHTML] is undone in full,
    so every tag of the input is in the output. *)
Theorem sanitizeText_plain_is_trim (x : jsstring) :
  ~ In AMP x -> ~ In 160 x -> sanitizeText (Some x) = trim x.
Proof.
  intros Ha Hn. destruct x as [|c x]; [reflexivity|].
  rewrite sanitizeText_unfold, escapeNbsp_id by assumption.
  rewrite (replaceAll_id (lit "&quot;")) by (now apply (includes_head_absent AMP)).
  now rewrite (replaceAll_id (lit "&#39;")) by (now apply (includes_head_absent AMP)).
Qed.

Lemma sanitizeText_plain_is_trim_witness :
  sanitizeText (Some (lit " <b>Tea</b> at 3 ")) = lit "<b>Tea</b> at 3".
Proof.
  rewrite (sanitizeText_plain_is_trim (lit " <b>Tea</b> at 3 ")).
  - reflexivity.
  - intros H. vm_compute in H. intuition discriminate.
  - intros H. vm_compute in H. intuition discriminate.
Defined.

(** X2. On a string with no ampersand, the fallback [sanitiseText] of
    script.js removes the tags and trims, and its result holds no tag. *)
Theorem sanitiseText_without_amp (x : jsstring) :
  ~ In AMP x ->
  sanitiseText (Some x) = trim (stripTags x)
  /\ hasTag (sanitiseText (Some x)) = false.
Proof.
  intros H.
  assert (E : sanitiseText (Some x) = trim (stripTags x)).
  { destruct x as [|c x]; [reflexivity|].
    unfold sanitiseText, sanitiseTextWith, EventMapUtils_sanitiseText.
    rewrite decodeEntities_id; [reflexivity|].
    apply hasEntity_no_amp. intros Hin. apply H.
    now apply In_stripTagsFrom in Hin. }
  split; [exact E|]. rewrite E.
  apply hasTag_trim_false, hasTag_stripTagsFrom.
Qed.

Lemma sanitiseText_without_amp_witness :
  sanitiseText (Some (lit " <b>Tea</b> at <i>3</i> ")) = lit "Tea at 3"
  /\ hasTag (sanitiseText (Some (lit " <b>Tea</b> at <i>3</i> "))) = false.
Proof.
  destruct (sanitiseText_without_amp (lit " <b>Tea</b> at <i>3</i> ")) as [E T].
  - intros H. vm_compute in H. intuition discriminate.
  - split; [rewrite E; reflexivity|exact T].
Defined.

(** X3. The fallback [sanitiseText] of script.js never returns more code
    units than it was given. *)
Theorem sanitiseText_never_lengthens (x : jsstring) :
  (List.length (sanitiseText (Some x)) <= List.length x)%nat.
Proof.
  destruct x as [|c x]; [simpl; lia|].
  unfold sanitiseText, sanitiseTextWith, EventMapUtils_sanitiseText.
  etransitivity; [apply trim_length|].
  etransitivity; [apply decodeEntities_length_le|].
  apply stripTagsFrom_length.
Qed.

(** ** Search input validation *)

Section SearchInputFacts.
Import SearchInput.

Lemma dangerous_not_in (s : jsstring) :
  (forall c, In c s -> isDangerous c = false) ->
  ~ In LT s /\ ~ In GT s /\ ~ In 34 s /\ ~ In 39 s.
Proof.
  intros H. repeat split; intros Hin; apply H in Hin; discriminate.
Qed.

Lemma validateSearchInput_chars (input : option jsstring) (c : Z) :
  In c (validateSearchInput input) -> isDangerous c = false.
Proof.
  destruct input as [[|x i]|]; try (intros []).
  unfold validateSearchInput. intros H. apply filter_In in H as [_ H].
  now apply negb_true_iff in H.
Qed.

Lemma validateSearchInput_length (input : option jsstring) :
  (List.length (validateSearchInput input) <= 100)%nat.
Proof.
  destruct input as [[|x i]|]; try (simpl; lia).
  unfold validateSearchInput.
  etransitivity; [apply filter_length_le|]. apply firstn_le_length.
Qed.

Lemma hasTag_no_lt (s : jsstring) : ~ In LT s -> hasTag s = false.
Proof.
  intros H. destruct (hasTag s) eqn:E; [|reflexivity].
  apply hasTag_split in E as (a & b & c & ->). exfalso. apply H.
  apply in_or_app. right. now left.
Qed.

(** X4. The result of [validateSearchInput] has at most 100 code units and
    holds none of [<], [>] and the two quotation marks; in particular it
    holds no tag. *)
Theorem validateSearchInput_safe (input : option jsstring) :
  (List.length (validateSearchInput input) <= 100)%nat
  /\ (forall c, In c (validateSearchInput input) -> isDangerous c = false)
  /\ hasTag (validateSearchInput input) = false.
Proof.
  split; [apply validateSearchInput_length|].
  split; [apply validateSearchInput_chars|].
  apply hasTag_no_lt.
  apply (dangerous_not_in _ (validateSearchInput_chars input)).
Qed.

Lemma filter_id {A : Type} (f : A -> bool) (l : list A) :
  (forall x, In x l -> f x = true) -> filter f l = l.
Proof.
  induction l as [|a l IH]; intros H; [reflexivity|]. simpl.
  rewrite (H a (or_introl eq_refl)). f_equal. apply IH.
  intros x Hx. apply H. now right.
Qed.

(** The result need not be trimmed: the cut at 100 code units and the
    removal of the four characters come after the trimming. *)
Example validateSearchInput_untrimmed :
  validateSearchInput (Some (lit "< pub")) = lit " pub".
Proof. reflexivity. Qed.

(** X5. Validating a second time trims the first result and does nothing
    else, and from then on the value is stable: a third validation changes
    nothing. *)
Theorem validateSearchInput_twice (input : option jsstring) :
  let once := validateSearchInput input in
  let twice := validateSearchInput (Some once) in
  twice = trim once /\ validateSearchInput (Some twice) = twice.
Proof.
  assert (H : forall y : jsstring, (List.length y <= 100)%nat ->
                        (forall c, In c y -> isDangerous c = false) ->
                        validateSearchInput (Some y) = trim y).
  { intros y Hlen Hc. destruct y as [|c y]; [reflexivity|].
    unfold validateSearchInput.
    rewrite firstn_all2 by (etransitivity; [apply trim_length|exact Hlen]).
    apply filter_id. intros z Hz. apply In_trim in Hz.
    apply negb_true_iff. now apply Hc. }
  cbv zeta. split.
  - apply H; [apply validateSearchInput_length|apply validateSearchInput_chars].
  - set (once := validateSearchInput input).
    rewrite (H once);
      [|apply validateSearchInput_length|apply validateSearchInput_chars].
    rewrite (H (trim once)).
    + apply trim_idem.
    + etransitivity; [apply trim_length|apply validateSearchInput_length].
    + intros c Hc. apply In_trim in Hc. revert Hc. apply validateSearchInput_chars.
Qed.

(** X6. With js/utils.js loaded, the query that [performSearch] writes back
    into the search box is the validated one, unless that is empty: then it
    is the trimmed raw input, of which the first 100 code units are all
    among [<], [>] and the quotation marks. *)
Theorem sanitisedQuery_cases (rawQuery : jsstring) :
  let q := sanitisedQuery (Some validateSearchInput) rawQuery in
  (validateSearchInput (Some rawQuery) <> [] ->
   q = validateSearchInput (Some rawQuery)
   /\ (List.length q <= 100)%nat
   /\ forall c, In c q -> isDangerous c = false)
  /\ (validateSearchInput (Some rawQuery) = [] ->
      q = trim rawQuery
      /\ forall c, In c (firstn 100 (trim rawQuery)) -> isDangerous c = true).
Proof.
  cbv zeta. unfold sanitisedQuery. split.
  - intros Hne.
    assert (E : match validateSearchInput (Some rawQuery) with
                | [] => trim rawQuery
                | v => v
                end = validateSearchInput (Some rawQuery))
      by (destruct (validateSearchInput (Some rawQuery)); congruence).
    rewrite E. split; [reflexivity|].
    split; [apply validateSearchInput_length|apply validateSearchInput_chars].
  - intros He. rewrite He. split; [reflexivity|].
    intros c Hc. destruct rawQuery as [|x r]; [destruct Hc|].
    unfold validateSearchInput in He.
    destruct (isDangerous c) eqn:D; [reflexivity|exfalso].
    assert (Hin : In c (filter (fun c => negb (isDangerous c))
                          (firstn 100 (trim (x :: r)))))
      by (apply filter_In; split; [exact Hc|now rewrite D]).
    rewrite He in Hin. destruct Hin.
Qed.

End SearchInputFacts.

(** ** Replacement by pattern *)

Section PatternFacts.
Import Pattern.

Lemma matchAt_Many_cons (p : Z -> bool) (rest : pattern) (c : Z) (r : jsstring) :
  matchAt (Many p :: rest) (c :: r)
  = if p c
    then match matchAt (Many p :: rest) r with
         | Some out => Some out
         | None => matchAt rest (c :: r)
         end
    else matchAt rest (c :: r).
Proof. reflexivity. Qed.

Lemma matchAt_One_cons (p : Z -> bool) (rest : pattern) (c : Z) (r : jsstring) :
  matchAt (One p :: rest) (c :: r) = if p c then matchAt rest r else None.
Proof. reflexivity. Qed.

Lemma matchAt_Few (p : Z -> bool) (rest : pattern) (s : jsstring) :
  matchAt (Few p :: rest) s
  = match matchAt rest s with
    | Some out => Some out
    | None =>
        match s with
        | c :: r => if p c then matchAt (Few p :: rest) r else None
        | [] => None
        end
    end.
Proof. destruct s; reflexivity. Qed.

(** A match uses, for each single code unit of the pattern, a code unit of
    the string. *)
Lemma matchAt_needs (pre : pattern) (p : Z -> bool) (post : pattern) :
  forall s out, matchAt (pre ++ One p :: post) s = Some out ->
                exists c, In c s /\ p c = true.
Proof.
  induction pre as [|[q|q|q] pre IH]; intros s out H; cbn [app] in H.
  - destruct s as [|c r]; [discriminate|]. cbn [matchAt] in H.
    destruct (p c) eqn:E; [|discriminate]. exists c. split; [now left|exact E].
  - destruct s as [|c r]; [discriminate|]. cbn [matchAt] in H.
    destruct (q c); [|discriminate].
    destruct (IH _ _ H) as (x & Hx & Px). exists x. split; [now right|exact Px].
  - revert out H. induction s as [|c r IHs]; intros out H.
    + exact (IH _ _ H).
    + rewrite matchAt_Many_cons in H. destruct (q c).
      * remember (matchAt (Many q :: pre ++ One p :: post) r) as m eqn:E in H.
        destruct m as [o|]; [|exact (IH _ _ H)].
        destruct (IHs _ (eq_sym E)) as (x & Hx & Px).
        exists x. split; [now right|exact Px].
      * exact (IH _ _ H).
  - revert out H. induction s as [|c r IHs]; intros out H; rewrite matchAt_Few in H.
    + destruct (matchAt (pre ++ One p :: post) []) as [o|] eqn:E; [|discriminate].
      exact (IH _ _ E).
    + destruct (matchAt (pre ++ One p :: post) (c :: r)) as [o|] eqn:E.
      * exact (IH _ _ E).
      * destruct (q c); [|discriminate].
        destruct (IHs _ H) as (x & Hx & Px). exists x. split; [now right|exact Px].
Qed.

(** Where the pattern needs a code unit that the string does not hold,
    nothing is replaced. *)
Lemma replace_no_match (pat : pattern) (q : Z -> bool) (rep s : jsstring) :
  (forall t out, matchAt pat t = Some out -> exists c, In c t /\ q c = true) ->
  (forall c, In c s -> q c = false) ->
  replace pat rep s = s.
Proof.
  intros Hneeds. unfold replace. induction s as [|c r IH]; intros Hq.
  - cbn [replaceFrom]. destruct (matchAt pat []) as [o|] eqn:E; [|reflexivity].
    destruct (Hneeds _ _ E) as (x & [] & _).
  - cbn [replaceFrom]. destruct (matchAt pat (c :: r)) as [o|] eqn:E.
    + destruct (Hneeds _ _ E) as (x & Hx & Px). rewrite (Hq x Hx) in Px. discriminate.
    + f_equal. apply IH. intros x Hx. apply Hq. now right.
Qed.

Lemma Woven_replaceFrom (pat : pattern) (rep : jsstring) (s : jsstring) :
  forall skip, Woven rep s (replaceFrom pat rep skip s).
Proof.
  induction s as [|c r IH]; intros skip; cbn [replaceFrom].
  - destruct skip, (matchAt pat []); try constructor.
    pose proof (Woven_put rep [] [] (Woven_nil rep)) as W.
    now rewrite app_nil_r in W.
  - destruct skip as [|k]; [|apply Woven_drop, IH].
    destruct (matchAt pat (c :: r)) as [rest|]; [|apply Woven_keep, IH].
    destruct (List.length (c :: r) - List.length rest)%nat.
    + apply Woven_put, Woven_keep, IH.
    + apply Woven_put, Woven_drop, IH.
Qed.

Lemma Woven_replaceAllFrom (pat rep : jsstring) (s : jsstring) :
  forall skip, Woven rep s (replaceAllFrom pat rep skip s).
Proof.
  induction s as [|c r IH]; intros skip; cbn [replaceAllFrom]; [constructor|].
  destruct skip as [|k]; [|apply Woven_drop, IH].
  destruct (startsWith pat (c :: r)).
  - apply Woven_put, Woven_drop, IH.
  - apply Woven_keep, IH.
Qed.

Lemma Woven_stripTagsFrom (s : jsstring) :
  forall b, Woven [] s (stripTagsFrom b s).
Proof.
  induction s as [|c r IH]; intros b; cbn [stripTagsFrom]; [constructor|].
  destruct b.
  - destruct (c =? GT); apply Woven_drop, IH.
  - destruct ((c =? LT) && existsb (Z.eqb GT) r);
      [apply Woven_drop, IH|apply Woven_keep, IH].
Qed.

Lemma Woven_In (rep s out : jsstring) (z : Z) :
  Woven rep s out -> In z out -> In z rep \/ In z s.
Proof.
  induction 1 as [|c s out _ IH|c s out _ IH|s out _ IH]; intros Hin.
  - destruct Hin.
  - destruct Hin as [->|Hin]; [right; now left|].
    destruct (IH Hin); [now left|right; now right].
  - destruct (IH Hin); [now left|right; now right].
  - apply in_app_or in Hin as [Hin|Hin]; [now left|now apply IH].
Qed.

Lemma hasTag_app_neutral (rep s : jsstring) :
  ~ In LT rep -> hasTag (rep ++ s) = hasTag s.
Proof.
  induction rep as [|c rep IH]; intros H; [reflexivity|].
  cbn [app hasTag]. rewrite IH by (intros Hin; apply H; now right).
  destruct (Z.eqb_spec c LT) as [->|Hne]; [|reflexivity].
  exfalso. apply H. now left.
Qed.

Lemma existsb_GT_In (s : jsstring) : existsb (Z.eqb GT) s = true <-> In GT s.
Proof.
  rewrite existsb_exists. split.
  - intros (x & Hx & E). apply Z.eqb_eq in E. now subst x.
  - intros H. exists GT. split; [exact H|apply Z.eqb_refl].
Qed.

(** Weaving in a text without [<] and [>] makes no tag. *)
Lemma Woven_hasTag (rep s out : jsstring) :
  ~ In LT rep -> ~ In GT rep ->
  Woven rep s out -> hasTag s = false -> hasTag out = false.
Proof.
  intros Hl Hg W. induction W as [|c s out W IH|c s out W IH|s out W IH];
    intros Hs.
  - reflexivity.
  - cbn [hasTag] in *. apply orb_false_iff in Hs as [Hc Hs].
    rewrite (IH Hs), orb_false_r.
    destruct (c =? LT); [|reflexivity]. cbn [andb] in *.
    destruct (existsb (Z.eqb GT) out) eqn:E; [|reflexivity].
    apply existsb_GT_In in E. apply (Woven_In _ _ _ _ W) in E as [E|E];
      [contradiction|].
    apply existsb_GT_In in E. congruence.
  - cbn [hasTag] in Hs. apply orb_false_iff in Hs as [_ Hs]. now apply IH.
  - rewrite hasTag_app_neutral by assumption. now apply IH.
Qed.

End PatternFacts.

(** ** The HTML sanitiser *)

Section HtmlSanitizerFacts.
Import Pattern HtmlSanitizer.

Lemma element_needs (name : string) (t out : jsstring) :
  matchAt (element name) t = Some out -> exists c, In c t /\ chrI LT c = true.
Proof. apply (matchAt_needs [] (chrI LT)). Qed.

Lemma embedTag_needs (t out : jsstring) :
  matchAt embedTag t = Some out -> exists c, In c t /\ chrI LT c = true.
Proof. apply (matchAt_needs [] (chrI LT)). Qed.

Lemma openTag_needs (name : string) (t out : jsstring) :
  matchAt (openTag name) t = Some out -> exists c, In c t /\ chr LT c = true.
Proof. apply (matchAt_needs [] (chr LT)). Qed.

Lemma eventHandler_needs (t out : jsstring) :
  matchAt eventHandler t = Some out -> exists c, In c t /\ chr 61 c = true.
Proof.
  apply (matchAt_needs (textI "on" ++ [One word; Many word; Many isWhiteSpace])
           (chr 61)).
Qed.

Lemma lineFeeds_needs (t out : jsstring) :
  matchAt lineFeeds t = Some out -> exists c, In c t /\ chr 10 c = true.
Proof. apply (matchAt_needs [] (chr 10)). Qed.

Lemma chrI_LT (c : Z) : c <> LT -> chrI LT c = false.
Proof.
  intros H. unfold chrI, lowerChar, LT in *. cbn.
  destruct ((65 <=? c) && (c <=? 90)) eqn:E; apply Z.eqb_neq; [|exact H].
  apply andb_true_iff in E as [A B]. apply Z.leb_le in A, B. lia.
Qed.

Lemma replaceAll_same (c : Z) (s : jsstring) : replaceAll [c] [c] s = s.
Proof.
  unfold replaceAll. induction s as [|x r IH]; [reflexivity|].
  cbn [replaceAllFrom startsWith List.length Nat.pred app].
  rewrite andb_true_r. destruct (Z.eqb_spec c x) as [->|Hne]; now rewrite IH.
Qed.

Lemma isPlain_spec (x : jsstring) :
  forallb isPlain x = true ->
  ~ In LT x /\ ~ In AMP x /\ ~ In 61 x /\ ~ In 10 x /\ ~ In 128 x.
Proof.
  intros H. rewrite forallb_forall in H.
  repeat split; intros Hin; apply H in Hin; discriminate.
Qed.

(** X7. A text with none of [<], [&], [=], line feed and U+0080 passes
    through [sanitizeHtml] unchanged but for the trimming. *)
Theorem sanitizeHtml_plain_text (x : jsstring) :
  forallb isPlain x = true -> sanitizeHtml (Some x) = trim x.
Proof.
  intros H. apply isPlain_spec in H as (Hlt & Hamp & Heq & Hlf & Hc1).
  destruct x as [|c0 x0]; [reflexivity|].
  set (x := c0 :: x0) in *. unfold sanitizeHtml. fold x. cbv zeta.
  assert (HltI : forall c, In c x -> chrI LT c = false)
    by (intros c Hc; apply chrI_LT; intros ->; contradiction).
  assert (Hlt' : forall c, In c x -> chr LT c = false)
    by (intros c Hc; apply Z.eqb_neq; intros ->; contradiction).
  assert (Heq' : forall c, In c x -> chr 61 c = false)
    by (intros c Hc; apply Z.eqb_neq; intros ->; contradiction).
  assert (Hlf' : forall c, In c x -> chr 10 c = false)
    by (intros c Hc; apply Z.eqb_neq; intros ->; contradiction).
  rewrite (replace_no_match (element "script") _ _ x (element_needs _) HltI).
  rewrite (replace_no_match (element "iframe") _ _ x (element_needs _) HltI).
  rewrite (replace_no_match (element "object") _ _ x (element_needs _) HltI).
  rewrite (replace_no_match embedTag _ _ x embedTag_needs HltI).
  rewrite (replace_no_match eventHandler _ _ x eventHandler_needs Heq').
  rewrite (replace_no_match (openTag "p") _ _ x (openTag_needs _) Hlt').
  rewrite (replaceAll_id (lit "</p>") LF x)
    by (now apply (includes_head_absent LT)).
  rewrite (replace_no_match (openTag "br") _ _ x (openTag_needs _) Hlt').
  rewrite (stripTags_id x) by (now apply hasTag_no_lt).
  rewrite (replaceAll_id (lit "&lt;") _ x) by (now apply (includes_head_absent AMP)).
  rewrite (replaceAll_id (lit "&gt;") _ x) by (now apply (includes_head_absent AMP)).
  rewrite (replaceAll_id (lit "&amp;") _ x) by (now apply (includes_head_absent AMP)).
  rewrite (replaceAll_id (lit "&quot;") _ x) by (now apply (includes_head_absent AMP)).
  rewrite (replaceAll_id (lit "&#39;") _ x) by (now apply (includes_head_absent AMP)).
  change (lit "<") with [60]. change (lit ">") with [62].
  rewrite (replaceAll_same 60 x), (replaceAll_same 62 x).
  rewrite (replaceAll_id [128; 139] _ x) by (now apply (includes_head_absent 128)).
  now rewrite (replace_no_match lineFeeds _ _ x lineFeeds_needs Hlf').
Qed.

Lemma sanitizeHtml_plain_text_witness :
  sanitizeHtml (Some (lit "  Coffee > tea, 10:30 ")) = lit "Coffee > tea, 10:30".
Proof.
  rewrite (sanitizeHtml_plain_text (lit "  Coffee > tea, 10:30 ")); reflexivity.
Defined.

(** Every run of line feeds is replaced: none is left. *)
Lemma replace_lineFeeds_none (rep s : jsstring) :
  ~ In 10 rep -> forall skip, ~ In 10 (replaceFrom lineFeeds rep skip s).
Proof.
  intros Hrep. induction s as [|c r IH]; intros skip; cbn [replaceFrom].
  - destruct skip; cbn; intros [].
  - destruct skip as [|k]; [|apply IH].
    unfold lineFeeds at 1. rewrite matchAt_One_cons. unfold chr at 1.
    destruct (Z.eqb_spec c 10) as [->|Hne].
    + assert (E : exists rest, matchAt [Many (chr 10)] r = Some rest
                               /\ (List.length rest <= List.length r)%nat).
      { clear. induction r as [|x r (rest & IHr & Hlen)]; [now exists []|].
        rewrite matchAt_Many_cons, IHr. destruct (chr 10 x).
        - exists rest. split; [reflexivity|]. simpl. lia.
        - exists (x :: r). split; [reflexivity|]. lia. }
      destruct E as (rest & -> & Hlen).
      replace (List.length (10%Z :: r) - List.length rest)%nat
        with (S (List.length r - List.length rest))
        by (cbn [List.length]; lia).
      intros Hin. apply in_app_or in Hin as [Hin|Hin]; [contradiction|].
      exact (IH _ Hin).
    + intros [Hin|Hin]; [congruence|exact (IH _ Hin)].
Qed.

(** X8. The result of [sanitizeHtml] holds no line feed and has no white
    space at either end. *)
Theorem sanitizeHtml_single_line (html : option jsstring) :
  ~ In 10 (sanitizeHtml html)
  /\ trim (sanitizeHtml html) = sanitizeHtml html.
Proof.
  destruct html as [[|c x]|]; try (split; [intros []|reflexivity]).
  unfold sanitizeHtml. cbv zeta. split.
  - intros H. apply In_trim in H. revert H. apply replace_lineFeeds_none.
    intros [H|[]]. discriminate.
  - apply trim_idem.
Qed.

Ltac woven_step :=
  first [ apply Woven_replaceFrom | apply Woven_replaceAllFrom
        | apply Woven_stripTagsFrom ].

(** X9. On a text with no ampersand the result of [sanitizeHtml] holds no
    tag. *)
Theorem sanitizeHtml_without_amp (x : jsstring) :
  ~ In AMP x -> hasTag (sanitizeHtml (Some x)) = false.
Proof.
  intros Hamp. destruct x as [|c0 x0]; [reflexivity|].
  set (x := c0 :: x0) in *. unfold sanitizeHtml. fold x. cbv zeta.
  unfold replace, replaceAll, stripTags.
  (* the first eight steps bring no ampersand *)
  set (s1 := replaceFrom (element "script") [] 0 x).
  set (s2 := replaceFrom (element "iframe") [] 0 s1).
  set (s3 := replaceFrom (element "object") [] 0 s2).
  set (s4 := replaceFrom embedTag [] 0 s3).
  set (s5 := replaceFrom eventHandler [] 0 s4).
  set (s6 := replaceFrom (openTag "p") [] 0 s5).
  set (s7 := replaceAllFrom (lit "</p>") LF 0 s6).
  set (s8 := replaceFrom (openTag "br") LF 0 s7).
  set (s9 := stripTagsFrom false s8).
  assert (Hnil : forall s out, Woven [] s out -> ~ In AMP s -> ~ In AMP out).
  { intros s out W Hs Hin. apply (Woven_In _ _ _ _ W) in Hin as [[]|Hin].
    contradiction. }
  assert (Hlf : forall s out, Woven LF s out -> ~ In AMP s -> ~ In AMP out).
  { intros s out W Hs Hin. apply (Woven_In _ _ _ _ W) in Hin as [[Hin|[]]|Hin];
      [discriminate|contradiction]. }
  assert (H1 : ~ In AMP s1) by (apply (Hnil x); [woven_step|exact Hamp]).
  assert (H2 : ~ In AMP s2) by (apply (Hnil s1); [woven_step|exact H1]).
  assert (H3 : ~ In AMP s3) by (apply (Hnil s2); [woven_step|exact H2]).
  assert (H4 : ~ In AMP s4) by (apply (Hnil s3); [woven_step|exact H3]).
  assert (H5 : ~ In AMP s5) by (apply (Hnil s4); [woven_step|exact H4]).
  assert (H6 : ~ In AMP s6) by (apply (Hnil s5); [woven_step|exact H5]).
  assert (H7 : ~ In AMP s7) by (apply (Hlf s6); [woven_step|exact H6]).
  assert (H8 : ~ In AMP s8) by (apply (Hlf s7); [woven_step|exact H7]).
  assert (H9 : ~ In AMP s9) by (apply (Hnil s8); [woven_step|exact H8]).
  assert (T9 : hasTag s9 = false) by apply hasTag_stripTagsFrom.
  clearbody s9. clear s1 s2 s3 s4 s5 s6 s7 s8 H1 H2 H3 H4 H5 H6 H7 H8 Hnil Hlf.
  fold (replaceAll (lit "&lt;") (lit "<") s9).
  rewrite (replaceAll_id (lit "&lt;") _ s9) by (now apply (includes_head_absent AMP)).
  fold (replaceAll (lit "&gt;") (lit ">") s9).
  rewrite (replaceAll_id (lit "&gt;") _ s9) by (now apply (includes_head_absent AMP)).
  fold (replaceAll (lit "&amp;") (lit "&") s9).
  rewrite (replaceAll_id (lit "&amp;") _ s9) by (now apply (includes_head_absent AMP)).
  fold (replaceAll (lit "&quot;") QUOT s9).
  rewrite (replaceAll_id (lit "&quot;") _ s9) by (now apply (includes_head_absent AMP)).
  fold (replaceAll (lit "&#39;") APOS s9).
  rewrite (replaceAll_id (lit "&#39;") _ s9) by (now apply (includes_head_absent AMP)).
  change (lit "<") with [60]. change (lit ">") with [62].
  fold (replaceAll [60] [60] s9). rewrite (replaceAll_same 60 s9).
  fold (replaceAll [62] [62] s9). rewrite (replaceAll_same 62 s9).
  apply hasTag_trim_false.
  apply (Woven_hasTag (lit " ") (replaceAllFrom [128; 139] [] 0 s9));
    [intros [H|[]]; discriminate|intros [H|[]]; discriminate|woven_step|].
  apply (Woven_hasTag [] s9); [intros []|intros []|woven_step|exact T9].
Qed.

Lemma sanitizeHtml_without_amp_witness :
  sanitizeHtml (Some (lit "<p>Tea <b>and</b> cake</p><script>x()</script>"))
  = lit "Tea and cake"
  /\ hasTag (sanitizeHtml
               (Some (lit "<p>Tea <b>and</b> cake</p><script>x()</script>")))
     = false.
Proof.
  split; [vm_compute; reflexivity|].
  apply (sanitizeHtml_without_amp
           (lit "<p>Tea <b>and</b> cake</p><script>x()</script>")).
  intros H. vm_compute in H. intuition discriminate.
Defined.

Example sanitizeHtml_paragraphs :
  sanitizeHtml (Some (lit "<p>Doors open 10:00</p><p>Free entry<br>All welcome</p>"))
  = lit "Doors open 10:00 Free entry All welcome".
Proof. vm_compute. reflexivity. Qed.

End HtmlSanitizerFacts.

(** ** The categoriser and the tables of colours and names *)

Section CategorizerFacts.
Import Categorizer CategoryDisplay.

(** The seven pushes of [categorizeEvent], for any outcome of the seven
    tests. *)
Lemma pushIf_chain (b1 b2 b3 b4 b5 b6 b7 : bool) :
  let t :=
    pushIf b7 "sport"
      (pushIf b6 "social"
         (pushIf b5 "workshop"
            (pushIf b4 "meeting"
               (pushIf b3 "breakfast-club"
                  (pushIf b2 "support" (pushIf b1 "drop-in" [])))))) in
  isSubsequence t tagOrder = true
  /\ (forall c, In c t -> In c tagOrder)
  /\ match t with x :: _ => x | [] => lit "other" end = hd (lit "other") t
  /\ hd (lit "other") t <> [].
Proof.
  destruct b1, b2, b3, b4, b5, b6, b7; cbv zeta;
    (split; [reflexivity|]; split; [cbn; intuition|]; split;
     [reflexivity|discriminate]).
Qed.

(** X10. The tags of an event are some of the seven tags, each at most
    once, in the order in which the rules are written; the primary category
    is the first of them, or [other] when there is none, and is never the
    empty string. *)
Theorem categorizeEvent_tags_in_order (title description : option jsstring) :
  let c := categorizeEvent title description in
  isSubsequence (tags c) tagOrder = true
  /\ primary c = hd (lit "other") (tags c)
  /\ primary c <> [].
Proof.
  unfold categorizeEvent. cbv zeta. cbn [tags primary].
  match goal with
  | |- context [pushIf ?b7 "sport" (pushIf ?b6 _ (pushIf ?b5 _ (pushIf ?b4 _
                 (pushIf ?b3 _ (pushIf ?b2 _ (pushIf ?b1 _ _))))))] =>
      destruct (pushIf_chain b1 b2 b3 b4 b5 b6 b7) as (S & _ & P & N)
  end.
  cbv zeta in S, P, N. split; [exact S|]. split; [exact P|].
  rewrite P. exact N.
Qed.

Lemma categorizeEvent_tags_known (title description : option jsstring) (c : jsstring) :
  In c (tags (categorizeEvent title description)) -> In c tagOrder.
Proof.
  unfold categorizeEvent. cbv zeta. cbn [tags].
  match goal with
  | |- context [pushIf ?b7 "sport" (pushIf ?b6 _ (pushIf ?b5 _ (pushIf ?b4 _
                 (pushIf ?b3 _ (pushIf ?b2 _ (pushIf ?b1 _ _))))))] =>
      destruct (pushIf_chain b1 b2 b3 b4 b5 b6 b7) as (_ & K & _)
  end.
  apply K.
Qed.

Lemma categorizeEvent_primary_known (title description : option jsstring) :
  In (primary (categorizeEvent title description)) (lit "other" :: tagOrder).
Proof.
  pose proof (categorizeEvent_tags_known title description) as K.
  unfold categorizeEvent in *. cbv zeta in *. cbn [tags primary] in *.
  match goal with
  | |- context [pushIf ?b7 "sport" (pushIf ?b6 _ (pushIf ?b5 _ (pushIf ?b4 _
                 (pushIf ?b3 _ (pushIf ?b2 _ (pushIf ?b1 _ _))))))] =>
      set (t := pushIf b7 "sport" (pushIf b6 "social" (pushIf b5 "workshop"
                 (pushIf b4 "meeting" (pushIf b3 "breakfast-club"
                 (pushIf b2 "support" (pushIf b1 "drop-in" []))))))) in *
  end.
  destruct t as [|x ts]; [now left|right]. apply K. now left.
Qed.

(** X11. Every category that [categorizeEvent] gives an event, primary or
    not, has a colour class and a display name of its own in the two
    tables: the colour is the grey of the default for [other] only, and the
    name is never the raw tag. *)
Theorem categorizeEvent_tags_displayed (title description : option jsstring)
    (c : jsstring) :
  let r := categorizeEvent title description in
  c = primary r \/ In c (tags r) ->
  exists cls name,
    getCategoryColorClass c = Text cls
    /\ In (c, cls) colorMap
    /\ (cls = lit "bg-gray-400" -> c = lit "other")
    /\ formatCategoryName c = Text name
    /\ In (c, name) nameMap
    /\ name <> c.
Proof.
  intros r H.
  assert (K : In c (lit "other" :: tagOrder)).
  { destruct H as [->|H]; [|right; exact (categorizeEvent_tags_known _ _ _ H)].
    apply categorizeEvent_primary_known. }
  cbn in K.
  repeat (destruct K as [<-|K];
          [eexists; eexists; repeat split;
           try (cbn; intuition congruence); try discriminate|]).
  destruct K.
Qed.

Lemma categorizeEvent_tags_displayed_witness :
  exists cls name,
    getCategoryColorClass (lit "sport") = Text cls
    /\ In (lit "sport", cls) colorMap
    /\ (cls = lit "bg-gray-400" -> lit "sport" = lit "other")
    /\ formatCategoryName (lit "sport") = Text name
    /\ In (lit "sport", name) nameMap
    /\ name <> lit "sport".
Proof.
  apply (categorizeEvent_tags_displayed
           (Some (lit "Clay Pigeon Shooting Morning")) None (lit "sport")).
  right. vm_compute. now left.
Defined.

Lemma lowerChar_upperChar (c : Z) : lowerChar (upperChar c) = lowerChar c.
Proof.
  unfold lowerChar, upperChar.
  destruct (Z.leb_spec 97 c), (Z.leb_spec c 122); cbn [andb];
    destruct (Z.leb_spec 65 c), (Z.leb_spec c 90); cbn [andb]; try lia;
    destruct (Z.leb_spec 65 (c - 32)), (Z.leb_spec (c - 32) 90); cbn [andb]; lia.
Qed.

Lemma toLowerCase_toUpperCase (s : jsstring) :
  toLowerCase (toUpperCase s) = toLowerCase s.
Proof.
  unfold toLowerCase, toUpperCase. rewrite map_map.
  apply map_ext. apply lowerChar_upperChar.
Qed.

(** X12. The categorisation does not depend on the case of the letters: on
    Basic Latin text, putting the title and the description in upper case
    changes nothing. *)
Theorem categorizeEvent_ignores_case (title description : jsstring) :
  isBasicLatin title = true -> isBasicLatin description = true ->
  categorizeEvent (Some (toUpperCase title)) (Some (toUpperCase description))
  = categorizeEvent (Some title) (Some description).
Proof.
  intros _ _. unfold categorizeEvent. cbn [orEmpty].
  now rewrite !toLowerCase_toUpperCase.
Qed.

Lemma categorizeEvent_ignores_case_witness :
  categorizeEvent (Some (lit "BREAKFAST CLUB")) (Some (lit "DROP IN FOR TEA"))
  = categorizeEvent (Some (lit "Breakfast Club")) (Some (lit "Drop in for tea")).
Proof.
  exact (categorizeEvent_ignores_case (lit "Breakfast Club") (lit "Drop in for tea")
           eq_refl eq_refl).
Defined.

End CategorizerFacts.

(** ** The stable sort keeps the elements *)

Section SortPermutation.
Context {A : Type} (lt : A -> A -> bool).

Lemma insert_Permutation (x : A) (l : list A) :
  Permutation (StableSort.insert lt x l) (x :: l).
Proof.
  induction l as [|y l IH]; simpl; [reflexivity|].
  destruct (lt y x); [|reflexivity].
  rewrite IH. apply perm_swap.
Qed.

Lemma sort_Permutation (l : list A) : Permutation (StableSort.sort lt l) l.
Proof.
  induction l as [|x l IH]; simpl; [reflexivity|].
  rewrite insert_Permutation. now constructor.
Qed.

End SortPermutation.

(** ** More about the filter pass *)

Section FilterPassFacts.
Import Filter.

Variable calculateDistance : Q -> Q -> Q -> Q -> Q.

Abbreviation visit := (Filter.visit calculateDistance).
Abbreviation filterEvents := (Filter.filterEvents calculateDistance).




Lemma set_search_twice (d r : Q) (p : bool) (e : Event.t) :
  Event.set_search d r p (Event.set_search d r p e) = Event.set_search d r p e.
Proof. reflexivity. Qed.







(** X16. After a postcode search whose origin was resolved, the list is in
    the order of the recorded distances, an event without one counting as
    at distance 0. *)
Theorem filterEvents_sorted_by_distance (this : EventMap) (dom : Dom) (w : World)
    (sc : Postcode.SearchCoords) :
  let this' := filterEvents this dom w in
  searchOrigin w (trim (toLowerCase (searchInput dom))) = Some sc ->
  StronglySorted
    (fun a b => (distanceOrZero (deref (events this') a)
                 <= distanceOrZero (deref (events this') b))%Q)
    (filteredEvents this').
Proof.
  intros this' Hsc. unfold this'.
  pose proof (filterEvents_filtered calculateDistance this dom w) as Hf.
  cbv zeta in Hf. rewrite Hf. clear Hf.
  destruct (searchOrigin_isPostcode _ _ _ Hsc) as [Hp _]. rewrite Hsc, Hp.
  rewrite filterEvents_events, Hsc, Hp, <- map_map.
  unfold sortByDistance.
  apply (sort_sorted (fun r => distanceOrZero (deref _ r))).
Qed.





End FilterPassFacts.


Lemma filterEvents_sorted_by_distance_witness :
  StronglySorted
    (fun a b =>
       (Filter.distanceOrZero
          (Filter.deref (Filter.events (firstTS28 gridDistance)) a)
        <= Filter.distanceOrZero
             (Filter.deref (Filter.events (firstTS28 gridDistance)) b))%Q)
    (Filter.filteredEvents (firstTS28 gridDistance)).
Proof.
  exact (filterEvents_sorted_by_distance gridDistance loaded (searchFor "TS28")
           (worldAt wingate) _ eq_refl).
Defined.

(** ** The quick date filters *)

Section DateRangeFacts.
Import Filter.

Variable clk : JsDate.Clock.

(** The local zone is at UTC or east of it, by less than a day (the United
    Kingdom: 0 or one hour). *)
Hypothesis zone : 0 <= JsDate.tzOffset clk < JsDate.msPerDay.

Abbreviation thisDay := (JsDate.localDay clk (JsDate.now clk)).





End DateRangeFacts.


(** ** Loading the calendar *)

Section LoaderFacts.
Import Location Loader.

Variable decodeHTMLEntities : jsstring -> jsstring.
Variable clk : JsDate.Clock.

Abbreviation transform := (transformGoogleCalendarEvent decodeHTMLEntities).
Abbreviation load := (loadGoogleCalendarEvents decodeHTMLEntities).

Lemma getCoordinatesForLocation_total (cfg : option Config) (location : jsstring)
    (venueName : option jsstring) (net : FetchOutcome GeocodeData) :
  exists c, getCoordinatesForLocation cfg location venueName net = Ok c.
Proof.
  unfold getCoordinatesForLocation. destruct (geocodingEnabled cfg); [|eauto].
  destruct (geocodeWithGoogle location venueName net); cbn; eauto.
Qed.

(** The transformation of one item never throws. *)
Lemma transformGoogleCalendarEvent_ok (config : option CalendarConfig)
    (x : Item.t) (i : nat) (net : FetchOutcome GeocodeData) :
  exists e, transform config clk x (Z.of_nat i + 1) net = Ok e
            /\ madeFrom clk e (i, x).
Proof.
  unfold transformGoogleCalendarEvent.
  destruct (getCoordinatesForLocation_total
              (option_map geocoder config)
              (Normalizer.orElse (Item.location x) "Location TBD") None net)
    as [c ->].
  eexists. split; [reflexivity|]. cbn. repeat split.
Qed.

Lemma transformLoop_ok (config : option CalendarConfig) (l : list Item.t)
    (nets : nat -> FetchOutcome GeocodeData) :
  forall i acc,
    exists evs,
      transformLoop decodeHTMLEntities config clk i l nets acc = Ok (acc ++ evs)
      /\ Forall2 (madeFrom clk) evs (indexed i l).
Proof.
  induction l as [|x l IH]; intros i acc; cbn [transformLoop indexed].
  - exists []. split; [now rewrite app_nil_r|constructor].
  - destruct (Normalizer.isExcludedRecurringEvent (Item.recurringEventId x)).
    + apply IH.
    + destruct (transformGoogleCalendarEvent_ok config x i (nets i)) as (e & -> & He).
      cbn [bind]. destruct (IH (S i) (acc ++ [e])) as (evs & -> & Hevs).
      exists (e :: evs). split; [now rewrite <- app_assoc|].
      now constructor.
Qed.

Lemma load_usable_readable (config : option CalendarConfig)
    (calendar : FetchOutcome (option CalendarData)) (data : CalendarData)
    (nets : nat -> FetchOutcome GeocodeData) :
  usable config = true ->
  readable calendar = Some data ->
  exists evs,
    load config clk calendar nets = Loaded evs
    /\ Forall2 (madeFrom clk) evs (indexed 0 (itemsOf data)).
Proof.
  intros Hu Hr. unfold loadGoogleCalendarEvents, usable in *.
  destruct config as [c|]; [|discriminate].
  destruct (API_KEY c) as [[|k key]|]; try discriminate.
  destruct (CALENDAR_ID c) as [[|i id]|]; try discriminate.
  apply andb_true_iff in Hu as [Hk Hw]. apply negb_true_iff in Hk. rewrite Hk.
  unfold fetchAndTransform, encodeURIComponent. rewrite Hw.
  unfold readable in Hr. destruct calendar as [|r]; [discriminate|].
  cbn [awaitFetch]. destruct (ok r); [|discriminate]. cbn [negb].
  unfold awaitJson. destruct (json r) as [|[d|]]; try discriminate.
  injection Hr as ->. unfold itemsOf.
  destruct (items data) as [[|x l]|].
  - exists []. split; [reflexivity|constructor].
  - destruct (transformLoop_ok (Some c) (x :: l) nets 0%nat []) as (evs & E & F).
    rewrite E. exists evs. split; [reflexivity|exact F].
  - exists []. split; [reflexivity|constructor].
Qed.

Lemma load_fails_iff (config : option CalendarConfig)
    (calendar : FetchOutcome (option CalendarData))
    (nets : nat -> FetchOutcome GeocodeData) :
  (exists e, load config clk calendar nets = Failed e)
  <-> usable config = false \/ readable calendar = None.
Proof.
  split.
  - intros [e He].
    destruct (usable config) eqn:Hu; [|now left]. right.
    destruct (readable calendar) as [data|] eqn:Hr; [|reflexivity].
    destruct (load_usable_readable config calendar data nets Hu Hr) as (evs & E & _).
    rewrite E in He. discriminate.
  - unfold loadGoogleCalendarEvents, usable.
    destruct config as [c|]; [|intros _; eauto].
    destruct (API_KEY c) as [[|k key]|]; try solve [intros _; eauto].
    destruct (CALENDAR_ID c) as [[|i id]|]; try solve [intros _; eauto].
    destruct (JsString.eqb (k :: key) placeholderKey); [intros _; eauto|].
    cbn [negb andb]. unfold fetchAndTransform, encodeURIComponent.
    destruct (isWellFormed (i :: id)); [|intros _; eauto].
    intros [H|H]; [discriminate|].
    unfold readable in H. destruct calendar as [|r]; cbn [awaitFetch]; [eauto|].
    destruct (ok r); cbn [negb]; [|eauto].
    unfold awaitJson. destruct (json r) as [|[d|]]; try discriminate; eauto.
Qed.

(** X19. With a usable configuration and a readable answer of the calendar
    service, [loadGoogleCalendarEvents] does not throw, whatever the
    geocoder answers; [this.events] gets one event for each item of the feed
    that is not an excluded recurring event, in the order of the feed; its
    [id] is the index of the item in the feed plus one, its title and
    location are those of the item as the feed has them, and it carries no
    search annotation. *)
Theorem loadGoogleCalendarEvents_loads (config : option CalendarConfig)
    (calendar : FetchOutcome (option CalendarData)) (data : CalendarData)
    (nets : nat -> FetchOutcome GeocodeData) :
  usable config = true ->
  readable calendar = Some data ->
  exists evs,
    load config clk calendar nets = Loaded evs
    /\ Forall2 (madeFrom clk) evs (indexed 0 (itemsOf data)).
Proof. apply load_usable_readable. Qed.

(** X20. [loadGoogleCalendarEvents] throws exactly when the configuration
    is not usable (missing, without key or calendar, with the placeholder
    key, or with a calendar identifier that cannot be encoded) or the answer
    of the calendar service cannot be read (the request fails, the status is
    not ok, the body is not JSON or is null). *)
Theorem loadGoogleCalendarEvents_fails_iff (config : option CalendarConfig)
    (calendar : FetchOutcome (option CalendarData))
    (nets : nat -> FetchOutcome GeocodeData) :
  (exists e, load config clk calendar nets = Failed e)
  <-> usable config = false \/ readable calendar = None.
Proof. apply load_fails_iff. Qed.

(** After [init], whatever the services answer, the list holds every event
    of the store in its order, and no event carries a search annotation. *)
Lemma init_fresh (config : option CalendarConfig)
    (calendar : FetchOutcome (option CalendarData))
    (nets : nat -> FetchOutcome GeocodeData) :
  let this := init decodeHTMLEntities config clk calendar nets in
  Filter.filteredEvents this = seq 0 (List.length (Filter.events this))
  /\ Forall (fun e => Filter.annotated e = false) (Filter.events this).
Proof.
  cbv zeta. unfold init. cbn [Filter.filteredEvents Filter.events].
  split; [reflexivity|].
  destruct (usable config) eqn:Hu;
    [destruct (readable calendar) as [data|] eqn:Hr|].
  - destruct (load_usable_readable config calendar data nets Hu Hr) as (evs & -> & F).
    clear -F. induction F as [|e [i x] evs l H _ IH]; constructor; [|exact IH].
    now destruct H as (_ & _ & _ & _ & _ & H).
  - destruct (proj2 (load_fails_iff config calendar nets) (or_intror Hr)) as [e ->].
    constructor.
  - destruct (proj2 (load_fails_iff config calendar nets) (or_introl Hu)) as [e ->].
    constructor.
Qed.

End LoaderFacts.

Lemma loadGoogleCalendarEvents_loads_witness :
  let config :=
    Some {| Loader.API_KEY := Some (lit "AIzaSyExampleKey");
            Loader.CALENDAR_ID := Some (lit "veterans@group.calendar.google.com");
            Loader.geocoder :=
              {| Location.ENABLE_GEOCODING := false;
                 Location.GEOCODING_API_KEY := None;
                 Location.DEFAULT_REGION := None |} |} in
  let data :=
    {| Loader.items :=
         Some [allDayItem "Coffee Morning" (JsDate.days_from_civil 2025 11 6)] |} in
  exists evs,
    Loader.loadGoogleCalendarEvents (fun s => s) config noonClock
      (Location.FetchResolves (Location.mkResponse true 200
                                 (Location.JsonValue (Some data))))
      (fun _ => Location.FetchRejects)
    = Loader.Loaded evs
    /\ Forall2 (Loader.madeFrom noonClock) evs
         (Loader.indexed 0 (Loader.itemsOf data)).
Proof.
  intros config data.
  apply (loadGoogleCalendarEvents_loads (fun s => s) noonClock config _ data).
  - vm_compute. reflexivity.
  - reflexivity.
Defined.

(** ** The header of the event list *)

Section HeaderFacts.
Import Filter Display.

Lemma Qmax_ub (a b : Q) : (a <= Qmax a b /\ b <= Qmax a b)%Q.
Proof.
  unfold Qmax. destruct (Qle_bool a b) eqn:E.
  - apply Qle_bool_iff in E. split; [exact E|apply Qle_refl].
  - split; [apply Qle_refl|]. apply Qlt_le_weak, Qnot_le_lt.
    intros H. apply Qle_bool_iff in H. congruence.
Qed.

Lemma maxOf_ub (l : list Q) : forall a,
  (a <= maxOf a l)%Q /\ (forall x, In x l -> (x <= maxOf a l)%Q).
Proof.
  unfold maxOf. induction l as [|b l IH]; intros a; cbn [fold_left].
  - split; [apply Qle_refl|intros x []].
  - destruct (IH (Qmax a b)) as [A B]. destruct (Qmax_ub a b) as [Ha Hb]. split.
    + eapply Qle_trans; [exact Ha|exact A].
    + intros x [<-|Hx]; [eapply Qle_trans; [exact Hb|exact A]|now apply B].
Qed.

Lemma maxOf_attained (l : list Q) : forall a, maxOf a l = a \/ In (maxOf a l) l.
Proof.
  unfold maxOf. induction l as [|b l IH]; intros a; cbn [fold_left]; [now left|].
  destruct (IH (Qmax a b)) as [E|E]; [|right; now right].
  rewrite E. unfold Qmax. destruct (Qle_bool a b); [right; now left|now left].
Qed.

(** X21. When [displayEvents] puts a search header above the list, the
    radius it names is the largest of the radii recorded on the listed
    events, an event without one counting for 50: it is at least 50 as soon
    as one listed event carries no radius. *)
Theorem searchInfoHeader_radius (this : EventMap) (h : Header) :
  searchInfoHeader this = Some h ->
  (forall r, In r (filteredEvents this) ->
             (radiusOrDefault (deref (events this) r) <= maxRadius h)%Q)
  /\ (exists r, In r (filteredEvents this)
                /\ maxRadius h = radiusOrDefault (deref (events this) r))
  /\ (forall r e, In r (filteredEvents this) ->
                  deref (events this) r = Some e ->
                  Event._searchRadius e = None -> (50 <= maxRadius h)%Q).
Proof.
  unfold searchInfoHeader.
  destruct (filteredEvents this) as [|first rest]; [discriminate|].
  destruct (existsb _ _); [|discriminate].
  intros H. injection H as <-. cbn [maxRadius].
  set (f := fun r => radiusOrDefault (deref (events this) r)).
  destruct (maxOf_ub (map f rest) (f first)) as [A B].
  assert (U : forall r, In r (first :: rest) -> (f r <= maxOf (f first) (map f rest))%Q).
  { intros r [<-|Hr]; [exact A|]. apply B. now apply in_map. }
  split; [exact U|]. split.
  - destruct (maxOf_attained (map f rest) (f first)) as [E|E].
    + exists first. split; [now left|exact E].
    + apply in_map_iff in E as (r & E & Hr). exists r. split; [now right|].
      exact (eq_sym E).
  - intros r e Hr He Hn. specialize (U r Hr). unfold f in U at 1.
    rewrite He in U. cbn [radiusOrDefault] in U. now rewrite Hn in U.
Qed.

Lemma searchInfoHeader_fresh (this : EventMap) :
  Forall (fun e => annotated e = false) (events this) ->
  searchInfoHeader this = None.
Proof.
  intros F. unfold searchInfoHeader.
  destruct (filteredEvents this) as [|first rest]; [reflexivity|].
  assert (E : existsb (hasDistance (events this)) (first :: rest) = false).
  { apply not_true_is_false. intros H. apply existsb_exists in H as (r & _ & H).
    unfold hasDistance, deref in H.
    destruct (nth_error (events this) r) as [e|] eqn:He; [|discriminate].
    rewrite Forall_forall in F. specialize (F e (nth_error_In _ _ He)).
    unfold annotated in F. destruct (Event._searchDistance e); discriminate. }
  now rewrite E.
Qed.

(** X22. After [init], whatever the calendar and the geocoder answer, the
    list holds every event of the store, in the order of the store, no event
    carries a search annotation, and [displayEvents] shows no search
    header. *)
Theorem init_lists_all_without_header
    (decodeHTMLEntities : jsstring -> jsstring)
    (config : option Loader.CalendarConfig) (clk : JsDate.Clock)
    (calendar : Location.FetchOutcome (option Loader.CalendarData))
    (nets : nat -> Location.FetchOutcome Location.GeocodeData) :
  let this := Loader.init decodeHTMLEntities config clk calendar nets in
  filteredEvents this = seq 0 (List.length (events this))
  /\ Forall (fun e => annotated e = false) (events this)
  /\ searchInfoHeader this = None.
Proof.
  intros this.
  destruct (init_fresh decodeHTMLEntities clk config calendar nets) as [A B].
  fold this in A, B. split; [exact A|]. split; [exact B|].
  now apply searchInfoHeader_fresh.
Qed.

End HeaderFacts.

Lemma searchInfoHeader_radius_witness :
  exists h,
    Display.searchInfoHeader (firstTS28 gridDistance) = Some h
    /\ (50 <= Display.maxRadius h)%Q.
Proof.
  destruct (Display.searchInfoHeader (firstTS28 gridDistance)) as [h|] eqn:E;
    [|vm_compute in E; discriminate].
  exists h. split; [reflexivity|].
  apply (proj2 (proj2 (searchInfoHeader_radius (firstTS28 gridDistance) h E))
           0%nat hall).
  - vm_compute. now left.
  - vm_compute. reflexivity.
  - reflexivity.
Defined.

(** ** The list grouped by date *)

Section SortZ.

Lemma insert_ltb_sorted (x : Z) (l : list Z) :
  StronglySorted Z.le l -> StronglySorted Z.le (StableSort.insert Z.ltb x l).
Proof.
  induction l as [|z l IH]; intros Hs; simpl.
  - constructor; constructor.
  - inversion Hs as [|? ? Hl Hz]; subst. destruct (Z.ltb_spec z x).
    + constructor; [now apply IH|].
      apply Forall_forall. intros y Hy. apply In_insert in Hy as [->|Hy]; [lia|].
      rewrite Forall_forall in Hz. now apply Hz.
    + constructor; [exact Hs|]. constructor; [exact H|].
      apply Forall_forall. intros y Hy. rewrite Forall_forall in Hz.
      specialize (Hz y Hy). lia.
Qed.

Lemma sort_ltb_sorted (l : list Z) : StronglySorted Z.le (StableSort.sort Z.ltb l).
Proof.
  induction l as [|x l IH]; simpl; [constructor|]. now apply insert_ltb_sorted.
Qed.

Lemma sorted_NoDup_lt (l : list Z) :
  StronglySorted Z.le l -> NoDup l -> StronglySorted Z.lt l.
Proof.
  induction 1 as [|x l Hs IH Hx]; intros Hn; [constructor|].
  inversion Hn as [|? ? Hnx Hnl]; subst. constructor; [now apply IH|].
  apply Forall_forall. intros y Hy. rewrite Forall_forall in Hx.
  specialize (Hx y Hy). assert (x <> y) by (intros ->; contradiction). lia.
Qed.

End SortZ.

Section GroupFacts.
Import Filter Display.

Variable store : list Event.t.

(** The date of the event at a position of the store. *)
Abbreviation dateAt := (fun r => option_map Event.date (deref store r)).

Abbreviation wellGrouped :=
  (fun g : list (Z * list nat) =>
     forall k refs, In (k, refs) g ->
                    refs <> [] /\ forall r, In r refs -> dateAt r = Some k).

Lemma pushToGroup_Permutation (d : Z) (r : nat) (g : list (Z * list nat)) :
  Permutation (List.concat (map snd (pushToGroup d r g))) (r :: List.concat (map snd g)).
Proof.
  induction g as [|[k refs] g IH]; cbn [pushToGroup]; [reflexivity|].
  destruct (k =? d); cbn [map snd List.concat].
  - rewrite <- app_assoc. symmetry. apply Permutation_middle.
  - rewrite IH. symmetry. apply Permutation_middle.
Qed.

Lemma pushToGroup_keys (d : Z) (r : nat) (g : list (Z * list nat)) (k : Z) :
  In k (map fst (pushToGroup d r g)) <-> k = d \/ In k (map fst g).
Proof.
  induction g as [|[k' refs] g IH]; cbn [pushToGroup map fst In].
  - intuition.
  - destruct (Z.eqb_spec k' d) as [->|Hne]; cbn [map fst In]; [intuition|].
    rewrite IH. intuition.
Qed.

Lemma pushToGroup_NoDup (d : Z) (r : nat) (g : list (Z * list nat)) :
  NoDup (map fst g) -> NoDup (map fst (pushToGroup d r g)).
Proof.
  induction g as [|[k refs] g IH]; cbn [pushToGroup map fst]; intros H.
  - constructor; [intros []|constructor].
  - inversion H as [|? ? Hk Hg]; subst.
    destruct (Z.eqb_spec k d) as [->|Hne]; cbn [map fst]; [exact H|].
    constructor; [|now apply IH].
    intros Hin. apply pushToGroup_keys in Hin as [->|Hin]; contradiction.
Qed.

Lemma pushToGroup_wellGrouped (d : Z) (r : nat) (g : list (Z * list nat)) :
  dateAt r = Some d -> wellGrouped g -> wellGrouped (pushToGroup d r g).
Proof.
  intros Hr. induction g as [|[k refs] g IH]; cbn [pushToGroup]; intros Hg.
  - intros k' refs' [E|[]]. injection E as <- <-. split; [discriminate|].
    intros x [<-|[]]. exact Hr.
  - assert (Hg' : wellGrouped g) by (intros k' refs' H; apply Hg; now right).
    destruct (Z.eqb_spec k d) as [->|Hne].
    + intros k' refs' [E|H]; [|apply Hg; now right].
      injection E as <- <-. split; [now destruct refs|].
      intros x Hx. apply in_app_or in Hx as [Hx|[<-|[]]]; [|exact Hr].
      now apply (Hg d refs (or_introl eq_refl)).
    + intros k' refs' [E|H]; [apply Hg; now left|now apply IH].
Qed.

Abbreviation step :=
  (fun (eventsByDate : list (Z * list nat)) (ref : nat) =>
     match deref store ref with
     | Some event => pushToGroup (Event.date event) ref eventsByDate
     | None => eventsByDate
     end).

Lemma groupByDate_from (refs : list nat) :
  (forall r, In r refs -> deref store r <> None) ->
  forall g,
    NoDup (map fst g) -> wellGrouped g ->
    let g' := fold_left step refs g in
    Permutation (List.concat (map snd g')) (List.concat (map snd g) ++ refs)
    /\ NoDup (map fst g') /\ wellGrouped g'.
Proof.
  induction refs as [|r refs IH]; intros Hv g Hn Hg; cbn [fold_left].
  - cbv zeta. rewrite app_nil_r. split; [reflexivity|split; assumption].
  - destruct (deref store r) as [e|] eqn:He;
      [|exfalso; apply (Hv r (or_introl eq_refl)); exact He].
    destruct (IH (fun x Hx => Hv x (or_intror Hx))
                (pushToGroup (Event.date e) r g)
                (pushToGroup_NoDup _ _ _ Hn)) as (P & N & W).
    { apply pushToGroup_wellGrouped; [now rewrite He|exact Hg]. }
    split; [|split; assumption].
    cbv zeta in P. rewrite P, pushToGroup_Permutation.
    cbn [app]. apply Permutation_middle.
Qed.

Lemma getGroup_key (g : list (Z * list nat)) (k : Z) (refs : list nat) :
  NoDup (map fst g) -> In (k, refs) g -> getGroup g k = refs.
Proof.
  unfold getGroup. induction g as [|[k' refs'] g IH]; intros Hn Hin; [destruct Hin|].
  inversion Hn as [|? ? Hk Hg]; subst. cbn [find fst].
  destruct Hin as [E|Hin].
  - injection E as -> ->. now rewrite Z.eqb_refl.
  - destruct (Z.eqb_spec k' k) as [->|Hne]; [|now apply IH].
    exfalso. apply Hk. apply in_map_iff. now exists (k, refs).
Qed.

Lemma concat_getGroup (g : list (Z * list nat)) :
  NoDup (map fst g) ->
  List.concat (map (getGroup g) (map fst g)) = List.concat (map snd g).
Proof.
  intros Hn. f_equal. rewrite map_map. apply map_ext_in.
  intros [k refs] Hin. now apply getGroup_key.
Qed.

Lemma Permutation_concat_map {A B : Type} (f h : A -> list B) (l : list A) :
  (forall x, In x l -> Permutation (f x) (h x)) ->
  Permutation (List.concat (map f l)) (List.concat (map h l)).
Proof.
  induction l as [|x l IH]; intros H; [reflexivity|]. cbn [map List.concat].
  apply Permutation_app; [apply H; now left|].
  apply IH. intros y Hy. apply H. now right.
Qed.

Lemma Permutation_concat_keys {A B : Type} (f : A -> list B) (l l' : list A) :
  Permutation l l' -> Permutation (List.concat (map f l)) (List.concat (map f l')).
Proof.
  induction 1; cbn [map List.concat].
  - reflexivity.
  - now apply Permutation_app_head.
  - rewrite !app_assoc. apply Permutation_app_tail, Permutation_app_comm.
  - etransitivity; eassumption.
Qed.

End GroupFacts.

Section GroupedFacts.
Import Filter Display.

Variable localeCompare : jsstring -> jsstring -> Z.

(** X23. The grouped list shows every listed event exactly once, under its
    own date; the dates are in ascending order, each once, and no date group
    is empty. This holds whatever the collation of the time strings. *)
Theorem groupedEvents_partition (this : EventMap) :
  (forall r, In r (filteredEvents this) -> deref (events this) r <> None) ->
  let groups := groupedEvents localeCompare this in
  Permutation (List.concat (map snd groups)) (filteredEvents this)
  /\ StronglySorted Z.lt (map fst groups)
  /\ (forall date refs,
        In (date, refs) groups ->
        refs <> []
        /\ forall r, In r refs ->
                     exists e, deref (events this) r = Some e
                               /\ Event.date e = date).
Proof.
  intros Hv groups.
  destruct (groupByDate_from (events this) (filteredEvents this) Hv []
              (NoDup_nil _) (fun _ _ H => match H with end)) as (P & N & W).
  cbv zeta in P, N, W. cbn [map List.concat app] in P.
  fold (groupByDate (events this) (filteredEvents this)) in P, N, W.
  unfold groups, groupedEvents. cbv zeta.
  set (g := groupByDate (events this) (filteredEvents this)) in *.
  set (sortedDates := StableSort.sort Z.ltb (map fst g)).
  set (byTime := fun a b : nat => _ <? 0).
  assert (Hs : Permutation sortedDates (map fst g)) by apply sort_Permutation.
  rewrite !map_map. cbn [fst snd]. rewrite map_id. split; [|split].
  - rewrite <- P, <- (concat_getGroup g N).
    etransitivity;
      [|apply (Permutation_concat_keys (getGroup g) _ _ Hs)].
    apply Permutation_concat_map. intros d _. apply sort_Permutation.
  - apply sorted_NoDup_lt; [apply sort_ltb_sorted|].
    eapply Permutation_NoDup; [symmetry; exact Hs|exact N].
  - intros date refs Hin. apply in_map_iff in Hin as (d & E & Hd).
    injection E as -> <-.
    apply (Permutation_in _ Hs) in Hd. apply in_map_iff in Hd as ([k refs] & Ek & Hk).
    cbn [fst] in Ek. subst k. rewrite (getGroup_key g date refs N Hk).
    destruct (W date refs Hk) as [Hne Hall]. split.
    + intros E. apply Hne.
      apply Permutation_nil. rewrite <- E. apply sort_Permutation.
    + intros r Hr. apply In_sort in Hr. specialize (Hall r Hr).
      destruct (deref (events this) r) as [e|]; [|discriminate].
      exists e. split; [reflexivity|]. now injection Hall.
Qed.

End GroupedFacts.

Lemma groupedEvents_partition_witness :
  Permutation
    (List.concat (map snd (Display.groupedEvents (fun _ _ => 0) (firstTS28 gridDistance))))
    (Filter.filteredEvents (firstTS28 gridDistance)).
Proof.
  apply (groupedEvents_partition (fun _ _ => 0) (firstTS28 gridDistance)).
  intros r Hr. vm_compute in Hr. destruct Hr as [<-|[<-|[]]]; vm_compute; discriminate.
Defined.

(** ** Debouncing *)

Section DebounceFacts.
Import Debounce.
Context {A : Type}.

Variable wait : Z.

(** A state with one pending timer, the one that [timeout] names: when the
    timer is due it runs, [func] is called, and no timer is left. *)
Lemma runTimers_one (n : nat) (now : Z) (st : @State A) (t : Timer) :
  timers st = [t] -> timeout st = Some (timerId t) ->
  runTimers (S n) now st
  = if due t <=? now
    then {| timeout := timeout st; timers := []; nextId := nextId st;
            calls := (due t, args t) :: calls st |}
    else st.
Proof.
  intros Ht Hid. cbn [runTimers]. rewrite Ht. cbn [earliest].
  destruct (due t <=? now); [|reflexivity].
  unfold later, clearTimeout. cbn [timeout timers nextId calls filter].
  rewrite Hid, Nat.eqb_refl. cbn [negb filter].
  destruct n; reflexivity.
Qed.

(** A call of the debounced function leaves exactly one pending timer. *)
Lemma executedFunction_one (now : Z) (a : A) (st : @State A) :
  timers st = []
  \/ (exists t, timers st = [t] /\ timeout st = Some (timerId t)) ->
  executedFunction wait now a st
  = {| timeout := Some (nextId st);
       timers := [mkTimer (nextId st) (now + wait) a];
       nextId := S (nextId st);
       calls := calls st |}.
Proof.
  intros [H|(t & H & Hid)]; unfold executedFunction, setTimeout, clearTimeout.
  - destruct (timeout st); cbn [timers nextId calls]; now rewrite H.
  - rewrite Hid. cbn [timers nextId calls]. rewrite H. cbn [filter].
    now rewrite Nat.eqb_refl.
Qed.

Lemma quiet_cons (now : Z) (a : A) (rest : list (Z * A)) :
  quiet wait ((now, a) :: rest)
  = match rest with
    | [] => [(now + wait, a)]
    | (next, _) :: _ => if now + wait <=? next then [(now + wait, a)] else []
    end ++ quiet wait rest.
Proof.
  cbn [quiet]. destruct rest as [|[next b] rest]; [reflexivity|].
  destruct (now + wait <=? next); reflexivity.
Qed.

Lemma run_pending (events : list (Z * A)) :
  forall (st : @State A) (t : Timer),
    timers st = [t] -> timeout st = Some (timerId t) ->
    rev (calls (settle (run wait events st)))
    = rev (calls st)
      ++ match events with
         | [] => [(due t, args t)]
         | (next, _) :: _ => if due t <=? next then [(due t, args t)] else []
         end
      ++ quiet wait events.
Proof.
  induction events as [|[now a] rest IH]; intros st t Ht Hid.
  - cbn [run quiet]. unfold settle. rewrite Ht. cbn [fold_left List.length].
    rewrite (runTimers_one _ _ _ t Ht Hid), Z.leb_refl. cbn [calls rev].
    now rewrite app_nil_r.
  - cbn [run]. rewrite Ht. cbn [List.length].
    rewrite (runTimers_one _ _ _ t Ht Hid), quiet_cons.
    destruct (due t <=? now).
    + rewrite executedFunction_one by (left; reflexivity).
      cbn [nextId calls].
      match goal with
      | |- context [run wait rest ?s] =>
          rewrite (IH s (mkTimer (nextId st) (now + wait) a) eq_refl eq_refl)
      end.
      cbn [calls rev due args]. now rewrite <- !app_assoc.
    + rewrite executedFunction_one by (right; now exists t).
      match goal with
      | |- context [run wait rest ?s] =>
          rewrite (IH s (mkTimer (nextId st) (now + wait) a) eq_refl eq_refl)
      end.
      reflexivity.
Qed.

Lemma debounce_quiet (events : list (Z * A)) :
  debounce wait events = quiet wait events.
Proof.
  unfold debounce. destruct events as [|[now a] rest]; [reflexivity|].
  cbn [run initial timers List.length runTimers].
  rewrite executedFunction_one by (left; reflexivity).
  match goal with
  | |- context [run wait rest ?s] =>
      rewrite (run_pending rest s (mkTimer 1 (now + wait) a) eq_refl eq_refl)
  end.
  cbn [calls rev app due args]. now rewrite quiet_cons.
Qed.

(** X24. Of the calls of a debounced function, those that no other call
    follows before [wait] milliseconds have passed lead to a call of [func],
    [wait] milliseconds later and with the same arguments; the others lead to
    none. *)
Theorem debounce_calls (events : list (Z * A)) :
  debounce wait events = quiet wait events.
Proof. apply debounce_quiet. Qed.

Lemma quiet_burst (events : list (Z * A)) (t : Z) (a : A) :
  burst wait (events ++ [(t, a)]) = true ->
  quiet wait (events ++ [(t, a)]) = [(t + wait, a)].
Proof.
  induction events as [|[now b] rest IH]; [reflexivity|].
  cbn [app]. intros H. rewrite quiet_cons.
  change (burst wait ((now, b) :: rest ++ [(t, a)]))
    with (match rest ++ [(t, a)] with
          | [] => true
          | (next, _) :: _ => (next <? now + wait) && burst wait (rest ++ [(t, a)])
          end) in H.
  destruct (rest ++ [(t, a)]) as [|[next c] more] eqn:E.
  - destruct rest; discriminate.
  - apply andb_true_iff in H as [Hlt Hb]. apply Z.ltb_lt in Hlt.
    destruct (Z.leb_spec (now + wait) next); [lia|]. now apply IH.
Qed.

(** X25. A burst of calls of a debounced function, each less than [wait]
    milliseconds after the one before it, leads to one call of [func]:
    [wait] milliseconds after the last call and with its arguments. *)
Theorem debounce_burst (events : list (Z * A)) (t : Z) (a : A) :
  burst wait (events ++ [(t, a)]) = true ->
  debounce wait (events ++ [(t, a)]) = [(t + wait, a)].
Proof. intros H. rewrite debounce_quiet. now apply quiet_burst. Qed.

End DebounceFacts.

Lemma debounce_burst_witness :
  Debounce.debounce 300 [(0, lit "w"); (120, lit "wi"); (260, lit "win")]
  = [(560, lit "win")].
Proof.
  exact (debounce_burst 300 [(0, lit "w"); (120, lit "wi")] 260 (lit "win") eq_refl).
Defined.

(** ** Clay pigeon events *)

Section ClayPigeonFacts.
Import Categorizer CategoryDisplay.






End ClayPigeonFacts.

(** ** The hash of a location string *)

Section HashFacts.
Import Location.

Lemma toInt32_eq (x y : Z) :
  x mod 2 ^ 32 = y mod 2 ^ 32 -> toInt32 x = toInt32 y.
Proof. unfold toInt32. now intros ->. Qed.

Lemma toInt32_mod (x : Z) : toInt32 x mod 2 ^ 32 = x mod 2 ^ 32.
Proof.
  unfold toInt32. destruct (x mod 2 ^ 32 <? 2 ^ 31).
  - apply Z.mod_mod. discriminate.
  - replace (x mod 2 ^ 32 - 2 ^ 32) with (x mod 2 ^ 32 + (-1) * 2 ^ 32) by lia.
    rewrite Z.mod_add by discriminate. apply Z.mod_mod. discriminate.
Qed.

Lemma toInt32_wraps (x : Z) : exists k, toInt32 x = x + k * 2 ^ 32.
Proof.
  unfold toInt32. change (2 ^ 32) with 4294967296.
  pose proof (Z.div_mod x 4294967296 ltac:(discriminate)) as E.
  destruct (x mod 4294967296 <? 2 ^ 31).
  - exists (- (x / 4294967296)). lia.
  - exists (- (x / 4294967296) - 1). lia.
Qed.

Lemma hashRound_mod (h h' c : Z) :
  h mod 2 ^ 32 = h' mod 2 ^ 32 ->
  (toInt32 (Z.shiftl h 5) - h + c) mod 2 ^ 32 = (31 * h' + c) mod 2 ^ 32.
Proof.
  intros H. rewrite Z.shiftl_mul_pow2 by lia.
  destruct (toInt32_wraps (h * 2 ^ 5)) as [k1 ->].
  change (2 ^ 32) with 4294967296 in *. change (2 ^ 5) with 32.
  pose proof (Z.div_mod h 4294967296 ltac:(discriminate)) as E1.
  pose proof (Z.div_mod h' 4294967296 ltac:(discriminate)) as E2.
  replace (h * 32 + k1 * 4294967296 - h + c)
    with (31 * h' + c + (31 * (h / 4294967296 - h' / 4294967296) + k1) * 4294967296)
    by lia.
  apply Z.mod_add. discriminate.
Qed.

Lemma hashStep_mod (h h' c : Z) :
  h mod 2 ^ 32 = h' mod 2 ^ 32 ->
  hashStep h c mod 2 ^ 32 = (31 * h' + c) mod 2 ^ 32.
Proof.
  intros H. unfold hashStep. rewrite toInt32_mod. now apply hashRound_mod.
Qed.

Lemma hashLocation_fold (s : jsstring) :
  forall h h', h mod 2 ^ 32 = h' mod 2 ^ 32 ->
    fold_left hashStep s h mod 2 ^ 32
    = fold_left (fun a c => 31 * a + c) s h' mod 2 ^ 32.
Proof.
  induction s as [|c s IH]; intros h h' H; [exact H|].
  cbn [fold_left]. apply IH. now apply hashStep_mod.
Qed.

(** X27. The hash that [generateUniqueCoordinates] computes is the
    polynomial of the code units in the base 31, wrapped to a signed 32-bit
    integer: the shift and the subtraction of each round multiply by 31. *)
Theorem hashLocation_polynomial (location : jsstring) :
  hashLocation location
  = toInt32 (fold_left (fun a c => 31 * a + c) location 0).
Proof.
  unfold hashLocation.
  destruct (list_eq_dec Z.eq_dec location []) as [->|Hne]; [reflexivity|].
  destruct (exists_last Hne) as (s & c & ->).
  rewrite !fold_left_app.
  change (fold_left hashStep [c] (fold_left hashStep s 0))
    with (toInt32 (toInt32 (Z.shiftl (fold_left hashStep s 0) 5)
                   - fold_left hashStep s 0 + c)).
  apply toInt32_eq, hashRound_mod, hashLocation_fold. reflexivity.
Qed.

End HashFacts.
